(** * threeChess: the move-extraction and validation pipeline of the LLM agent

    A shallow embedding of [llm_chess_api.py] (coordinate validator, move
    parser, extraction cascade, HTTP handlers and the agent memory log) and of
    [call_all/one_function_to_call_them_all.py] (the provider call).

    Conventions of the embedding.
    - A Python [str] is the list of its Unicode code points ([char := N]);
      [lit "RA2"] is the text of an ASCII literal.
    - [print(colored(...))] and [cprint] only write diagnostics to the
      terminal and never influence a returned value: they are left out.
    - A [try: ... except Exception] block is a computation in the [result]
      monad followed by a handler.
    - What CPython takes from the Unicode character database for code points
      above the ASCII range (case mapping, word and digit classes) is not part
      of the repository: it is the [unicode_db] every definition that needs it
      is parameterised by.  On ASCII text nothing is taken from it.
    - Line numbers refer to [llm_chess_api.py].  The theorems marked C1 to
      C10 are the numbered properties of the specification. *)

From Stdlib Require Import NArith ZArith QArith Bool Ascii String Lia List.
Import ListNotations.
Close Scope Q_scope.

(* ================================================================== *)
(** ** Python strings *)

Definition char := N.
Bind Scope N_scope with char.
Definition str := list char.

Definition lit (s : string) : str := map N_of_ascii (list_ascii_of_string s).
Arguments lit s%_string.

Definition char_eqb (a b : char) : bool := N.eqb a b.

Fixpoint str_eqb (a b : str) : bool :=
  match a, b with
  | [], [] => true
  | x :: a', y :: b' => char_eqb x y && str_eqb a' b'
  | _, _ => false
  end.

(** [x in l] for a list of strings. *)
Definition str_in (x : str) (l : list str) : bool := existsb (str_eqb x) l.

(** [Py_UNICODE_ISSPACE]: the code points [str.strip], [str.split] and the
    regular-expression class [\s] treat as whitespace. *)
Definition isspace (c : char) : bool :=
  ((9 <=? c) && (c <=? 13) || (28 <=? c) && (c <=? 32)
   || (c =? 133) || (c =? 160) || (c =? 5760)
   || (8192 <=? c) && (c <=? 8202)
   || (c =? 8232) || (c =? 8233) || (c =? 8239) || (c =? 8287)
   || (c =? 12288))%N.

Fixpoint lstrip (s : str) : str :=
  match s with
  | c :: s' => if isspace c then lstrip s' else s
  | [] => []
  end.

Definition rstrip (s : str) : str := rev (lstrip (rev s)).

(** [s.strip()] *)
Definition strip (s : str) : str := rstrip (lstrip s).

(** [s.split()]: maximal runs of non-whitespace, scanning left to right;
    [cur] is the run being read, last character first. *)
Fixpoint split_scan (cur : str) (s : str) : list str :=
  match s with
  | [] => match cur with [] => [] | _ => [rev cur] end
  | c :: s' =>
      if isspace c
      then match cur with
           | [] => split_scan [] s'
           | _ => rev cur :: split_scan [] s'
           end
      else split_scan (c :: cur) s'
  end.

Definition split (s : str) : list str := split_scan [] s.

(** [s.startswith(p)] *)
Fixpoint startswith (s p : str) : bool :=
  match p, s with
  | [], _ => true
  | x :: p', y :: s' => char_eqb x y && startswith s' p'
  | _ :: _, [] => false
  end.

(** [sub in s] *)
Fixpoint contains (s sub : str) : bool :=
  startswith s sub ||
  match s with
  | [] => false
  | _ :: s' => contains s' sub
  end.

(** [s.split(sep, 1)] for a non-empty [sep]: the text before and after the
    first occurrence of [sep], or [None] when the result has a single part. *)
Fixpoint split_once (s sep : str) : option (str * str) :=
  if startswith s sep then Some ([], skipn (List.length sep) s)
  else match s with
       | [] => None
       | c :: s' =>
           match split_once s' sep with
           | Some (a, b) => Some (c :: a, b)
           | None => None
           end
       end.

(** [s.split(sep, 1)[0]] *)
Definition before_first (s sep : str) : str :=
  match split_once s sep with
  | Some (a, _) => a
  | None => s
  end.

(** [s.replace(c, "")] for a one-character [c]. *)
Definition remove_char (c : char) (s : str) : str :=
  filter (fun x => negb (char_eqb x c)) s.

(* ================================================================== *)
(** ** Python values and exceptions *)

(** The values a caller can hand to the validators: [None], an [int] or a
    [str]. *)
Inductive pyval :=
| PyNone
| PyInt (z : Z)
| PyStr (s : str).

Inductive exn :=
| TypeError
| IndexError
| AttributeError
| JSONDecodeError
| OtherError.

Inductive result (A : Type) :=
| Ret (a : A)
| Raise (e : exn).
Arguments Ret {A} a.
Arguments Raise {A} e.

Definition bind {A B} (m : result A) (f : A -> result B) : result B :=
  match m with
  | Ret a => f a
  | Raise e => Raise e
  end.

Notation "x <- m ;; k" := (bind m (fun x => k))
  (at level 61, m at next level, right associativity).

(** Truth value of a value ([not v] is its negation). *)
Definition truthy (v : pyval) : bool :=
  match v with
  | PyNone => false
  | PyInt z => negb (Z.eqb z 0)
  | PyStr s => match s with [] => false | _ => true end
  end.

(** [len(v)] *)
Definition py_len (v : pyval) : result nat :=
  match v with
  | PyStr s => Ret (List.length s)
  | _ => Raise TypeError
  end.

(** [v[i]]: a one-character string. *)
Definition py_item (v : pyval) (i : nat) : result str :=
  match v with
  | PyStr s => match nth_error s i with
               | Some c => Ret [c]
               | None => Raise IndexError
               end
  | _ => Raise TypeError
  end.

(** [v.strip()] *)
Definition py_strip (v : pyval) : result str :=
  match v with
  | PyStr s => Ret (strip s)
  | _ => Raise AttributeError
  end.

(* ================================================================== *)
(** ** Coordinate validator and move parser *)

Definition VALID_FILES : list str := [lit "A"; lit "B"; lit "C"].
Definition VALID_RANKS : list str := [lit "1"; lit "2"; lit "3"; lit "4"].
Definition VALID_COLORS : list str := [lit "R"; lit "B"; lit "G"].

(** The body of the [try] block of [is_valid_position]. *)
Definition is_valid_position_try (pos_str : pyval) : result bool :=
  if negb (truthy pos_str) then Ret false
  else
    n <- py_len pos_str ;;
    if negb (Nat.eqb n 3) then Ret false
    else
      color <- py_item pos_str 0 ;;
      file <- py_item pos_str 1 ;;
      rank <- py_item pos_str 2 ;;
      if negb (str_in color VALID_COLORS) then Ret false
      else if negb (str_in file VALID_FILES) then Ret false
      else if negb (str_in rank VALID_RANKS) then Ret false
      else Ret true.

Definition is_valid_position (pos_str : pyval) : bool :=
  match is_valid_position_try pos_str with
  | Ret b => b
  | Raise _ => false
  end.

(** [find_closest_legal_move]; on a [str] and a list of [str] nothing in its
    body raises, so the bare [except] is never entered. *)
Definition find_closest_legal_move (move_str : str) (legal_moves : list str)
  : option str :=
  match move_str, legal_moves with
  | [], _ | _, [] => None
  | _, first :: _ =>
      match split move_str with
      | [] => Some first
      | from_pos :: _ =>
          match filter (fun move => startswith move from_pos) legal_moves with
          | m :: _ => Some m
          | [] => Some first
          end
      end
  end.

(** What a run of [validate_and_process_move] yields: the value returned and
    the [closest_move] it computed for the "Did you mean" diagnostic, if it
    got that far. *)
Record parse_outcome := {
  parsed : option str;
  closest_move : option str
}.

Definition no_move : parse_outcome := {| parsed := None; closest_move := None |}.

(** The body of the [try] block; [legal_moves] is [None] or a list. *)
Definition validate_try (move_str : pyval) (legal_moves : option (list str))
  : result parse_outcome :=
  move_str <- py_strip move_str ;;
  match split move_str with
  | [from_pos; to_pos] =>
      if negb (is_valid_position (PyStr from_pos))
         || negb (is_valid_position (PyStr to_pos))
      then Ret no_move
      else
        match legal_moves with
        | Some ((_ :: _) as legal) =>
            if negb (str_in move_str legal)
            then Ret {| parsed := None;
                        closest_move := find_closest_legal_move move_str legal |}
            else Ret {| parsed := Some move_str; closest_move := None |}
        | _ => Ret {| parsed := Some move_str; closest_move := None |}
        end
  | _ => Ret no_move
  end.

Definition validate_outcome (move_str : pyval) (legal_moves : option (list str))
  : parse_outcome :=
  match validate_try move_str legal_moves with
  | Ret o => o
  | Raise _ => no_move
  end.

Definition validate_and_process_move (move_str : pyval)
  (legal_moves : option (list str)) : option str :=
  parsed (validate_outcome move_str legal_moves).

(* ================================================================== *)
(** ** Text classes of the interpreter *)

(** The part of the Unicode character database the code relies on beyond
    ASCII.  Each field is consulted only for text or code points above 127. *)
Record unicode_db := {
  (** [s.lower()] and [s.upper()] of a text that is not pure ASCII *)
  lower_text : str -> str;
  upper_text : str -> str;
  (** the classes [\w] and [\d] above 127 *)
  word_above : char -> bool;
  digit_above : char -> bool;
  (** under [re.IGNORECASE]: does the ASCII pattern character [c], and does
      the range [lo-hi], match the code point [x] above 127 *)
  same_letter_above : char -> char -> bool;
  range_nocase_above : char -> char -> char -> bool
}.

Definition is_ascii (c : char) : bool := (c <? 128)%N.

Definition ascii_lower (c : char) : char :=
  if ((65 <=? c) && (c <=? 90))%N then (c + 32)%N else c.

Definition ascii_upper (c : char) : char :=
  if ((97 <=? c) && (c <=? 122))%N then (c - 32)%N else c.

Definition between (lo hi x : char) : bool := ((lo <=? x) && (x <=? hi))%N.

Section Classes.
Variable U : unicode_db.

(** [s.lower()] *)
Definition lower (s : str) : str :=
  if forallb is_ascii s then map ascii_lower s else lower_text U s.

(** [s.upper()] *)
Definition upper (s : str) : str :=
  if forallb is_ascii s then map ascii_upper s else upper_text U s.

Definition is_digit (x : char) : bool :=
  if is_ascii x then between 48 57 x else digit_above U x.

Definition is_word (x : char) : bool :=
  if is_ascii x
  then between 48 57 x || between 65 90 x || between 97 122 x || (x =? 95)%N
  else word_above U x.

(** Under [re.IGNORECASE], does the pattern character [c] match [x]?  The
    one pattern character above 127 in the file is the arrow U+2192, which
    has no case and matches itself only. *)
Definition same_letter (c x : char) : bool :=
  char_eqb c x ||
  (is_ascii c &&
   (if is_ascii x
    then char_eqb (ascii_lower c) (ascii_lower x)
    else same_letter_above U c x)).

Definition range_nocase (lo hi x : char) : bool :=
  between lo hi x ||
  (if is_ascii x
   then between lo hi (ascii_lower x) || between lo hi (ascii_upper x)
   else range_nocase_above U lo hi x).
End Classes.

(* ================================================================== *)
(** ** Regular expressions

    The fragment of Python's [re] syntax the patterns of the file are
    written in, matched the way the backtracking engine matches: leftmost
    start, alternatives in order, greedy repetition. *)

Inductive item :=
| Chr (c : char)          (* a character *)
| Range (lo hi : char)    (* lo-hi *)
| Space                   (* \s *)
| Word                    (* \w *)
| Digit.                  (* \d *)

Inductive regex :=
| Eps
| One (negated : bool) (items : list item)                 (* [...] or [^...] *)
| Many (least : nat) (negated : bool) (items : list item)  (* [...]* or [...]+ *)
| Seq (r1 r2 : regex)
| Alt (r1 r2 : regex)
| Times (least extra : nat) (r : regex)     (* (?:r){least,least+extra} *)
| Group (n : nat) (r : regex).              (* the n-th parenthesis *)

(** Captured groups, the latest binding first. *)
Definition caps := list (nat * str).

Fixpoint group (c : caps) (n : nat) : option str :=
  match c with
  | [] => None
  | (m, s) :: c' => if Nat.eqb m n then Some s else group c' n
  end.

Fixpoint ngroups (r : regex) : nat :=
  match r with
  | Eps | One _ _ | Many _ _ _ => 0
  | Seq r1 r2 | Alt r1 r2 => ngroups r1 + ngroups r2
  | Times _ _ r1 => ngroups r1
  | Group _ r1 => S (ngroups r1)
  end.

Section Matcher.
Variable U : unicode_db.
(** [re.IGNORECASE] *)
Variable ignorecase : bool.

Definition item_matches (x : char) (i : item) : bool :=
  match i with
  | Chr c => if ignorecase then same_letter U c x else char_eqb c x
  | Range lo hi => if ignorecase then range_nocase U lo hi x else between lo hi x
  | Space => isspace x
  | Word => is_word U x
  | Digit => is_digit U x
  end.

Definition class_matches (negated : bool) (items : list item) (x : char) : bool :=
  xorb negated (existsb (item_matches x) items).

Section Run.
Variable A : Type.

(** Greedy repetition of a one-character class: take one more character
    first, stop here when that fails and [least] have been taken. *)
Fixpoint many (p : char -> bool) (least : nat) (s : str)
  (k : str -> option A) : option A :=
  let stop := match least with O => k s | S _ => None end in
  match s with
  | x :: s' =>
      if p x
      then match many p (Nat.pred least) s' k with
           | Some a => Some a
           | None => stop
           end
      else stop
  | [] => stop
  end.

(** [run r s c k]: match [r] at the start of [s], then continue with [k]
    on the rest; on failure of [k] the next way of matching [r] is
    tried. *)
Fixpoint run (r : regex) (s : str) (c : caps)
  (k : str -> caps -> option A) {struct r} : option A :=
  match r with
  | Eps => k s c
  | One negated items =>
      match s with
      | x :: s' => if class_matches negated items x then k s' c else None
      | [] => None
      end
  | Many least negated items =>
      many (class_matches negated items) least s (fun s' => k s' c)
  | Seq r1 r2 => run r1 s c (fun s' c' => run r2 s' c' k)
  | Alt r1 r2 =>
      match run r1 s c k with
      | Some a => Some a
      | None => run r2 s c k
      end
  | Times least extra r1 =>
      let fix may (n : nat) (s : str) (c : caps) : option A :=
        match n with
        | O => k s c
        | S n' =>
            match run r1 s c (fun s' c' => may n' s' c') with
            | Some a => Some a
            | None => k s c
            end
        end in
      let fix must (n : nat) (s : str) (c : caps) : option A :=
        match n with
        | O => may extra s c
        | S n' => run r1 s c (fun s' c' => must n' s' c')
        end in
      must least s c
  | Group n r1 =>
      run r1 s c
        (fun s' c' => k s' ((n, firstn (List.length s - List.length s') s) :: c'))
  end.
End Run.
Arguments many {A} p least s k.
Arguments run {A} r s c k.

(** A match of [r] at the start of [s]: the groups and the unread rest. *)
Definition match_here (r : regex) (s : str) : option (caps * str) :=
  run r s [] (fun s' c => Some (c, s')).

(** [re.search(r, s)]: the first position with a match. *)
Fixpoint search (r : regex) (s : str) : option caps :=
  match match_here r s with
  | Some (c, _) => Some c
  | None => match s with
            | [] => None
            | _ :: s' => search r s'
            end
  end.

(** [re.findall(r, s)] for a pattern with one group that never matches
    the empty text: the group of each match, the scan resuming where the
    previous match ended ([skip] characters of it are still to be passed). *)
Fixpoint findall_skip (r : regex) (skip : nat) (s : str) : list str :=
  match s with
  | [] => []
  | _ :: s' =>
      match skip with
      | S n => findall_skip r n s'
      | O =>
          match match_here r s with
          | Some (c, rest) =>
              match group c 1 with
              | Some g =>
                  g :: findall_skip r (List.length s - List.length rest - 1) s'
              | None => findall_skip r O s'
              end
          | None => findall_skip r O s'
          end
      end
  end.

Definition findall (r : regex) (s : str) : list str := findall_skip r 0 s.
End Matcher.

(** How an f-string shows [match.group(n)]. *)
Definition shown (g : option str) : str :=
  match g with
  | Some s => s
  | None => lit "None"
  end.

Definition seq (rs : list regex) : regex := fold_right Seq Eps rs.

(** A literal text. *)
Definition text (s : str) : regex := seq (map (fun c => One false [Chr c]) s).

Fixpoint any_of (ws : list str) : regex :=
  match ws with
  | [] => One false []
  | [w] => text w
  | w :: ws' => Alt (text w) (any_of ws')
  end.

Definition Opt (r : regex) : regex := Times 0 1 r.

Definition ARROW : str := [8594%N].

Definition spaces1 : regex := Many 1 false [Space].   (* \s+ *)
Definition spaces0 : regex := Many 0 false [Space].   (* \s* *)
Definition word1 : regex := Many 1 false [Word].      (* \w+ *)
Definition nonword1 : regex := Many 1 true [Word].    (* [^\w]+ *)
Definition nonword0 : regex := Many 0 true [Word].    (* [^\w]* *)

Definition RGB : regex := One false [Chr 82%N; Chr 71%N; Chr 66%N].  (* [RGB] *)
Definition FILE : regex := One false [Range 65%N 67%N].              (* [A-C] *)
Definition RANK : regex := One false [Range 49%N 52%N].              (* [1-4] *)

(** [([RGB][A-C][1-4])] as group [n] *)
Definition COORD (n : nat) : regex := Group n (seq [RGB; FILE; RANK]).
(** [([RGB])] and [([A-C][1-4])] *)
Definition COLOR (n : nat) : regex := Group n RGB.
Definition SQUARE (n : nat) : regex := Group n (seq [FILE; RANK]).

(** [<<MOVE>>([^<]+)<<END_MOVE>>] *)
Definition SENTINEL : regex :=
  seq [text (lit "<<MOVE>>"); Group 1 (Many 1 true [Chr 60%N]);
       text (lit "<<END_MOVE>>")].

(* ================================================================== *)
(** ** The provider's reply *)

(** A decoded JSON value as the cascade uses it: a string, or any other
    value together with whether it is a list or a dict (the values [len]
    applies to; a number, [None], [True] and [False] have no length) and the
    text an f-string renders it as. *)
Inductive json :=
| JStr (s : str)
| JOther (sized : bool) (rendering : str).

Definition rendered (v : json) : str :=
  match v with
  | JStr s => s
  | JOther _ t => t
  end.

(** [v == s] for a string literal [s] *)
Definition json_is (v : json) (s : str) : bool :=
  match v with
  | JStr t => str_eqb t s
  | JOther _ _ => false
  end.

(** Does [len(v)] return (rather than raise [TypeError])? *)
Definition has_len (v : json) : bool :=
  match v with
  | JStr _ => true
  | JOther sized _ => sized
  end.

(** [tool_call.function.arguments], by what [json.loads] makes of it. *)
Inductive tool_arguments :=
| Malformed                               (* not JSON: [json.loads] raises *)
| NotAnObject                             (* JSON, but not a dict *)
| Object (members : list (str * json)).   (* a dict *)

Record tool_call := {
  function_name : str;
  arguments : tool_arguments
}.

Definition json_loads (a : tool_arguments) : result tool_arguments :=
  match a with
  | Malformed => Raise JSONDecodeError
  | _ => Ret a
  end.

Fixpoint lookup (members : list (str * json)) (key : str) : option json :=
  match members with
  | [] => None
  | (k, v) :: rest => if str_eqb k key then Some v else lookup rest key
  end.

(** [arguments.get(key, default)] *)
Definition dict_get (a : tool_arguments) (key : str) (default : json) : result json :=
  match a with
  | Object members =>
      Ret match lookup members key with
          | Some v => v
          | None => default
          end
  | _ => Raise AttributeError
  end.

(** The token counts read off [response.usage] (lines 585-594).  The
    variable [reasoning_tokens] is 0 when the reply has no
    [completion_tokens_details], and else the attribute of that name, which
    is an integer or [None]. *)
Record usage := {
  prompt_tokens : Z;
  completion_tokens : Z;
  reasoning_tokens : option Z;
  total_tokens : Z
}.

(** [response.choices[0].message] with the usage figures and the time the
    call took. *)
Record reply := {
  reply_usage : usage;
  tool_calls : option (list tool_call);
  content : option str;
  elapsed_time : Q
}.

(** Lines 393-594 of [get_llm_move] (reading the clocks of the board state,
    building the prompt, awaiting the provider, reading the usage) either
    raise inside the [try] or hand a reply to the cascade. *)
Inductive request_phase :=
| Failed (e : exn)
| Replied (r : reply).

(* ================================================================== *)
(** ** The extraction cascade *)

Fixpoint first_some {A B : Type} (f : A -> option B) (l : list A) : option B :=
  match l with
  | [] => None
  | a :: l' => match f a with
               | Some b => Some b
               | None => first_some f l'
               end
  end.

(** [final_move is None or final_move == ""], which for [None] or a [str] is
    also [not final_move]. *)
Definition no_move_yet (final_move : option str) : bool :=
  match final_move with
  | None | Some [] => true
  | Some (_ :: _) => false
  end.

Definition SPACE : str := lit " ".

(** [f"{matches.group(1)} {matches.group(2)}"] *)
Definition pair_of (c : caps) : str :=
  shown (group c 1) ++ SPACE ++ shown (group c 2).

(** [f"{matches.group(1)}{matches.group(2)} {matches.group(3)}{matches.group(4)}"] *)
Definition quad_of (c : caps) : str :=
  shown (group c 1) ++ shown (group c 2) ++ SPACE
  ++ shown (group c 3) ++ shown (group c 4).

Definition TO : regex := text (lit "to").

(** The four patterns tried on the content (lines 677-682). *)
Definition content_patterns : list regex :=
  [ seq [COORD 1; spaces1; TO; spaces1; COORD 2];
    seq [COORD 1; spaces0; text (lit "-"); spaces0; COORD 2];
    seq [COORD 1; spaces0; text ARROW; spaces0; COORD 2];
    seq [COORD 1; spaces1; COORD 2] ].

(** The ten patterns tried on the reasoning (lines 703-714). *)
Definition reasoning_patterns : list regex :=
  content_patterns ++
  [ seq [text (lit "moving"); spaces1; word1; spaces1; text (lit "from"); spaces1;
         COORD 1; spaces1; TO; spaces1; COORD 2];
    seq [text (lit "move"); spaces1; word1; spaces1; text (lit "from"); spaces1;
         COORD 1; spaces1; TO; spaces1; COORD 2];
    seq [COORD 1; nonword1; COORD 2];
    seq [text (lit "from"); spaces1; COORD 1; spaces1; TO; spaces1; COORD 2];
    seq [text (lit "play"); spaces1; COORD 1; spaces1; TO; spaces1; COORD 2];
    seq [COLOR 1; Many 1 true [Range 65 67; Digit]; SQUARE 2; spaces1; TO; spaces1;
         COLOR 3; Many 1 true [Range 65 67; Digit]; SQUARE 4] ].

Definition on_at_from : regex := any_of [lit "on"; lit "at"; lit "from"].
Definition to_moves_arrow : regex := any_of [lit "to"; lit "moves to"; ARROW].
Definition to_towards : regex := any_of [lit "to"; lit "towards"].

(** [piece\s+(?:on|at|from)?\s+(coord)\s+(?:to|moves to|→)\s+(coord)] *)
Definition piece_pattern (piece : regex) : regex :=
  seq [piece; spaces1; Opt on_at_from; spaces1; COORD 1; spaces1;
       to_moves_arrow; spaces1; COORD 2].

(** The six patterns with piece names (lines 731-738). *)
Definition piece_patterns : list regex :=
  [ piece_pattern (text (lit "knight"));
    piece_pattern (text (lit "pawn"));
    piece_pattern (any_of [lit "king"; lit "queen"; lit "rook"; lit "bishop"]);
    seq [text (lit "move"); spaces1; Opt (any_of [lit "the"; lit "my"]); spaces1;
         word1; spaces1; Opt (text (lit "from")); spaces1; COORD 1; spaces1;
         Opt to_towards; spaces1; COORD 2];
    seq [COORD 1; Times 1 4 (seq [spaces1; word1]); spaces1; COORD 2];
    seq [on_at_from; spaces1; COORD 1; Times 1 2 (seq [spaces1; word1]); spaces1;
         to_towards; spaces1; COORD 2] ].

(** [([RGB])\s*[^\w]*\s*([A-C][1-4])] with groups [n] and [n+1] *)
Definition split_coord (n : nat) : regex :=
  seq [COLOR n; spaces0; nonword0; spaces0; SQUARE (S n)].

(** The two patterns for a colour named apart from its square
    (lines 749-752). *)
Definition color_position_patterns : list regex :=
  [ seq [split_coord 1; spaces1; to_moves_arrow; spaces1; split_coord 3];
    seq [text (lit "from"); spaces1; split_coord 1; spaces1; TO; spaces1;
         split_coord 3] ].

Definition reasoning_markers : list str :=
  [lit "reasoning:"; lit "analysis:"; lit "thinking:"; lit "i think:"].
(** The move markers that end the reasoning (line 641) and those that
    announce the move (line 657). *)
Definition reasoning_end_markers : list str :=
  [lit "my move:"; lit "move:"; lit "i choose:"; lit "final move:"].
Definition move_markers : list str :=
  [lit "move:"; lit "my move:"; lit "i choose:"; lit "final move:"; lit "i play:"].

Definition NEWLINE : str := [10%N].

(** The first pair of neighbours in [findall]'s list with the same first
    character (lines 770-777). *)
Fixpoint proximity_pair (all_coordinates : list str) : option str :=
  match all_coordinates with
  | a :: ((b :: _) as rest) =>
      if str_eqb (firstn 1 a) (firstn 1 b)
      then Some (a ++ SPACE ++ b)
      else proximity_pair rest
  | _ => None
  end.

(** The fixed opening move: the [if]/[elif]/[else] on [current_color] that
    lines 783-788, 809-814, 856-861, 885-890 and 902-907 each spell out. *)
Definition fixed_fallback (current_color : pyval) : str :=
  match current_color with
  | PyStr c =>
      if str_eqb c (lit "BLUE") then lit "BA2 BA3"
      else if str_eqb c (lit "RED") then lit "RA2 RA3"
      else lit "GA2 GA3"
  | _ => lit "GA2 GA3"
  end.

Definition DEFAULT_REASONING : str := lit "No explicit reasoning provided".

(** [f"<<MOVE>>{move}<<END_MOVE>>"] *)
Definition wrap (move : json) : str :=
  lit "<<MOVE>>" ++ rendered move ++ lit "<<END_MOVE>>".

(** Lines 798-803: a six-character move without a space gets one after its
    third character. *)
Definition repair_spacing (final_move : str) : str :=
  match final_move with
  | [] => final_move
  | _ =>
      if negb (contains final_move SPACE)
      then if Nat.eqb (List.length final_move) 6
           then firstn 3 final_move ++ SPACE ++ skipn 3 final_move
           else final_move
      else final_move
  end.

Section Cascade.
Variable U : unicode_db.

(** One round of the loop over [tool_calls] (lines 601-616). *)
Definition tool_call_step (state : json * option str) (tool_call : tool_call)
  : result (json * option str) :=
  let '(reasoning_text, final_move) := state in
  args <- json_loads (arguments tool_call) ;;
  reasoning_text <-
    (if str_eqb (function_name tool_call) (lit "think")
     then dict_get args (lit "analysis") (JStr (lit "No reasoning provided"))
     else Ret reasoning_text) ;;
  final_move <-
    (if str_eqb (function_name tool_call) (lit "decide_move")
     then move <- dict_get args (lit "move") (JStr []) ;;
          Ret (Some (wrap move))
     else Ret final_move) ;;
  Ret (reasoning_text, final_move).

Fixpoint tool_call_loop (state : json * option str) (calls : list tool_call)
  : result (json * option str) :=
  match calls with
  | [] => Ret state
  | tool_call :: rest =>
      state' <- tool_call_step state tool_call ;;
      tool_call_loop state' rest
  end.

(** [re.search(r'<<MOVE>>([^<]+)<<END_MOVE>>', s)] followed by
    [group(1).strip()] *)
Definition sentinel_move (s : str) : option str :=
  match search U false SENTINEL s with
  | Some c => Some (strip (shown (group c 1)))
  | None => None
  end.

(** Lines 630-652: reasoning recovered from the content. *)
Definition reasoning_from_content (lower_content : str) : option str :=
  first_some
    (fun marker =>
       if contains lower_content marker
       then match split_once lower_content marker with
            | Some (_, after) =>
                Some (fold_left
                        (fun reasoning_part move_marker =>
                           if contains (lower U reasoning_part) move_marker
                           then strip (before_first reasoning_part move_marker)
                           else reasoning_part)
                        reasoning_end_markers (strip after))
            | None => None
            end
       else None)
    reasoning_markers.

(** Lines 657-672: a move announced by a marker phrase. *)
Definition move_after_marker (lower_content : str) : option str :=
  first_some
    (fun marker =>
       if contains lower_content marker
       then match split_once lower_content marker with
            | Some (_, after) =>
                let potential_move := strip (before_first (strip after) NEWLINE) in
                let potential_move :=
                  strip (remove_char 34 (remove_char 39 (remove_char 46 potential_move))) in
                if contains potential_move SPACE
                   && (5 <=? List.length potential_move)%nat
                then Some potential_move
                else None
            | None => None
            end
       else None)
    move_markers.

(** Lines 684-689: the first content pattern with a match. *)
Definition move_from_patterns (content : str) : option str :=
  first_some
    (fun pattern =>
       match search U false pattern content with
       | Some c => Some (pair_of c)
       | None => None
       end)
    content_patterns.

(** Lines 619-695: the stages run on a non-empty [message.content] when
    the tool calls gave no move. *)
Definition content_stage (reasoning_text : json) (raw_content : str)
  : json * option str :=
  let content := strip raw_content in
  match sentinel_move content with
  | Some m => (reasoning_text, Some m)
  | None =>
      let lower_content := lower U content in
      let reasoning_text :=
        if json_is reasoning_text DEFAULT_REASONING
        then match reasoning_from_content lower_content with
             | Some r => JStr r
             | None => reasoning_text
             end
        else reasoning_text in
      let final_move := move_after_marker lower_content in
      let final_move :=
        if no_move_yet final_move then move_from_patterns content else final_move in
      let final_move :=
        if no_move_yet final_move then Some content else final_move in
      (reasoning_text, final_move)
  end.

(** Lines 716-726. *)
Definition move_from_reasoning (reasoning_text : str) : option str :=
  first_some
    (fun pattern =>
       match search U true pattern reasoning_text with
       | Some c =>
           if Nat.eqb (ngroups pattern) 2 then Some (pair_of c)
           else if Nat.eqb (ngroups pattern) 4 then Some (quad_of c)
           else None
       | None => None
       end)
    reasoning_patterns.

(** Lines 740-745 and 754-762. *)
Definition move_from_list (show : caps -> str) (patterns : list regex)
  (reasoning_text : str) : option str :=
  first_some
    (fun pattern =>
       match search U true pattern reasoning_text with
       | Some c => Some (show c)
       | None => None
       end)
    patterns.

(** Lines 767-777. *)
Definition move_from_proximity (reasoning_text : str) : option str :=
  let all_coordinates := findall U false (COORD 1) reasoning_text in
  if (2 <=? List.length all_coordinates)%nat
  then proximity_pair all_coordinates
  else None.

(** Lines 698-789: entered when no move has been found; [re.search] on a
    reasoning that is not a string raises. *)
Definition reasoning_stage (current_color : pyval) (reasoning_text : json)
  : result str :=
  match reasoning_text with
  | JOther _ _ => Raise TypeError
  | JStr reasoning_text =>
      let final_move := move_from_reasoning reasoning_text in
      let final_move :=
        if no_move_yet final_move
        then
          let final_move := move_from_list pair_of piece_patterns reasoning_text in
          if no_move_yet final_move
          then move_from_list quad_of color_position_patterns reasoning_text
          else final_move
        else final_move in
      let final_move :=
        if no_move_yet final_move
        then move_from_proximity reasoning_text
        else final_move in
      match final_move with
      | None | Some [] => Ret (fixed_fallback current_color)
      | Some m => Ret m
      end
  end.

(** Lines 792-796. *)
Definition unwrap (final_move : str) : str :=
  if contains final_move (lit "<<MOVE>>") && contains final_move (lit "<<END_MOVE>>")
  then match sentinel_move final_move with
       | Some m => m
       | None => final_move
       end
  else final_move.

(** Lines 806-814: the parser, and the fixed move when it fails. *)
Definition validated_or_fallback (current_color : pyval) (final_move : str) : str :=
  match validate_and_process_move (PyStr final_move) None with
  | Some ((_ :: _) as m) => m
  | _ => fixed_fallback current_color
  end.

(** Lines 596-695: the candidate of the tool and content stages. *)
Definition extract (r : reply) : result (json * option str) :=
  state <- match tool_calls r with
           | Some ((_ :: _) as calls) => tool_call_loop (JStr DEFAULT_REASONING, None) calls
           | _ => Ret (JStr DEFAULT_REASONING, None)
           end ;;
  let '(reasoning_text, final_move) := state in
  match final_move, content r with
  | (None | Some []), Some ((_ :: _) as raw_content) =>
      Ret (content_stage reasoning_text raw_content)
  | _, _ => Ret state
  end.

(** Lines 596-803: the text handed to the parser, with the reasoning kept
    for the memory log. *)
Definition candidate (current_color : pyval) (r : reply) : result (str * json) :=
  state <- extract r ;;
  let '(reasoning_text, final_move) := state in
  final_move <- match final_move with
                | None | Some [] => reasoning_stage current_color reasoning_text
                | Some m => Ret m
                end ;;
  let final_move := unwrap final_move in
  let final_move := repair_spacing final_move in
  Ret (final_move, reasoning_text).

(** Lines 596-814: from the reply to the validated move. *)
Definition cascade (current_color : pyval) (r : reply) : result (str * json) :=
  found <- candidate current_color r ;;
  Ret (validated_or_fallback current_color (fst found), snd found).
End Cascade.

(* ================================================================== *)
(** ** Agent memory, [get_llm_move] and the HTTP handlers *)

(** The dictionaries appended to [AGENT_MEMORY]; times and ratios are kept
    as exact rationals. *)
Record move_data := {
  move_timestamp : str;
  color : pyval;
  move : str;
  reasoning : json;
  thinking_time : Q;
  valid : bool
}.

(** The [token_usage] dictionary of a request that got as far as line 835:
    its [reasoning_tokens] has been compared with 0 and is an integer. *)
Record token_record := {
  token_timestamp : str;
  logged_prompt_tokens : Z;
  logged_completion_tokens : Z;
  logged_reasoning_tokens : Z;
  logged_total_tokens : Z
}.

Record thinking_stat := {
  stat_timestamp : str;
  stat_elapsed_time : Q;
  thinking_ratio : option Q
}.

(** [AGENT_MEMORY]; its keys [game_state_history] and [debug_info] are
    never written and stay empty. *)
Record agent_memory := {
  moves : list move_data;
  token_usage : list token_record;
  thinking_stats : list thinking_stat;
  start_time : option str
}.

Definition AGENT_MEMORY : agent_memory :=
  {| moves := []; token_usage := []; thinking_stats := []; start_time := None |}.

(** What the client of [POST /get-move] receives: the JSON body with the
    move and the reasoning, or status 500 when the handler raised. *)
Inductive handler_response :=
| Body (move : str) (reasoning : json)
| InternalServerError.

(** The two readings of [datetime.now().isoformat()] in [get_llm_move]. *)
Record clock := {
  start_reading : str;
  timestamp : str
}.

(** [n / d] of two integers with [d >= 1] raises [OverflowError] when the
    quotient does not fit a float: from [2^1024 - 2^970] on, which rounds to
    [2^1024]. *)
Definition quotient_overflows (n d : Z) : bool :=
  ((2 ^ 1024 - 2 ^ 970) * d <=? n)%Z.

(** Lines 830-833: the integer in [reasoning_tokens] and the entry
    [thinking_ratio] of the timing record, if there is one.  [None > 0]
    raises [TypeError]; [OverflowError] is one of the exceptions that are not
    told apart. *)
Definition thinking_ratio_of (u : usage) : result (Z * option Q) :=
  match reasoning_tokens u with
  | None => Raise TypeError
  | Some n =>
      if (0 <? n)%Z
      then
        let d := Z.max 1 (completion_tokens u) in
        if quotient_overflows n d then Raise OtherError
        else Ret (n, Some (inject_Z n / inject_Z d)%Q)
      else Ret (n, None)
  end.

Section Service.
Variable U : unicode_db.

(** Lines 835-847: the three records appended to the memory. *)
Definition log_request (now : clock) (current_color : pyval) (r : reply)
  (final_move : str) (reasoning_text : json) (counted : Z * option Q)
  (mem : agent_memory) : agent_memory :=
  let u := reply_usage r in
  {| moves :=
       moves mem ++
       [ {| move_timestamp := timestamp now;
            color := current_color;
            move := final_move;
            reasoning := reasoning_text;
            thinking_time := elapsed_time r;
            valid := true |} ];
     token_usage :=
       token_usage mem ++
       [ {| token_timestamp := timestamp now;
            logged_prompt_tokens := prompt_tokens u;
            logged_completion_tokens := completion_tokens u;
            logged_reasoning_tokens := fst counted;
            logged_total_tokens := total_tokens u |} ];
     thinking_stats :=
       thinking_stats mem ++
       [ {| stat_timestamp := timestamp now;
            stat_elapsed_time := elapsed_time r;
            thinking_ratio := snd counted |} ];
     start_time := start_time mem |}.

(** Lines 817-847: what a request that got this far appends to the memory.
    Line 830 can raise, before anything is appended. *)
Definition remember (now : clock) (current_color : pyval) (r : reply)
  (final_move : str) (reasoning_text : json) (mem : agent_memory)
  : result agent_memory :=
  counted <- thinking_ratio_of (reply_usage r) ;;
  Ret (log_request now current_color r final_move reasoning_text counted mem).

(** Lines 386-387. *)
Definition mark_start (now : clock) (mem : agent_memory) : agent_memory :=
  match start_time mem with
  | None =>
      {| moves := moves mem; token_usage := token_usage mem;
         thinking_stats := thinking_stats mem;
         start_time := Some (start_reading now) |}
  | Some _ => mem
  end.

(** [get_llm_move]: the move returned and the memory afterwards. *)
Definition get_llm_move (now : clock) (phase : request_phase)
  (current_color : pyval) (mem : agent_memory) : str * agent_memory :=
  let mem := mark_start now mem in
  let attempt :=
    match phase with
    | Failed e => Raise e
    | Replied r =>
        out <- cascade U current_color r ;;
        mem <- remember now current_color r (fst out) (snd out) mem ;;
        Ret (fst out, mem)
    end in
  match attempt with
  | Ret done => done
  | Raise _ => (fixed_fallback current_color, mem)
  end.

(** Lines 881-908 of the handler, for whatever [get_llm_move] returned. *)
Definition checked_move (current_color : pyval) (returned : option str) : str :=
  let move :=
    match returned with
    | None | Some [] => fixed_fallback current_color
    | Some m => m
    end in
  let move :=
    match sentinel_move U move with
    | Some m => m
    | None => move
    end in
  match validate_and_process_move (PyStr move) None with
  | Some ((_ :: _) as validated_move) => move
  | _ => fixed_fallback current_color
  end.

(** [POST /get-move]: what the client receives and the memory afterwards.
    Line 916 takes [len(reasoning)] outside any [try]: when the reasoning of
    the last logged move has no length the handler raises and the client
    gets status 500. *)
Definition get_move (now : clock) (phase : request_phase)
  (current_color : pyval) (mem : agent_memory) : handler_response * agent_memory :=
  let '(returned, mem) := get_llm_move now phase current_color mem in
  let move := checked_move current_color (Some returned) in
  let reasoning :=
    match rev (moves mem) with
    | last :: _ => reasoning last
    | [] => JStr (lit "No reasoning available")
    end in
  (if has_len reasoning then Body move reasoning else InternalServerError, mem).
End Service.

(** The [move_validity] entry of the statistics. *)
Record move_validity := {
  valid_moves : Z;
  invalid_moves : Z;
  validity_percentage : Q
}.

Definition Zlen {A : Type} (l : list A) : Z := Z.of_nat (List.length l).

Definition Zsum (l : list Z) : Z := fold_right Z.add 0%Z l.
Definition Qsum (l : list Q) : Q := fold_right Qplus 0%Q l.

(** Lines 952-957.  Python computes the percentage in floating point; the
    quotient of an integer by itself is exactly 1.0 and 1.0 * 100 is exactly
    100.0, so on a log of valid moves the float is the rational given here. *)
Definition validity_stats (mem : agent_memory) : move_validity :=
  let valid_moves := Zlen (filter valid (moves mem)) in
  {| valid_moves := valid_moves;
     invalid_moves := (Zlen (moves mem) - valid_moves)%Z;
     validity_percentage :=
       (inject_Z valid_moves / inject_Z (Z.max 1 (Zlen (moves mem))) * 100)%Q |}.

(** The [stats] of [GET /agent-memory], [current_time] apart. *)
Record memory_stats := {
  total_moves : Z;
  stats_start_time : option str;
  total_prompt : Z;
  total_completion : Z;
  total_reasoning : Z;
  total_total : Z;
  average_thinking_time : Q;
  average_thinking_ratio : Q;
  validity : move_validity
}.

Fixpoint ratios (l : list thinking_stat) : list Q :=
  match l with
  | [] => []
  | s :: l' => match thinking_ratio s with
               | Some q => q :: ratios l'
               | None => ratios l'
               end
  end.

(** [GET /agent-memory] reads the memory and leaves it as it is. *)
Definition agent_memory_stats (mem : agent_memory) : memory_stats :=
  let usages := token_usage mem in
  {| total_moves := Zlen (moves mem);
     stats_start_time := start_time mem;
     total_prompt := Zsum (map logged_prompt_tokens usages);
     total_completion := Zsum (map logged_completion_tokens usages);
     total_reasoning := Zsum (map logged_reasoning_tokens usages);
     total_total := Zsum (map logged_total_tokens usages);
     average_thinking_time :=
       (Qsum (map stat_elapsed_time (thinking_stats mem))
        / inject_Z (Z.max 1 (Zlen (thinking_stats mem))))%Q;
     average_thinking_ratio :=
       (Qsum (ratios (thinking_stats mem))
        / inject_Z (Z.max 1 (Zlen (ratios (thinking_stats mem)))))%Q;
     validity := validity_stats mem |}.

(** The requests the service answers, and the memory after a run of them
    from the start of the process. *)
Inductive request :=
| PostGetMove (now : clock) (phase : request_phase) (current_color : pyval)
| GetAgentMemory
| GetDebugInfo.

Definition serve (U : unicode_db) (mem : agent_memory) (q : request) : agent_memory :=
  match q with
  | PostGetMove now phase current_color => snd (get_move U now phase current_color mem)
  | GetAgentMemory | GetDebugInfo => mem
  end.

Definition memory_after (U : unicode_db) (requests : list request) : agent_memory :=
  fold_left (serve U) requests AGENT_MEMORY.

(* ================================================================== *)
(** ** The provider call ([one_function_to_call_them_all.py]) *)

Module Provider.

(** An exception is kept as the text [str(e)] gives. *)
Inductive outcome (A : Type) :=
| Returned (a : A)
| Raised (message : str).
Arguments Returned {A} a.
Arguments Raised {A} message.

Definition DEFAULT_MODELS : list (str * str) :=
  [ (lit "openai", lit "gpt-4o");
    (lit "anthropic", lit "claude-3-5-sonnet-latest");
    (lit "openrouter", lit "google/gemini-flash-1.5-8b");
    (lit "groq", lit "llama-3.3-70b-versatile") ].

Definition BASE_URLS : list (str * option str) :=
  [ (lit "openai", Some (lit "https://api.openai.com/v1"));
    (lit "anthropic", None);
    (lit "openrouter", Some (lit "https://openrouter.ai/api/v1"));
    (lit "groq", Some (lit "https://api.groq.com/openai/v1")) ].

Fixpoint item_of {V : Type} (d : list (str * V)) (key : str) : option V :=
  match d with
  | [] => None
  | (k, v) :: rest => if str_eqb k key then Some v else item_of rest key
  end.

(** [d[key] = v] *)
Fixpoint set_item {V : Type} (d : list (str * V)) (key : str) (v : V)
  : list (str * V) :=
  match d with
  | [] => [(key, v)]
  | (k, w) :: rest =>
      if str_eqb k key then (k, v) :: rest else (k, w) :: set_item rest key v
  end.

(** [d.update(other)] *)
Definition update {V : Type} (d other : list (str * V)) : list (str * V) :=
  fold_left (fun acc kv => set_item acc (fst kv) (snd kv)) other d.

(** The keywords the call to [messages.create] spells out (lines 75-81);
    a key of [additional_params] that is one of them is a keyword given
    twice, and the call expression raises before [create] is entered. *)
Definition ANTHROPIC_KEYWORDS : list str :=
  [lit "model"; lit "max_tokens"; lit "system"; lit "messages"].

(** [sep.join(parts)] *)
Fixpoint join (sep : str) (parts : list str) : str :=
  match parts with
  | [] => []
  | [p] => p
  | p :: rest => p ++ sep ++ join sep rest
  end.

Section Call.
Variable U : unicode_db.
(** the values a caller puts in [additional_params] *)
Variable value : Type.
(** [repr] of a string, as [str(KeyError(key))] shows the key *)
Variable repr : str -> str.
(** the text of the [TypeError] of a call to [messages.create] that is
    given the keyword [key] twice *)
Variable repeated_keyword : str -> str.
(** [os.environ] *)
Variable environ : str -> option str.

(** A chat message: a dictionary from strings to strings. *)
Definition message := list (str * str).

Inductive param :=
| PStr (s : str)
| PInt (n : Z)
| PMessages (ms : list message)
| PValue (v : value).

(** The two call expressions that reach a provider. *)
Inductive network_call :=
| AnthropicCreate (api_key model : str) (max_tokens : Z)
    (system : option str) (messages : list message)
    (extra : list (str * value))
| OpenAICreate (api_key : str) (base_url : option str)
    (params : list (str * param)).

(** What evaluating such a call and reading the text off its response
    ([response.content[0].text], [response.choices[0].message.content])
    gives: the text, or an exception (an instance of [Exception], as the
    errors of the provider clients are). *)
Variable provider_api : network_call -> outcome (option str).

(** [os.getenv(f"{provider.upper()}_API_KEY", "")] *)
Definition get_api_key (provider : str) : str :=
  match environ (upper U provider ++ lit "_API_KEY") with
  | Some v => v
  | None => []
  end.

(** [m[key]] *)
Definition field (m : message) (key : str) : outcome str :=
  match item_of m key with
  | Some v => Returned v
  | None => Raised (repr key)
  end.

(** [[f"{m['role']}: {m['content']}" for m in messages]] *)
Fixpoint render_messages (messages : list message) : outcome (list str) :=
  match messages with
  | [] => Returned []
  | m :: rest =>
      match field m (lit "role") with
      | Raised e => Raised e
      | Returned role =>
          match field m (lit "content") with
          | Raised e => Raised e
          | Returned content =>
              match render_messages rest with
              | Raised e => Raised e
              | Returned lines => Returned ((role ++ lit ": " ++ content) :: lines)
              end
          end
      end
  end.

Definition nonzero (n : option Z) : option Z :=
  match n with
  | Some 0%Z | None => None
  | Some n => Some n
  end.

Definition nonempty (s : option str) : option str :=
  match s with
  | Some [] | None => None
  | Some s => Some s
  end.

(** The body of the [try] block: its outcome and the network calls it
    evaluated, in order. *)
Definition attempt (messages : list message) (provider : str)
  (model system_message : option str) (max_tokens : option Z)
  (additional_params : option (list (str * value)))
  : outcome (option str) * list network_call :=
  let api_key := get_api_key provider in
  if match api_key with [] => true | _ => false end
     || str_eqb (strip api_key) []
  then (Raised (lit "No API key found for " ++ provider), [])
  else
      let chosen :=
        match nonempty model with
        | Some m =>
            if str_eqb m (lit "gpt-4o") then item_of DEFAULT_MODELS provider
            else Some m
        | None => item_of DEFAULT_MODELS provider
        end in
      match chosen with
      | None => (Raised (repr provider), [])
      | Some model =>
          if str_eqb provider (lit "anthropic")
          then
            match render_messages messages with
            | Raised e => (Raised e, [])
            | Returned lines =>
                let messages_text := join (NEWLINE ++ NEWLINE) lines in
                let extra := match additional_params with Some d => d | None => [] end in
                match find (fun kv => str_in (fst kv) ANTHROPIC_KEYWORDS) extra with
                | Some (key, _) => (Raised (repeated_keyword key), [])
                | None =>
                    let call :=
                      AnthropicCreate api_key model
                        (match nonzero max_tokens with Some n => n | None => 8000%Z end)
                        system_message
                        [[(lit "role", lit "user"); (lit "content", messages_text)]]
                        extra in
                    (provider_api call, [call])
                end
            end
          else
            match item_of BASE_URLS provider with
            | None => (Raised (repr provider), [])
            | Some base_url =>
                let params :=
                  [ (lit "model", PStr model);
                    (lit "messages",
                     PMessages
                       match nonempty system_message with
                       | Some s =>
                           [(lit "role", lit "system"); (lit "content", s)] :: messages
                       | None => messages
                       end) ] in
                let params :=
                  match nonzero max_tokens with
                  | Some n => set_item params (lit "max_tokens") (PInt n)
                  | None => params
                  end in
                let params :=
                  match additional_params with
                  | Some ((_ :: _) as d) =>
                      update params (map (fun kv => (fst kv, PValue (snd kv))) d)
                  | _ => params
                  end in
                let call := OpenAICreate api_key base_url params in
                (provider_api call, [call])
            end
      end.

(** [one_function_to_call_them_all]: the [try] block and its handler,
    which raises [Exception(f"Error calling {provider} LLM: {str(e)}")]. *)
Definition one_function_to_call_them_all (messages : list message)
  (provider : str) (model system_message : option str) (max_tokens : option Z)
  (additional_params : option (list (str * value)))
  : outcome (option str) * list network_call :=
  match attempt messages provider model system_message max_tokens additional_params with
  | (Returned text, calls) => (Returned text, calls)
  | (Raised e, calls) =>
      (Raised (lit "Error calling " ++ provider ++ lit " LLM: " ++ e), calls)
  end.
End Call.
End Provider.

(* ================================================================== *)
(** ** The tagged-reply server ([llm_server.py]) *)

(** [s.split(sep)] for a one-character [sep]. *)
Fixpoint split_on (sep : char) (s : str) : list str :=
  match s with
  | [] => [[]]
  | c :: s' =>
      if char_eqb c sep then [] :: split_on sep s'
      else match split_on sep s' with
           | part :: parts => (c :: part) :: parts
           | [] => [[c]]
           end
  end.

(** [s.replace(old, "")]-like removal for a non-empty [old]: every
    occurrence met scanning from the left is dropped, the scan resuming
    after it ([skip] characters of it are still to be passed). *)
Fixpoint remove_skip (old : str) (skip : nat) (s : str) : str :=
  match s with
  | [] => []
  | c :: s' =>
      match skip with
      | S n => remove_skip old n s'
      | O =>
          if startswith s old
          then remove_skip old (Nat.pred (List.length old)) s'
          else c :: remove_skip old O s'
      end
  end.

Definition remove_all (old s : str) : str := remove_skip old 0 s.

(** [re.findall(r'\b([a-h][1-8])\b', s)]: a letter a-h and a digit 1-8 with
    no word character before or after them.  [before] tells whether the
    character before [s] is a word character.  The scan may go on at the
    digit of a match: a digit after a letter is never the start of one. *)
Fixpoint squares_from (U : unicode_db) (before : bool) (s : str) : list str :=
  match s with
  | [] => []
  | x :: s' =>
      let here :=
        match s' with
        | y :: s'' =>
            negb before && between 97 104 x && between 49 56 y
            && match s'' with
               | z :: _ => negb (is_word U z)
               | [] => true
               end
        | [] => false
        end in
      if here then firstn 2 s :: squares_from U (is_word U x) s'
      else squares_from U (is_word U x) s'
  end.

Definition squares (U : unicode_db) (s : str) : list str := squares_from U false s.

(** [not x] for [x] that is [None] or a [str]. *)
Definition unset (x : option str) : bool :=
  match x with
  | None | Some [] => true
  | Some (_ :: _) => false
  end.

Module LLMServer.

Record MoveRequest := {
  board_state : str;
  color : str;
  model_provider : str;
  model_name : option str
}.

Record MoveResponse := {
  start_position : str;
  end_position : str;
  reasoning : option str
}.

Definition DQUOTE : str := [34%N].

Definition SYSTEM_PROMPT : str :=
  Provider.join NEWLINE
    [ [];
      lit "You are playing three-player chess. The board has been modified to accommodate three players, with each player controlling pieces of a different color (blue, green, or red). ";
      lit "Your task is to analyze the current board state and select the best move for your color.";
      [];
      lit "Three-player chess rules:";
      lit "1. Pieces move the same way as in regular chess";
      lit "2. The first player to lose their king loses the game";
      lit "3. After a player loses, their remaining pieces are immobilized";
      lit "4. The goal is to capture an opponent's king";
      [];
      lit "Respond with:";
      lit "1. The start position (e.g. " ++ DQUOTE ++ lit "b1" ++ DQUOTE ++ lit ")";
      lit "2. The end position (e.g. " ++ DQUOTE ++ lit "c3" ++ DQUOTE ++ lit ")";
      lit "3. A brief explanation of your reasoning";
      [];
      lit "Format your response as:";
      lit "START: [start position]";
      lit "END: [end position]";
      lit "REASONING: [your reasoning]";
      [] ].

(** The content of the one user message (lines 55-61). *)
Definition user_prompt (request : MoveRequest) : str :=
  NEWLINE ++ lit "Board State:" ++ NEWLINE
  ++ board_state request ++ NEWLINE
  ++ NEWLINE
  ++ lit "You are playing as " ++ color request ++ lit ". What is your next move?"
  ++ NEWLINE
  ++ lit "Please analyze the board carefully and make a legal move." ++ NEWLINE.

(** The three variables [start_pos], [end_pos] and [reasoning] of the
    handler. *)
Definition found := (option str * option str * option str)%type.

(** One turn of the loop over the lines (lines 81-86). *)
Definition read_line (vars : found) (line : str) : found :=
  let '(start_pos, end_pos, reasoning) := vars in
  if startswith line (lit "START:")
  then (Some (strip (remove_all (lit "START:") line)), end_pos, reasoning)
  else if startswith line (lit "END:")
  then (start_pos, Some (strip (remove_all (lit "END:") line)), reasoning)
  else if startswith line (lit "REASONING:")
  then (start_pos, end_pos, Some (strip (remove_all (lit "REASONING:") line)))
  else vars.

Definition read_lines (response : str) : found :=
  fold_left read_line (split_on 10%N response) (None, None, None).

(** Lines 88-95: the positions found in the running text take the place of
    all three variables when a tag is missing. *)
Definition from_text (U : unicode_db) (response : str) (vars : found) : found :=
  let '(start_pos, end_pos, _) := vars in
  if unset start_pos || unset end_pos
  then match squares U response with
       | first :: second :: _ =>
           (Some first, Some second, Some (lit "Extracted from text"))
       | _ => vars
       end
  else vars.

(** Lines 76-104, on the text of the provider. *)
Definition parse_response (U : unicode_db) (response : str)
  : Provider.outcome MoveResponse :=
  let '(start_pos, end_pos, reasoning) :=
    from_text U response (read_lines response) in
  match start_pos, end_pos with
  | Some ((_ :: _) as start_pos), Some ((_ :: _) as end_pos) =>
      Provider.Returned
        {| start_position := start_pos;
           end_position := end_pos;
           reasoning :=
             Some (if unset reasoning then lit "No reasoning provided"
                   else match reasoning with Some r => r | None => [] end) |}
  | _, _ =>
      Provider.Raised (lit "Could not parse a valid move from LLM response")
  end.

(** What the client of [POST /get_move] receives. *)
Inductive http :=
| Ok (body : MoveResponse)                       (* status 200 *)
| HTTPException (status_code : Z) (detail : str).

Section Handler.
Variable U : unicode_db.
Variable value : Type.
Variable repr : str -> str.
Variable repeated_keyword : str -> str.
Variable environ : str -> option str.
Variable provider_api :
  Provider.network_call value -> Provider.outcome (option str).

(** The body of the [try] block: what it returns or the [str(e)] of what it
    raises, with the provider calls made. *)
Definition get_move_try (request : MoveRequest)
  : Provider.outcome MoveResponse * list (Provider.network_call value) :=
  let messages := [[(lit "role", lit "user"); (lit "content", user_prompt request)]] in
  let '(response, calls) :=
    Provider.one_function_to_call_them_all U value repr repeated_keyword environ provider_api
      messages (model_provider request) (model_name request)
      (Some SYSTEM_PROMPT) None None in
  (match response with
   | Provider.Raised e => Provider.Raised e
   | Provider.Returned None =>
       Provider.Raised (lit "'NoneType' object has no attribute 'split'")
   | Provider.Returned (Some response) => parse_response U response
   end, calls).

(** [get_move]: every exception of the body becomes a response of status
    500 whose detail is its text. *)
Definition get_move (request : MoveRequest)
  : http * list (Provider.network_call value) :=
  let '(tried, calls) := get_move_try request in
  (match tried with
   | Provider.Returned body => Ok body
   | Provider.Raised e => HTTPException 500 e
   end, calls).
End Handler.
End LLMServer.

(* ================================================================== *)
(** ** The simulated game ([simulate_game.py]) *)

Module Simulation.

Definition DOT : str := [183%N].

(** A rank with no piece on it: the digit and eight dots, two spaces after
    each. *)
Definition empty_rank (digit : str) : str :=
  digit ++ SPACE ++ concat (repeat (DOT ++ lit "  ") 8).

Definition INITIAL_BOARD : str :=
  Provider.join NEWLINE
    [ [];
      lit "Current turn: BLUE";
      [];
      lit "8 RR BR GR GN RB BB GB RN ";
      lit "7 RP BP GP GQ RQ BQ GK RK ";
      empty_rank (lit "6");
      empty_rank (lit "5");
      empty_rank (lit "4");
      empty_rank (lit "3");
      lit "2 BP RP GP GN RN BN GB RB ";
      lit "1 BR BP GR GQ RQ BQ GK RK ";
      lit "  a  b  c  d  e  f  g  h ";
      [] ].

(** provider and model of each player *)
Definition PLAYERS : list (str * (str * str)) :=
  [ (lit "BLUE", (lit "openai", lit "gpt-4o"));
    (lit "GREEN", (lit "anthropic", lit "claude-3-5-sonnet-latest"));
    (lit "RED", (lit "openrouter", lit "google/gemini-flash-1.5-8b")) ].

Inductive raised :=
| IndexError
| KeyError (key : str).

Inductive run (A : Type) :=
| Done (a : A)
| Crashed (e : raised).
Arguments Done {A} a.
Arguments Crashed {A} e.

Definition and_then {A B : Type} (m : run A) (f : A -> run B) : run B :=
  match m with
  | Done a => f a
  | Crashed e => Crashed e
  end.

Record SimpleBoard := {
  board_str : str;
  turn : str;
  move_count : nat
}.

Definition has_turn (line : str) : bool := contains line (lit "Current turn:").

(** [line.split(":")[1].strip()] *)
Definition turn_of_line (line : str) : run str :=
  match split_once line (lit ":") with
  | Some (_, rest) => Done (strip (before_first rest (lit ":")))
  | None => Crashed IndexError
  end.

Definition _extract_turn (board_str : str) : run str :=
  match find has_turn (split_on 10%N board_str) with
  | Some line => turn_of_line line
  | None => Done (lit "BLUE")
  end.

(** [SimpleBoard(board_str)] *)
Definition new_board (board_str : str) : run SimpleBoard :=
  and_then (_extract_turn board_str) (fun turn =>
  Done {| board_str := board_str; turn := turn; move_count := 0 |}).

(** BLUE -> GREEN -> RED -> BLUE, anything else -> BLUE (lines 49-54, and
    line 128 on the colour of the turn that was skipped). *)
Definition next_turn (turn : str) : str :=
  if str_eqb turn (lit "BLUE") then lit "GREEN"
  else if str_eqb turn (lit "GREEN") then lit "RED"
  else lit "BLUE".

(** Lines 57-61: the first line with the tag is replaced. *)
Fixpoint set_turn_line (turn : str) (lines : list str) : list str :=
  match lines with
  | [] => []
  | line :: rest =>
      if has_turn line then (lit "Current turn: " ++ turn) :: rest
      else line :: set_turn_line turn rest
  end.

Definition make_move (self : SimpleBoard) (start_pos end_pos : pyval) : SimpleBoard :=
  let turn := next_turn (turn self) in
  {| board_str :=
       Provider.join NEWLINE (set_turn_line turn (split_on 10%N (board_str self)));
     turn := turn;
     move_count := S (move_count self) |}.

(** What [get_move_from_llm] reads off the answer to its POST: the two
    positions of a response of status 200, or nothing (any other status, a
    body without the fields, an exception of the request). *)
Inductive answer :=
| Status200 (start_position end_position : pyval)
| NoAnswer.

Section Game.
Variable U : unicode_db.
(** the answer to the [k]-th request of the run *)
Variable post : nat -> LLMServer.MoveRequest -> answer.

(** [get_move_from_llm]: the positions, and the request data sent.
    [PLAYERS[color]] is read before the [try]. *)
Definition get_move_from_llm (k : nat) (board : SimpleBoard) (color : str)
  : run (pyval * pyval * LLMServer.MoveRequest) :=
  match Provider.item_of PLAYERS color with
  | None => Crashed (KeyError color)
  | Some (provider, model) =>
      let data :=
        {| LLMServer.board_state := board_str board;
           LLMServer.color := lower U color;
           LLMServer.model_provider := provider;
           LLMServer.model_name := Some model |} in
      match post k data with
      | Status200 start_pos end_pos => Done (start_pos, end_pos, data)
      | NoAnswer => Done (PyNone, PyNone, data)
      end
  end.

(** One turn of the inner loop (lines 118-128). *)
Definition play_turn (k : nat) (board : SimpleBoard)
  : run (SimpleBoard * LLMServer.MoveRequest) :=
  let color := turn board in
  and_then (get_move_from_llm k board color) (fun '(start_pos, end_pos, data) =>
  if truthy start_pos && truthy end_pos
  then Done (make_move board start_pos end_pos, data)
  else Done ({| board_str := board_str board;
                turn := next_turn color;
                move_count := move_count board |}, data)).

(** [n] turns from the [k]-th request on: the board at the end and the
    requests sent, in order. *)
Fixpoint play (n k : nat) (board : SimpleBoard)
  : run (SimpleBoard * list LLMServer.MoveRequest) :=
  match n with
  | O => Done (board, [])
  | S n' =>
      and_then (play_turn k board) (fun '(board', data) =>
      and_then (play n' (S k) board') (fun '(final, sent) =>
      Done (final, data :: sent)))
  end.

(** [simulate_game(num_rounds)]: three turns a round. *)
Definition simulate_game (num_rounds : Z)
  : run (SimpleBoard * list LLMServer.MoveRequest) :=
  and_then (new_board INITIAL_BOARD) (play (3 * Z.to_nat num_rounds) 0).
End Game.

(** The server of [llm_server.py] behind the POST. *)
Definition over_http (response : LLMServer.http) : answer :=
  match response with
  | LLMServer.Ok body =>
      Status200 (PyStr (LLMServer.start_position body))
                (PyStr (LLMServer.end_position body))
  | LLMServer.HTTPException _ _ => NoAnswer
  end.
End Simulation.

(* ================================================================== *)
(** ** Reading the clocks ([get_llm_move], lines 393-409) *)

(** [n / 1000.0] raises [OverflowError] when [n] does not fit a float:
    from [2^1024 - 2^970] on, which rounds to [2^1024]. *)
Definition float_overflows (n : Z) : bool := (2 ^ 1024 - 2 ^ 970 <=? Z.abs n)%Z.

(** [time_remaining], and the clock of the player to move in
    milliseconds ([time_info["current_player_time"]] is that number divided
    by 1000.0). *)
Record clocks := {
  time_remaining : list (str * Z);
  current_player_time : option Z
}.

Section Clocks.
(** [int(s)] of a text without white space: the integer, or [None] when it
    raises [ValueError]. *)
Variable py_int : str -> option Z.

(** One turn of the loop over the lines.  [OverflowError] is one of the
    exceptions that are not told apart. *)
Definition read_clock_line (current_color : pyval) (seen : clocks) (line : str)
  : result clocks :=
  if contains line (lit "time:")
  then
    match split_once line (lit "time:") with
    | Some (before, rest) =>
        let color := strip before in
        match split (before_first rest (lit "time:")) with
        | [] => Raise IndexError
        | token :: _ =>
            let time_ms := strip token in
            match py_int time_ms with
            | Some n =>
                let seen :=
                  {| time_remaining := Provider.set_item (time_remaining seen) color n;
                     current_player_time := current_player_time seen |} in
                if match current_color with
                   | PyStr c => str_eqb color c
                   | _ => false
                   end
                then
                  if float_overflows n then Raise OtherError
                  else Ret {| time_remaining := time_remaining seen;
                              current_player_time := Some n |}
                else Ret seen
            | None => Ret seen
            end
        end
    | None => Ret seen
    end
  else Ret seen.

Fixpoint read_clock_lines (current_color : pyval) (seen : clocks) (lines : list str)
  : result clocks :=
  match lines with
  | [] => Ret seen
  | line :: rest =>
      seen <- read_clock_line current_color seen line ;;
      read_clock_lines current_color seen rest
  end.

(** Lines 393-409 on the [boardState] of the request. *)
Definition read_clocks (board_state current_color : pyval) : result clocks :=
  match board_state with
  | PyStr s =>
      read_clock_lines current_color
        {| time_remaining := []; current_player_time := None |}
        (split_on 10%N s)
  | _ => Raise AttributeError
  end.

(** Lines 393-594 from the board state: the clocks are read first, inside
    the [try]; [later] is what lines 411-594 do once they are read (the
    prompt, the call to the provider, the usage). *)
Definition phase_of_request (board_state current_color : pyval)
  (later : clocks -> request_phase) : request_phase :=
  match read_clocks board_state current_color with
  | Ret seen => later seen
  | Raise e => Failed e
  end.
End Clocks.

(* ================================================================== *)
(** ** Vocabulary of the statements *)

(** Whitespace-only and whitespace-free texts. *)
Definition blank (s : str) : Prop := Forall (fun c => isspace c = true) s.
Definition solid (s : str) : Prop := Forall (fun c => isspace c = false) s.

Definition starts_with (p : char -> bool) (s : str) : Prop :=
  exists c r, s = c :: r /\ p c = true.

(** The coordinate grammar [{R,B,G}{A,B,C}{1,2,3,4}]. *)
Definition position (s : str) : Prop :=
  exists c f r, s = [c; f; r]
                /\ In c (lit "RBG") /\ In f (lit "ABC") /\ In r (lit "1234").

(** A move: two positions with exactly one space between them. *)
Definition well_formed_move (m : str) : Prop :=
  exists f t, position f /\ position t /\ m = f ++ SPACE ++ t.

(** The 36 positions and the 1296 moves. *)
Definition all_positions : list str :=
  flat_map (fun c => flat_map (fun f => map (fun r => [c; f; r]) (lit "1234"))
                              (lit "ABC"))
           (lit "RBG").

Definition all_moves : list str :=
  flat_map (fun f => map (fun t => f ++ SPACE ++ t) all_positions) all_positions.

(** The first whitespace-separated token of a text. *)
Definition from_token (m : str) : option str := hd_error (split m).

(** Do two moves have the same first token? *)
Definition shares_from (m l : str) : bool :=
  match from_token m, from_token l with
  | Some a, Some b => str_eqb a b
  | _, _ => false
  end.

(** The first legal move with the from token of [m], or else the first
    legal move. *)
Definition first_sharing_from (m : str) (legal : list str) : option str :=
  match filter (shares_from m) legal with
  | l :: _ => Some l
  | [] => hd_error legal
  end.

(** Does the cascade answer [m], with the default reasoning? *)
Definition answers (out : result (str * json)) (m : str) : bool :=
  match out with
  | Ret (m', JStr d) => str_eqb m' m && str_eqb d DEFAULT_REASONING
  | _ => false
  end.

(** A tool invocation the loop gets past: its arguments are JSON, and a
    JSON object when it is one of the two invocations whose arguments are
    read. *)
Definition decodes (tc : tool_call) : Prop :=
  arguments tc <> Malformed
  /\ (function_name tc = lit "think" \/ function_name tc = lit "decide_move" ->
      exists members, arguments tc = Object members).

(** Can lines 817-847 log a reply with this usage (line 830 does not
    raise)? *)
Definition loggable (u : usage) : bool :=
  match thinking_ratio_of u with
  | Ret _ => true
  | Raise _ => false
  end.

Definition is_decide_move (tc : tool_call) : bool :=
  str_eqb (function_name tc) (lit "decide_move").

(** [decide_move(move=m)] *)
Definition decide_move (m : str) : tool_call :=
  {| function_name := lit "decide_move";
     arguments := Object [(lit "move", JStr m)] |}.

(** A database with nothing above ASCII in any class, for the examples. *)
Definition ascii_only : unicode_db :=
  {| lower_text := fun s => s;
     upper_text := fun s => s;
     word_above := fun _ => false;
     digit_above := fun _ => false;
     same_letter_above := fun _ _ => false;
     range_nocase_above := fun _ _ _ => false |}.

(** Sample data of the examples. *)
Definition sample_clock : clock :=
  {| start_reading := lit "2025-03-01T12:00:00"; timestamp := lit "2025-03-01T12:00:01" |}.

Definition sample_usage : usage :=
  {| prompt_tokens := 900; completion_tokens := 300; reasoning_tokens := Some 200%Z;
     total_tokens := 1200 |}.

Definition sample_reply (calls : option (list tool_call)) (text : option str) : reply :=
  {| reply_usage := sample_usage; tool_calls := calls; content := text;
     elapsed_time := 2 |}.



(** A good move as content, in a reply whose usage details give no count of
    reasoning tokens. *)
Definition uncounted_reply : reply :=
  {| reply_usage :=
       {| prompt_tokens := 900; completion_tokens := 300; reasoning_tokens := None;
          total_tokens := 1200 |};
     tool_calls := None;
     content := Some (lit "BC2 BC4");
     elapsed_time := 2 |}.

(** A [think] call whose analysis is the number 42, then a good
    [decide_move]. *)
Definition numbered_think_reply : reply :=
  sample_reply
    (Some [ {| function_name := lit "think";
               arguments := Object [(lit "analysis", JOther false (lit "42"))] |};
            decide_move (lit "GB1 GC3") ])
    None.


(** A reply with reasoning from a [think] call before the decision. *)
Definition think_then_decide_reply : reply :=
  sample_reply
    (Some [ {| function_name := lit "think";
               arguments := Object [(lit "analysis", JStr (lit "Develop the knight."))] |};
            decide_move (lit "GB1 GC3") ])
    None.

(** An environment without any key, one with the OpenAI key only, a
    provider that refuses every call, and [repr] on plain text. *)
Definition no_keys : str -> option str := fun _ => None.

Definition openai_key_only : str -> option str :=
  fun name => if str_eqb name (lit "OPENAI_API_KEY") then Some (lit "sk-test") else None.

Definition blank_openai_key : str -> option str :=
  fun name => if str_eqb name (lit "OPENAI_API_KEY") then Some (lit "   ") else None.

Definition refusing_api : Provider.network_call unit -> Provider.outcome (option str) :=
  fun _ => Provider.Raised (lit "Connection error.").

Definition plain_repr (s : str) : str := lit "'" ++ s ++ lit "'".

(** The text of the [TypeError] for a keyword given twice, with the name of
    the method as a client that does not wrap it shows it. *)
Definition plain_repeated (key : str) : str :=
  lit "AsyncMessages.create() got multiple values for keyword argument "
  ++ plain_repr key.

(** An environment with a key for every provider, and a provider that
    answers every call with the same text. *)
Definition every_key : str -> option str := fun name => Some (lit "sk-" ++ name).

Definition answering_api {value : Type}
  : Provider.network_call value -> Provider.outcome (option str) :=
  fun _ => Provider.Returned (Some (lit "RA2 RA3")).

Definition hello : list Provider.message :=
  [[(lit "role", lit "user"); (lit "content", lit "Hello, how are you?")]].

(** A call to groq with its default model, and the same call with the model
    replaced through [additional_params]. *)
Definition groq_call : Provider.network_call str :=
  Provider.OpenAICreate str (lit "sk-GROQ_API_KEY")
    (Some (lit "https://api.groq.com/openai/v1"))
    [ (lit "model", Provider.PStr str (lit "llama-3.3-70b-versatile"));
      (lit "messages", Provider.PMessages str hello) ].

Definition groq_call_other_model : Provider.network_call str :=
  Provider.OpenAICreate str (lit "sk-GROQ_API_KEY")
    (Some (lit "https://api.groq.com/openai/v1"))
    [ (lit "model", Provider.PValue str (lit "mixtral-8x7b"));
      (lit "messages", Provider.PMessages str hello) ].

Definition all_marked_valid (l : list move_data) : Prop :=
  Forall (fun m => valid m = true) l.


Fixpoint posts (requests : list request) : nat :=
  match requests with
  | [] => 0
  | PostGetMove _ _ _ :: rest => S (posts rest)
  | _ :: rest => posts rest
  end.

(** The reasoning of the last logged move, as the handler reads it. *)
Definition last_reasoning (mem : agent_memory) : json :=
  match rev (moves mem) with
  | last :: _ => reasoning last
  | [] => JStr (lit "No reasoning available")
  end.

(** The credential and the model a provider call carries. *)
Definition call_key {value : Type} (call : Provider.network_call value) : str :=
  match call with
  | Provider.AnthropicCreate _ api_key _ _ _ _ _ => api_key
  | Provider.OpenAICreate _ api_key _ _ => api_key
  end.

Definition call_model {value : Type} (call : Provider.network_call value) : option str :=
  match call with
  | Provider.AnthropicCreate _ _ model _ _ _ _ => Some model
  | Provider.OpenAICreate _ _ _ params =>
      match Provider.item_of params (lit "model") with
      | Some (Provider.PStr _ model) => Some model
      | _ => None
      end
  end.

(** The parameters of a call through the OpenAI client. *)
Definition call_params {value : Type} (call : Provider.network_call value)
  : list (str * Provider.param value) :=
  match call with
  | Provider.AnthropicCreate _ _ _ _ _ _ _ => []
  | Provider.OpenAICreate _ _ _ params => params
  end.

(** The parameters the OpenAI client is called with (lines 92-101). *)
Definition openai_params {value : Type} (chosen : str) (messages : list Provider.message)
  (system_message : option str) (max_tokens : option Z)
  (additional_params : option (list (str * value)))
  : list (str * Provider.param value) :=
  let params :=
    [ (lit "model", Provider.PStr value chosen);
      (lit "messages",
       Provider.PMessages value
         match Provider.nonempty system_message with
         | Some s => [(lit "role", lit "system"); (lit "content", s)] :: messages
         | None => messages
         end) ] in
  let params :=
    match Provider.nonzero max_tokens with
    | Some n => Provider.set_item params (lit "max_tokens") (Provider.PInt value n)
    | None => params
    end in
  match additional_params with
  | Some d =>
      Provider.update params (map (fun kv => (fst kv, Provider.PValue value (snd kv))) d)
  | None => params
  end.

(** Is the model argument one that stands for "the default of the
    provider" ([None], the empty string, or "gpt-4o")? *)
Definition asks_for_default (model : option str) : bool :=
  match model with
  | None | Some [] => true
  | Some m => str_eqb m (lit "gpt-4o")
  end.

(** The squares of the running text: a letter a-h and a digit 1-8. *)
Definition is_square (p : str) : Prop :=
  exists x y, p = [x; y] /\ between 97 104 x = true /\ between 49 56 y = true.

Definition no_newline (s : str) : Prop := ~ In 10%N s.

(** Some line of the response starts with the tag. *)
Definition tagged (tag response : str) : Prop :=
  Exists (fun line => startswith line tag = true) (split_on 10%N response).

(** The board text has a line with the turn in it. *)
Definition has_turn_line (board_str : str) : Prop :=
  Exists (fun line => Simulation.has_turn line = true) (split_on 10%N board_str).

(** The three players, in the order of play. *)
Definition rotation : list str := [lit "BLUE"; lit "GREEN"; lit "RED"].

(** Does the simulation play the answer ([if start_pos and end_pos])? *)
Definition usable (a : Simulation.answer) : bool :=
  match a with
  | Simulation.Status200 start_pos end_pos => truthy start_pos && truthy end_pos
  | Simulation.NoAnswer => false
  end.

(** The answers to the requests of a run whose first request is the
    [k]-th. *)
Fixpoint answers_to (post : nat -> LLMServer.MoveRequest -> Simulation.answer)
  (k : nat) (sent : list LLMServer.MoveRequest) : list Simulation.answer :=
  match sent with
  | [] => []
  | data :: rest => post k data :: answers_to post (S k) rest
  end.

(** The simulation with the server of [llm_server.py] behind its POST;
    [api k] is how the providers behave during the [k]-th request. *)
Definition served_by (U : unicode_db) (value : Type) (repr : str -> str)
  (repeated_keyword : str -> str) (environ : str -> option str)
  (api : nat -> Provider.network_call value -> Provider.outcome (option str))
  (k : nat) (data : LLMServer.MoveRequest) : Simulation.answer :=
  Simulation.over_http (fst (LLMServer.get_move U value repr repeated_keyword environ (api k) data)).

Definition answered_200 (response : LLMServer.http) : bool :=
  match response with
  | LLMServer.Ok _ => true
  | LLMServer.HTTPException _ _ => false
  end.

(** A provider that answers in part of the format asked for, a request of
    the simulation, and a server that never answers. *)
Definition tagging_api {value : Type}
  : Provider.network_call value -> Provider.outcome (option str) :=
  fun _ => Provider.Returned (Some (lit "START: e2" ++ NEWLINE ++ lit "END: e4")).

Definition request_for (color provider model : str) : LLMServer.MoveRequest :=
  {| LLMServer.board_state := Simulation.INITIAL_BOARD;
     LLMServer.color := color;
     LLMServer.model_provider := provider;
     LLMServer.model_name := Some model |}.

Definition blue_request : LLMServer.MoveRequest :=
  request_for (lit "blue") (lit "openai") (lit "gpt-4o").

Definition green_request : LLMServer.MoveRequest :=
  request_for (lit "green") (lit "anthropic") (lit "claude-3-5-sonnet-latest").

Definition red_request : LLMServer.MoveRequest :=
  request_for (lit "red") (lit "openrouter") (lit "google/gemini-flash-1.5-8b").

Definition silent : nat -> LLMServer.MoveRequest -> Simulation.answer :=
  fun _ _ => Simulation.NoAnswer.

Definition start_of_game : Simulation.SimpleBoard :=
  {| Simulation.board_str := Simulation.INITIAL_BOARD;
     Simulation.turn := lit "BLUE";
     Simulation.move_count := 0 |}.


(** An [int] that reads nothing. *)
Definition no_int : str -> option Z := fun _ => None.

(* ================================================================== *)
(** * Properties *)

(** ** Strings *)

Lemma str_eqb_eq (a b : str) : str_eqb a b = true <-> a = b.
Proof.
  revert b; induction a as [|x a IH]; intros [|y b]; simpl; split;
    try congruence; try reflexivity.
  - intros H. apply andb_true_iff in H as [Hx Hab].
    apply N.eqb_eq in Hx. apply IH in Hab. congruence.
  - intros H. injection H as -> ->. apply andb_true_iff. split.
    + apply N.eqb_refl.
    + now apply IH.
Qed.

Lemma str_eqb_refl (a : str) : str_eqb a a = true.
Proof. now apply str_eqb_eq. Qed.

Lemma str_in_In (x : str) (l : list str) : str_in x l = true <-> In x l.
Proof.
  unfold str_in. rewrite existsb_exists. split.
  - intros (y & Hy & E). apply str_eqb_eq in E. now subst.
  - intros H. exists x. split; [assumption | apply str_eqb_refl].
Qed.

Lemma str_in_false (x : str) (l : list str) : str_in x l = false <-> ~ In x l.
Proof.
  rewrite <- str_in_In. destruct (str_in x l); split; congruence.
Qed.

Lemma lstrip_blank_app (lead rest : str) :
  blank lead -> lstrip (lead ++ rest) = lstrip rest.
Proof.
  induction 1 as [|c lead Hc _ IH]; simpl; [reflexivity|]. now rewrite Hc.
Qed.

Lemma lstrip_solid_head (c : char) (s : str) :
  isspace c = false -> lstrip (c :: s) = c :: s.
Proof. intros H. simpl. now rewrite H. Qed.

Lemma lstrip_blank (s : str) : blank s -> lstrip s = [].
Proof.
  intros H. rewrite <- (app_nil_r s). now rewrite lstrip_blank_app.
Qed.

Lemma blank_rev (s : str) : blank s -> blank (rev s).
Proof. unfold blank. intros H. now apply Forall_rev. Qed.

(** [strip] removes a blank margin around a text that starts and ends with a
    non-blank character. *)
Lemma strip_margins (lead body trail : str) (a z : char) (mid : str) :
  blank lead -> blank trail ->
  body = a :: mid -> isspace a = false ->
  (exists front, body = front ++ [z]) -> isspace z = false ->
  strip (lead ++ body ++ trail) = body.
Proof.
  intros Hl Ht Hb Ha (front & Hz) Hzs. unfold strip, rstrip.
  rewrite lstrip_blank_app by assumption.
  rewrite Hb at 1. simpl app. rewrite lstrip_solid_head by assumption.
  change (a :: mid ++ trail) with ((a :: mid) ++ trail). rewrite <- Hb.
  rewrite rev_app_distr. rewrite lstrip_blank_app by now apply blank_rev.
  rewrite Hz at 1. rewrite rev_app_distr. simpl app.
  rewrite lstrip_solid_head by assumption.
  change (z :: rev front) with (rev [z] ++ rev front).
  rewrite <- rev_app_distr, rev_involutive. now rewrite <- Hz.
Qed.

(** *** [split] on a text laid out as margins, tokens and gaps *)

Lemma split_scan_solid (tok : str) : forall cur rest,
  solid tok -> split_scan cur (tok ++ rest) = split_scan (rev tok ++ cur) rest.
Proof.
  induction tok as [|c tok IH]; intros cur rest H; [reflexivity|].
  inversion H as [|? ? Hc Htok]; subst. simpl. rewrite Hc.
  rewrite IH by assumption. now rewrite <- app_assoc.
Qed.

Lemma split_scan_blank (gap : str) : forall rest,
  blank gap -> split_scan [] (gap ++ rest) = split_scan [] rest.
Proof.
  induction gap as [|c gap IH]; intros rest H; [reflexivity|].
  inversion H as [|? ? Hc Hgap]; subst. simpl. rewrite Hc. now apply IH.
Qed.

Lemma split_scan_end_token (cur : str) (c : char) (rest : str) :
  cur <> [] -> isspace c = true ->
  split_scan cur (c :: rest) = rev cur :: split_scan [] rest.
Proof.
  intros Hcur Hc. simpl. rewrite Hc. destruct cur; congruence.
Qed.


(** A token followed by a gap. *)
Lemma split_token_gap (tok gap rest : str) :
  tok <> [] -> solid tok -> gap <> [] -> blank gap ->
  split_scan [] (tok ++ gap ++ rest) = tok :: split_scan [] rest.
Proof.
  intros Htok Hs Hgap Hb. rewrite split_scan_solid by assumption.
  rewrite app_nil_r. destruct gap as [|c gap]; [congruence|].
  inversion Hb as [|? ? Hc Hb']; subst. simpl app.
  rewrite split_scan_end_token; try assumption.
  - rewrite rev_involutive. now rewrite split_scan_blank.
  - intros E. apply (f_equal (@rev char)) in E. rewrite rev_involutive in E.
    now apply Htok.
Qed.

(** The last token, followed by a blank margin. *)
Lemma split_last_token (tok trail : str) :
  tok <> [] -> solid tok -> blank trail ->
  split_scan [] (tok ++ trail) = [tok].
Proof.
  intros Htok Hs Hb. destruct trail as [|c trail].
  - rewrite app_nil_r. rewrite <- (app_nil_r tok) at 1.
    rewrite split_scan_solid by assumption. simpl. rewrite app_nil_r.
    rewrite rev_involutive.
    destruct (rev tok) eqn:E; [|reflexivity].
    apply (f_equal (@rev char)) in E. rewrite rev_involutive in E. now subst.
  - replace (tok ++ c :: trail) with (tok ++ (c :: trail) ++ []) by now rewrite app_nil_r.
    rewrite split_token_gap; try assumption; [reflexivity | discriminate].
Qed.

Lemma split_two_tokens (lead f gap t trail : str) :
  blank lead -> f <> [] -> solid f -> gap <> [] -> blank gap ->
  t <> [] -> solid t -> blank trail ->
  split (lead ++ f ++ gap ++ t ++ trail) = [f; t].
Proof.
  intros. unfold split. rewrite split_scan_blank by assumption.
  rewrite split_token_gap by assumption.
  now rewrite split_last_token.
Qed.

(** *** Reading the layout back from the result of [split] *)

Lemma span_prefix (p : char -> bool) (s : str) :
  exists a b, s = a ++ b /\ Forall (fun c => p c = true) a
              /\ (b = [] \/ starts_with (fun c => negb (p c)) b).
Proof.
  induction s as [|c s (a & b & E & Ha & Hb)].
  - exists [], []. repeat split; auto.
  - destruct (p c) eqn:Hc.
    + exists (c :: a), b. subst s. repeat split; auto.
    + exists [], (c :: s). repeat split; auto.
      right. exists c, s. now rewrite Hc.
Qed.

Lemma blank_prefix (s : str) :
  exists lead rest, s = lead ++ rest /\ blank lead
                    /\ (rest = [] \/ starts_with (fun c => negb (isspace c)) rest).
Proof. apply span_prefix. Qed.

Lemma solid_prefix (s : str) :
  exists tok rest, s = tok ++ rest /\ solid tok
                   /\ (rest = [] \/ starts_with isspace rest).
Proof.
  destruct (span_prefix (fun c => negb (isspace c)) s) as (a & b & E & Ha & Hb).
  exists a, b. repeat split; auto.
  - unfold solid. eapply Forall_impl; [|exact Ha].
    intros c Hc. simpl in Hc. now destruct (isspace c).
  - destruct Hb as [Hb | (c & r & Hb & Hc)]; [now left | right].
    exists c, r. split; [assumption|]. now destruct (isspace c).
Qed.

Lemma split_scan_nil_inv (s : str) : split_scan [] s = [] -> blank s.
Proof.
  intros H. destruct (blank_prefix s) as (lead & rest & E & Hl & Hr). subst s.
  rewrite split_scan_blank in H by assumption.
  destruct Hr as [-> | (c & r & -> & Hc)].
  - now rewrite app_nil_r.
  - exfalso. destruct (solid_prefix (c :: r)) as (tok & rest & E & Ht & Hrest).
    assert (Htok : tok <> []).
    { intros ->. simpl in E. subst rest.
      destruct Hrest as [? | (c' & r' & E' & Hc')]; [discriminate|].
      injection E' as <- <-. rewrite Hc' in Hc. discriminate. }
    rewrite E in H. destruct Hrest as [-> | (c' & r' & -> & Hc')].
    + rewrite split_last_token in H; try assumption; [discriminate | constructor].
    + replace (tok ++ c' :: r') with (tok ++ [c'] ++ r') in H by reflexivity.
      rewrite split_token_gap in H; try assumption; try discriminate.
      repeat constructor. assumption.
Qed.

Lemma split_scan_cons_inv (s tok : str) (l : list str) :
  split_scan [] s = tok :: l ->
  exists lead rest,
    s = lead ++ tok ++ rest /\ blank lead /\ tok <> [] /\ solid tok
    /\ (rest = [] \/ starts_with isspace rest)
    /\ split_scan [] rest = l.
Proof.
  intros H. destruct (blank_prefix s) as (lead & body & E & Hl & Hb). subst s.
  rewrite split_scan_blank in H by assumption.
  destruct Hb as [-> | (c & r & -> & Hc)]; [discriminate|].
  destruct (solid_prefix (c :: r)) as (tok' & rest & E & Ht & Hrest).
  assert (Htok : tok' <> []).
  { intros ->. simpl in E. subst rest.
    destruct Hrest as [? | (c' & r' & E' & Hc')]; [discriminate|].
    injection E' as <- <-. rewrite Hc' in Hc. discriminate. }
  rewrite E in H |- *. exists lead, rest.
  destruct Hrest as [-> | (c' & r' & -> & Hc')].
  - rewrite split_last_token in H; try assumption; [|constructor].
    injection H as <- <-. repeat split; auto.
  - replace (tok' ++ c' :: r') with (tok' ++ [c'] ++ r') in H by reflexivity.
    rewrite split_token_gap in H; try assumption; try discriminate;
      [|repeat constructor; assumption].
    injection H as <- <-. repeat split; auto.
    + right. now exists c', r'.
    + simpl. now rewrite Hc'.
Qed.

Lemma split_two_tokens_inv (s a b : str) :
  split s = [a; b] ->
  exists lead gap trail,
    s = lead ++ a ++ gap ++ b ++ trail
    /\ blank lead /\ blank gap /\ gap <> [] /\ blank trail
    /\ a <> [] /\ solid a /\ b <> [] /\ solid b.
Proof.
  unfold split. intros H.
  apply split_scan_cons_inv in H as (lead & rest & -> & Hl & Ha & Hsa & Hrest & H).
  apply split_scan_cons_inv in H as (gap & trail & -> & Hg & Hb & Hsb & _ & H).
  apply split_scan_nil_inv in H.
  exists lead, gap, trail. repeat split; auto.
  intros ->. simpl in Hrest.
  destruct Hrest as [E | (c & r & E & Hc)].
  - destruct b; [congruence | discriminate].
  - destruct b as [|x b]; [congruence|]. injection E as <- <-.
    inversion Hsb; subst. congruence.
Qed.

Lemma solid_last (s : str) :
  s <> [] -> solid s -> exists front z, s = front ++ [z] /\ isspace z = false.
Proof.
  intros Hs H. destruct (exists_last Hs) as (front & z & ->).
  exists front, z. split; [reflexivity|].
  unfold solid in H. rewrite Forall_forall in H. apply H.
  apply in_or_app. right. now left.
Qed.

(** [strip] of two tokens with a gap, inside blank margins. *)
Lemma strip_two_tokens (lead f gap t trail : str) :
  blank lead -> f <> [] -> solid f -> t <> [] -> solid t -> blank trail ->
  strip (lead ++ f ++ gap ++ t ++ trail) = f ++ gap ++ t.
Proof.
  intros Hl Hf Hsf Ht Hst Htr.
  destruct f as [|a f']; [congruence|].
  destruct (solid_last t Ht Hst) as (front & z & Ez & Hz).
  replace (lead ++ (a :: f') ++ gap ++ t ++ trail)
    with (lead ++ ((a :: f') ++ gap ++ t) ++ trail)
    by now rewrite <- !app_assoc.
  apply strip_margins with (a := a) (z := z) (mid := f' ++ gap ++ t); auto.
  - inversion Hsf; assumption.
  - exists ((a :: f') ++ gap ++ front). rewrite Ez. now rewrite <- !app_assoc.
Qed.

(** ** The coordinate validator *)

Lemma singleton_in (c : char) (l : str) :
  str_in [c] (map (fun x => [x]) l) = true <-> In c l.
Proof.
  rewrite str_in_In, in_map_iff. split.
  - intros (x & E & H). now injection E as ->.
  - intros H. now exists c.
Qed.

Lemma is_valid_position_str (c f r : char) :
  is_valid_position (PyStr [c; f; r]) = true
  <-> In c (lit "RBG") /\ In f (lit "ABC") /\ In r (lit "1234").
Proof.
  unfold is_valid_position, is_valid_position_try. cbn -[str_in In lit].
  change VALID_COLORS with (map (fun x : char => [x]) (lit "RBG")).
  change VALID_FILES with (map (fun x : char => [x]) (lit "ABC")).
  change VALID_RANKS with (map (fun x : char => [x]) (lit "1234")).
  rewrite <- !singleton_in.
  destruct (str_in [c] _), (str_in [f] _), (str_in [r] _); cbn; intuition congruence.
Qed.

Lemma is_valid_position_iff (v : pyval) :
  is_valid_position v = true <-> exists s, v = PyStr s /\ position s.
Proof.
  split.
  - destruct v as [|z|s]; try (cbv; discriminate).
    + unfold is_valid_position, is_valid_position_try. cbn.
      destruct (Z.eqb z 0); cbn; discriminate.
    + destruct s as [|c [|f [|r [|x s]]]]; try (cbv; discriminate).
      intros H. apply is_valid_position_str in H.
      exists [c; f; r]. split; [reflexivity|]. now exists c, f, r.
  - intros (s & -> & c & f & r & -> & H). now apply is_valid_position_str.
Qed.

(** C3.  The coordinate validator answers [True] exactly on the strings of
    three characters with the first in R, B, G, the second in A, B, C and the
    third in 1-4; on every other value ([None], the empty string, a wrong
    length, a wrong character, a value that makes the body raise) it answers
    [False], and it never raises: an exception of the body is turned into
    [False]. *)
Theorem is_valid_position_fails_closed (v : pyval) :
  (is_valid_position v = true <-> exists s, v = PyStr s /\ position s)
  /\ ((~ exists s, v = PyStr s /\ position s) -> is_valid_position v = false)
  /\ (forall e, is_valid_position_try v = Raise e -> is_valid_position v = false)
  /\ is_valid_position PyNone = false
  /\ is_valid_position (PyStr []) = false.
Proof.
  repeat split.
  - apply is_valid_position_iff.
  - apply is_valid_position_iff.
  - intros H. destruct (is_valid_position v) eqn:E; [|reflexivity].
    exfalso. apply H. now apply is_valid_position_iff.
  - intros e H. unfold is_valid_position. now rewrite H.
Qed.

(** The tokens the specification lists as malformed, and a value on which
    the body raises. *)
Example is_valid_position_examples :
  is_valid_position (PyStr (lit "RA1")) = true
  /\ is_valid_position (PyStr (lit "XA1")) = false
  /\ is_valid_position (PyStr (lit "RA5")) = false
  /\ is_valid_position (PyStr (lit "RD1")) = false
  /\ is_valid_position (PyStr (lit "RA")) = false
  /\ is_valid_position_try (PyInt 5) = Raise TypeError
  /\ is_valid_position (PyInt 5) = false.
Proof. repeat split. Qed.

(** ** The move parser *)

Lemma lstrip_decomp (s : str) : exists lead, s = lead ++ lstrip s /\ blank lead.
Proof.
  induction s as [|c s (lead & E & H)].
  - exists []. split; [reflexivity | constructor].
  - simpl. destruct (isspace c) eqn:Hc.
    + exists (c :: lead). split; [simpl; congruence | now constructor].
    + exists []. split; [reflexivity | constructor].
Qed.

Lemma strip_decomp (s : str) :
  exists lead trail, s = lead ++ strip s ++ trail /\ blank lead /\ blank trail.
Proof.
  destruct (lstrip_decomp s) as (lead & E & Hl).
  destruct (lstrip_decomp (rev (lstrip s))) as (tr & E' & Ht).
  exists lead, (rev tr). repeat split; [|assumption | now apply blank_rev].
  unfold strip, rstrip. rewrite <- rev_app_distr, <- E', rev_involutive.
  exact E.
Qed.

Lemma split_scan_trailing_blank (trail : str) : forall cur,
  blank trail -> split_scan cur trail = split_scan cur [].
Proof.
  induction trail as [|c trail IH]; intros cur H; [reflexivity|].
  inversion H as [|? ? Hc Ht]; subst. simpl. rewrite Hc.
  destruct cur; rewrite IH by assumption; reflexivity.
Qed.

Lemma split_scan_app_blank (x trail : str) : forall cur,
  blank trail -> split_scan cur (x ++ trail) = split_scan cur x.
Proof.
  induction x as [|c x IH]; intros cur H.
  - now apply split_scan_trailing_blank.
  - simpl. destruct (isspace c), cur; rewrite ?IH by assumption; reflexivity.
Qed.

Lemma split_strip (s : str) : split (strip s) = split s.
Proof.
  destruct (strip_decomp s) as (lead & trail & E & Hl & Ht).
  unfold split. rewrite E at 2.
  rewrite split_scan_blank by assumption.
  now rewrite split_scan_app_blank.
Qed.

Lemma position_valid (s : str) :
  position s <-> is_valid_position (PyStr s) = true.
Proof.
  rewrite is_valid_position_iff. split.
  - intros H. now exists s.
  - intros (s' & E & H). now injection E as ->.
Qed.

Lemma position_in_all (s : str) : position s <-> In s all_positions.
Proof.
  unfold all_positions. rewrite in_flat_map. split.
  - intros (c & f & r & -> & Hc & Hf & Hr). exists c. split; [assumption|].
    apply in_flat_map. exists f. split; [assumption|].
    apply in_map_iff. now exists r.
  - intros (c & Hc & H). apply in_flat_map in H as (f & Hf & H).
    apply in_map_iff in H as (r & <- & Hr). now exists c, f, r.
Qed.

Lemma position_solid (s : str) : position s -> s <> [] /\ solid s.
Proof.
  intros H. apply position_in_all in H.
  assert (G : forallb (fun p => match p with [] => false | _ => true end
                                && forallb (fun c => negb (isspace c)) p)
                all_positions = true) by (vm_compute; reflexivity).
  rewrite forallb_forall in G. specialize (G s H).
  apply andb_true_iff in G as [G1 G2]. split.
  - now destruct s.
  - unfold solid. rewrite forallb_forall in G2. apply Forall_forall.
    intros c Hc. specialize (G2 c Hc). now destruct (isspace c).
Qed.

(** What the parser does on a string, spelt out. *)
Lemma validate_str (s : str) :
  validate_and_process_move (PyStr s) None =
  match split s with
  | [f; t] => if is_valid_position (PyStr f) && is_valid_position (PyStr t)
              then Some (strip s) else None
  | _ => None
  end.
Proof.
  unfold validate_and_process_move, validate_outcome, validate_try. cbn [py_strip bind].
  rewrite split_strip.
  destruct (split s) as [|f [|t [|x l]]]; try reflexivity.
  destruct (is_valid_position (PyStr f)), (is_valid_position (PyStr t)); reflexivity.
Qed.

Lemma validate_two_tokens (lead f gap t trail : str) :
  blank lead -> position f -> blank gap -> gap <> [] -> position t -> blank trail ->
  validate_and_process_move (PyStr (lead ++ f ++ gap ++ t ++ trail)) None
  = Some (f ++ gap ++ t).
Proof.
  intros Hl Hf Hg Hgn Ht Htr.
  destruct (position_solid f Hf) as [Hf1 Hf2].
  destruct (position_solid t Ht) as [Ht1 Ht2].
  rewrite validate_str, split_two_tokens by assumption.
  apply position_valid in Hf, Ht. rewrite Hf, Ht. simpl.
  now rewrite strip_two_tokens.
Qed.

Lemma validate_some_inv (s r : str) :
  validate_and_process_move (PyStr s) None = Some r ->
  r = strip s /\
  exists f gap t, position f /\ position t /\ blank gap /\ gap <> []
                  /\ strip s = f ++ gap ++ t.
Proof.
  rewrite validate_str.
  destruct (split s) as [|f [|t [|x l]]] eqn:E; try discriminate.
  destruct (is_valid_position (PyStr f)) eqn:Hf; [|discriminate].
  destruct (is_valid_position (PyStr t)) eqn:Ht; [|discriminate].
  simpl. intros H. injection H as <-. split; [reflexivity|].
  apply split_two_tokens_inv in E
    as (lead & gap & trail & -> & Hl & Hg & Hgn & Htr & Hfn & Hfs & Htn & Hts).
  exists f, gap, t. rewrite <- !position_valid in *.
  repeat split; auto. now apply strip_two_tokens.
Qed.

(** C2, as the code has it.  The parser returns a string exactly when the
    trimmed input is two well-formed coordinate tokens separated by one or
    more whitespace characters, and then it returns the trimmed input
    unchanged; so a trimmed input with exactly one space between two
    well-formed tokens comes back as it is, and in every other case (no
    whitespace between the tokens, a number of tokens other than two, a
    malformed token) the parser returns none. *)
Theorem move_parser_accepts_exactly (s : str) :
  (forall r, validate_and_process_move (PyStr s) None = Some r <->
             r = strip s /\
             exists f gap t, position f /\ position t /\ blank gap /\ gap <> []
                             /\ strip s = f ++ gap ++ t)
  /\ (well_formed_move (strip s) ->
      validate_and_process_move (PyStr s) None = Some (strip s))
  /\ (solid (strip s) -> validate_and_process_move (PyStr s) None = None)
  /\ (List.length (split s) <> 2%nat ->
      validate_and_process_move (PyStr s) None = None)
  /\ (forall a b, split s = [a; b] -> ~ position a \/ ~ position b ->
                  validate_and_process_move (PyStr s) None = None).
Proof.
  assert (Back : forall f gap t, position f -> position t -> blank gap -> gap <> [] ->
                 strip s = f ++ gap ++ t ->
                 validate_and_process_move (PyStr s) None = Some (strip s)).
  { intros f gap t Hf Ht Hg Hgn E.
    destruct (strip_decomp s) as (lead & trail & Es & Hl & Htr).
    rewrite Es at 1. rewrite E, <- !app_assoc.
    now apply validate_two_tokens. }
  split; [|split; [|split; [|split]]].
  - intros r. split.
    + apply validate_some_inv.
    + intros (-> & f & gap & t & Hf & Ht & Hg & Hgn & E). eauto.
  - intros (f & t & Hf & Ht & E). apply (Back f SPACE t); auto.
    + repeat constructor.
    + discriminate.
  - intros H. destruct (validate_and_process_move (PyStr s) None) as [r|] eqn:E;
      [exfalso | reflexivity].
    apply validate_some_inv in E as (_ & f & gap & t & _ & _ & Hg & Hgn & E).
    rewrite E in H. unfold solid in H. rewrite Forall_forall in H.
    destruct gap as [|c gap]; [congruence|]. inversion Hg as [|? ? Hc _]; subst.
    assert (isspace c = false) by (apply H; apply in_or_app; right; now left).
    congruence.
  - intros H. rewrite validate_str.
    destruct (split s) as [|f [|t [|x l]]]; try reflexivity. now elim H.
  - intros a b E H. rewrite validate_str, E.
    rewrite !position_valid in H.
    destruct (is_valid_position (PyStr a)), (is_valid_position (PyStr b));
      try reflexivity. destruct H; congruence.
Qed.

(** C2 as stated fails: two spaces between two well-formed tokens do not
    make the parser return none; the input comes back with both spaces. *)
Lemma move_parser_two_spaces :
  validate_and_process_move (PyStr (lit "RA2  RA3")) None = Some (lit "RA2  RA3").
Proof. reflexivity. Qed.

Example move_parser_examples :
  validate_and_process_move (PyStr (lit "  RA2 RA3 ")) None = Some (lit "RA2 RA3")
  /\ validate_and_process_move (PyStr (lit "RA2RA3")) None = None
  /\ validate_and_process_move (PyStr (lit "RA2 RA3 RB1")) None = None
  /\ validate_and_process_move (PyStr (lit "RA2 RD3")) None = None
  /\ validate_and_process_move (PyStr (lit "RA2") ) None = None
  /\ validate_and_process_move PyNone None = None.
Proof. repeat split. Qed.

(** ** Legal moves and the closest-move suggestion *)

Lemma well_formed_split (m f t : str) :
  position f -> position t -> m = f ++ SPACE ++ t ->
  split m = [f; t] /\ strip m = m /\ m <> [].
Proof.
  intros Hf Ht ->.
  destruct (position_solid f Hf) as [Hf1 Hf2].
  destruct (position_solid t Ht) as [Ht1 Ht2].
  assert (B : blank SPACE) by (repeat constructor).
  assert (N : SPACE <> []) by discriminate.
  repeat split.
  - pose proof (split_two_tokens [] f SPACE t []) as H.
    rewrite app_nil_r in H. apply H; auto; constructor.
  - pose proof (strip_two_tokens [] f SPACE t []) as H.
    rewrite app_nil_r in H. apply H; auto; constructor.
  - destruct f; [congruence | discriminate].
Qed.

Lemma well_formed_from_token (m : str) :
  well_formed_move m -> exists f, position f /\ from_token m = Some f.
Proof.
  intros (f & t & Hf & Ht & E). exists f. split; [assumption|].
  unfold from_token. now destruct (well_formed_split m f t Hf Ht E) as (-> & _).
Qed.

Lemma startswith_same_length (p : str) : forall a rest,
  List.length a = List.length p ->
  startswith (a ++ rest) p = str_eqb p a.
Proof.
  induction p as [|x p IH]; intros [|y a] rest H; try discriminate.
  - now destruct rest.
  - simpl. injection H as H. now rewrite IH.
Qed.

Lemma position_length (s : str) : position s -> List.length s = 3%nat.
Proof. now intros (c & f & r & -> & _). Qed.

Lemma startswith_shares_from (m l : str) (f : str) :
  position f -> from_token m = Some f -> well_formed_move l ->
  startswith l f = shares_from m l.
Proof.
  intros Hf Em (f' & t' & Hf' & Ht' & El).
  unfold shares_from. rewrite Em. unfold from_token.
  destruct (well_formed_split l f' t' Hf' Ht' El) as (-> & _). simpl.
  rewrite El. apply startswith_same_length.
  now rewrite !position_length.
Qed.

(** C4.  For a well-formed move and a non-empty list of legal moves: a move
    that is in the list is returned; for one that is not, the parser
    returns none and computes as closest move the first legal move that
    starts with the from token, or the first legal move when there is none;
    when the legal moves are well-formed moves themselves, that is the first
    legal move with the same from token. *)
Theorem legal_move_check (m : str) (legal : list str) :
  well_formed_move m -> legal <> [] ->
  (In m legal ->
   validate_outcome (PyStr m) (Some legal)
   = {| parsed := Some m; closest_move := None |})
  /\ (~ In m legal ->
      validate_and_process_move (PyStr m) (Some legal) = None
      /\ exists f, from_token m = Some f
         /\ closest_move (validate_outcome (PyStr m) (Some legal))
            = match filter (fun l => startswith l f) legal with
              | l :: _ => Some l
              | [] => hd_error legal
              end)
  /\ (~ In m legal -> Forall well_formed_move legal ->
      closest_move (validate_outcome (PyStr m) (Some legal))
      = first_sharing_from m legal).
Proof.
  intros Hm Hl.
  destruct Hm as (f & t & Hf & Ht & E).
  destruct (well_formed_split m f t Hf Ht E) as (Es & Est & Hne).
  assert (Run : validate_outcome (PyStr m) (Some legal)
                = if negb (str_in m legal)
                  then {| parsed := None;
                          closest_move := find_closest_legal_move m legal |}
                  else {| parsed := Some m; closest_move := None |}).
  { unfold validate_outcome, validate_try. cbn [py_strip bind]. rewrite Est, Es.
    pose proof (proj1 (position_valid f) Hf) as Vf.
    pose proof (proj1 (position_valid t) Ht) as Vt.
    rewrite Vf, Vt. simpl.
    destruct legal; [congruence|]. now destruct (negb (str_in m _)). }
  assert (Closest : find_closest_legal_move m legal
                    = match filter (fun l => startswith l f) legal with
                      | l :: _ => Some l
                      | [] => hd_error legal
                      end).
  { unfold find_closest_legal_move. rewrite Es.
    destruct m; [congruence|]. destruct legal; [congruence|]. reflexivity. }
  split; [|split].
  - intros Hin. rewrite Run. apply str_in_In in Hin. now rewrite Hin.
  - intros Hin. apply str_in_false in Hin.
    unfold validate_and_process_move. rewrite Run, Hin. simpl. split; [reflexivity|].
    exists f. split; [|assumption]. unfold from_token. now rewrite Es.
  - intros Hin Hall. apply str_in_false in Hin. rewrite Run, Hin. simpl.
    rewrite Closest. unfold first_sharing_from.
    rewrite (filter_ext_in (fun l => startswith l f) (shares_from m)); [reflexivity|].
    intros l Hl'. apply startswith_shares_from; auto.
    + unfold from_token. now rewrite Es.
    + rewrite Forall_forall in Hall. now apply Hall.
Qed.

Definition sample_legal_moves : list str := [lit "RA2 RA3"; lit "RB1 RC3"].

Lemma sample_move_well_formed (a b : string) :
  In (lit a) all_positions -> In (lit b) all_positions ->
  well_formed_move (lit a ++ SPACE ++ lit b).
Proof.
  intros Ha Hb. exists (lit a), (lit b). rewrite !position_in_all. auto.
Qed.

Lemma RA2_RA4_well_formed : well_formed_move (lit "RA2 RA4").
Proof. apply (sample_move_well_formed "RA2" "RA4"); vm_compute; tauto. Qed.

(** The example of the specification, through the theorem. *)
Lemma legal_move_check_witness :
  validate_and_process_move (PyStr (lit "RA2 RA4")) (Some sample_legal_moves) = None
  /\ closest_move (validate_outcome (PyStr (lit "RA2 RA4")) (Some sample_legal_moves))
     = Some (lit "RA2 RA3").
Proof.
  assert (N : ~ In (lit "RA2 RA4") sample_legal_moves).
  { intros [H | [H | []]]; discriminate H. }
  assert (L : sample_legal_moves <> []) by discriminate.
  destruct (legal_move_check (lit "RA2 RA4") sample_legal_moves
              RA2_RA4_well_formed L) as (_ & H & _).
  destruct (H N) as (H1 & f & Hf & H2). split; [exact H1|].
  rewrite H2. injection Hf as <-. reflexivity.
Defined.

Example legal_move_examples :
  validate_outcome (PyStr (lit "RA2 RA3")) (Some sample_legal_moves)
  = {| parsed := Some (lit "RA2 RA3"); closest_move := None |}
  /\ validate_outcome (PyStr (lit "RA2 RA4")) (Some sample_legal_moves)
     = {| parsed := None; closest_move := Some (lit "RA2 RA3") |}
  /\ validate_outcome (PyStr (lit "GA2 GA4")) (Some sample_legal_moves)
     = {| parsed := None; closest_move := Some (lit "RA2 RA3") |}
  /\ validate_outcome (PyStr (lit "RB1 RA4")) (Some sample_legal_moves)
     = {| parsed := None; closest_move := Some (lit "RB1 RC3") |}.
Proof. repeat split. Qed.

(** ** The spacing repair *)

Lemma contains_char (c : char) (s : str) : contains s [c] = true <-> In c s.
Proof.
  induction s as [|x s IH]; simpl.
  - split; [discriminate | tauto].
  - rewrite orb_true_iff, IH. unfold char_eqb.
    destruct s; rewrite andb_true_r, N.eqb_eq; intuition congruence.
Qed.

Lemma contains_space_false (s : str) : ~ In 32%N s -> contains s SPACE = false.
Proof.
  intros H. destruct (contains s SPACE) eqn:E; [|reflexivity].
  exfalso. apply H. now apply (contains_char 32%N).
Qed.

(** C6.  A result without a space that is exactly six characters long gets
    a space after its third character; a result without a space of any other
    length is left as it is. *)
Theorem repair_spacing_six (s : str) :
  ~ In 32%N s ->
  (List.length s = 6%nat -> repair_spacing s = firstn 3 s ++ SPACE ++ skipn 3 s)
  /\ (List.length s <> 6%nat -> repair_spacing s = s).
Proof.
  intros H. apply contains_space_false in H. unfold repair_spacing.
  rewrite H. simpl negb. cbv iota. split; intros L.
  - rewrite L. destruct s; [discriminate | reflexivity].
  - apply Nat.eqb_neq in L. rewrite L. now destruct s.
Qed.

Lemma repair_spacing_six_witness :
  repair_spacing (lit "RB1RC3") = lit "RB1 RC3"
  /\ repair_spacing (lit "RB1RC") = lit "RB1RC".
Proof.
  assert (N6 : ~ In 32%N (lit "RB1RC3")).
  { cbn. intros H. repeat (destruct H as [H | H]; [discriminate H|]). exact H. }
  assert (N5 : ~ In 32%N (lit "RB1RC")).
  { cbn. intros H. repeat (destruct H as [H | H]; [discriminate H|]). exact H. }
  split.
  - apply (proj1 (repair_spacing_six (lit "RB1RC3") N6)). reflexivity.
  - apply (proj2 (repair_spacing_six (lit "RB1RC") N5)). discriminate.
Defined.

(** A result that already has a space is not touched either. *)
Lemma repair_spacing_spaced (s : str) : In 32%N s -> repair_spacing s = s.
Proof.
  intros H. apply (contains_char 32%N) in H. unfold repair_spacing.
  change [32%N] with SPACE in H. rewrite H. now destruct s.
Qed.

(** The repair comes before validation: the concatenated pair of the
    specification goes through the whole cascade. *)
Example repaired_before_validation :
  cascade ascii_only (PyStr (lit "RED"))
    {| reply_usage := {| prompt_tokens := 0; completion_tokens := 0;
                         reasoning_tokens := Some 0%Z; total_tokens := 0 |};
       tool_calls := None;
       content := Some (lit "RB1RC3");
       elapsed_time := 0 |}
  = Ret (lit "RB1 RC3", JStr DEFAULT_REASONING).
Proof. reflexivity. Qed.

(** ** The cascade on well-formed moves *)

Lemma well_formed_in_all (m : str) : well_formed_move m <-> In m all_moves.
Proof.
  unfold all_moves. rewrite in_flat_map. split.
  - intros (f & t & Hf & Ht & ->). exists f. rewrite <- position_in_all.
    split; [assumption|]. apply in_map_iff. exists t.
    now rewrite <- position_in_all.
  - intros (f & Hf & H). apply in_map_iff in H as (t & <- & Ht).
    exists f, t. now rewrite !position_in_all.
Qed.

Section CascadeFacts.
Variable U : unicode_db.

Lemma answers_eq (out : result (str * json)) (m : str) :
  answers out m = true -> out = Ret (m, JStr DEFAULT_REASONING).
Proof.
  destruct out as [[m' [d|d]]|e]; simpl; try discriminate.
  intros H. apply andb_true_iff in H as [H1 H2].
  apply str_eqb_eq in H1, H2. now subst.
Qed.

Lemma cascade_on_content (current_color : pyval) (u : usage) (e : Q)
  (calls : option (list tool_call)) (m : str) :
  calls = None \/ calls = Some [] -> well_formed_move m ->
  cascade U current_color
    {| reply_usage := u; tool_calls := calls; content := Some m; elapsed_time := e |}
  = Ret (m, JStr DEFAULT_REASONING).
Proof.
  intros Hc Hm. apply well_formed_in_all in Hm. apply answers_eq. revert m Hm.
  apply forallb_forall. destruct Hc as [-> | ->]; vm_compute; reflexivity.
Qed.

Lemma checked_move_well_formed (current_color : pyval) (m : str) :
  well_formed_move m -> checked_move U current_color (Some m) = m.
Proof.
  intros Hm. apply well_formed_in_all in Hm. apply str_eqb_eq. revert m Hm.
  apply forallb_forall. vm_compute. reflexivity.
Qed.

Lemma validate_well_formed (m : str) :
  well_formed_move m -> validate_and_process_move (PyStr m) None = Some m.
Proof.
  intros (f & t & Hf & Ht & E).
  destruct (well_formed_split m f t Hf Ht E) as (_ & Es & _).
  pose proof (validate_two_tokens [] f SPACE t []) as H.
  rewrite app_nil_r in H. simpl app at 1 in H. rewrite E. apply H; auto.
  - constructor.
  - repeat constructor.
  - discriminate.
  - constructor.
Qed.

(** *** What logging does to the answer *)

Lemma remember_loggable (now : clock) (current_color : pyval) (r : reply)
  (m : str) (t : json) (mem : agent_memory) :
  loggable (reply_usage r) = true ->
  exists counted,
    remember now current_color r m t mem
    = Ret (log_request now current_color r m t counted mem).
Proof.
  unfold loggable, remember. intros H.
  destruct (thinking_ratio_of (reply_usage r)) as [counted|e]; [|discriminate].
  now exists counted.
Qed.

Lemma remember_not_loggable (now : clock) (current_color : pyval) (r : reply)
  (m : str) (t : json) (mem : agent_memory) :
  loggable (reply_usage r) = false ->
  exists e, remember now current_color r m t mem = Raise e.
Proof.
  unfold loggable, remember. intros H.
  destruct (thinking_ratio_of (reply_usage r)) as [counted|e]; [discriminate|].
  now exists e.
Qed.

(** The answer to a reply the cascade ran through: its move when the usage
    can be logged, the fixed move of the colour, with nothing logged, when
    line 830 raises. *)
Lemma get_llm_move_logged (now : clock) (current_color : pyval) (r : reply)
  (mem : agent_memory) (m : str) (t : json) :
  cascade U current_color r = Ret (m, t) ->
  loggable (reply_usage r) = true ->
  exists counted,
    get_llm_move U now (Replied r) current_color mem
    = (m, log_request now current_color r m t counted (mark_start now mem)).
Proof.
  intros Hc Hl. unfold get_llm_move. rewrite Hc. cbn [bind fst snd].
  destruct (remember_loggable now current_color r m t (mark_start now mem) Hl)
    as (counted & E).
  rewrite E. cbn [bind]. now exists counted.
Qed.

Lemma get_llm_move_not_logged (now : clock) (current_color : pyval) (r : reply)
  (mem : agent_memory) (m : str) (t : json) :
  cascade U current_color r = Ret (m, t) ->
  loggable (reply_usage r) = false ->
  get_llm_move U now (Replied r) current_color mem
  = (fixed_fallback current_color, mark_start now mem).
Proof.
  intros Hc Hl. unfold get_llm_move. rewrite Hc. cbn [bind fst snd].
  destruct (remember_not_loggable now current_color r m t (mark_start now mem) Hl)
    as (e & E).
  rewrite E. reflexivity.
Qed.

(** The handler after a request that was logged. *)
Lemma get_move_logged (now : clock) (current_color : pyval) (r : reply)
  (mem : agent_memory) (m : str) (t : json) :
  cascade U current_color r = Ret (m, t) ->
  loggable (reply_usage r) = true ->
  fst (get_move U now (Replied r) current_color mem)
  = if has_len t then Body (checked_move U current_color (Some m)) t
    else InternalServerError.
Proof.
  intros Hc Hl.
  destruct (get_llm_move_logged now current_color r mem m t Hc Hl) as (counted & E).
  unfold get_move. rewrite E. unfold log_request. cbn [moves].
  rewrite rev_app_distr. reflexivity.
Qed.

(** C7.  A well-formed move given as the free-text content of a reply
    without tool invocations comes back unchanged from the cascade with its
    parser, and from the parser alone.  When the usage of the reply can be
    logged it is also what [get_llm_move] returns and what the [/get-move]
    handler answers. *)
Theorem well_formed_content_unchanged (now : clock) (current_color : pyval)
  (mem : agent_memory) (r : reply) (m : str) :
  well_formed_move m ->
  content r = Some m ->
  tool_calls r = None \/ tool_calls r = Some [] ->
  cascade U current_color r = Ret (m, JStr DEFAULT_REASONING)
  /\ validate_and_process_move (PyStr m) None = Some m
  /\ (loggable (reply_usage r) = true ->
      fst (get_llm_move U now (Replied r) current_color mem) = m
      /\ fst (get_move U now (Replied r) current_color mem)
         = Body m (JStr DEFAULT_REASONING)).
Proof.
  intros Hm Hc Ht.
  assert (C : cascade U current_color r = Ret (m, JStr DEFAULT_REASONING)).
  { destruct r as [u calls c e]. cbn [content tool_calls] in Hc, Ht. subst c.
    now apply cascade_on_content. }
  split; [exact C|]. split; [now apply validate_well_formed|].
  intros Hl. split.
  - destruct (get_llm_move_logged now current_color r mem _ _ C Hl) as (counted & E).
    now rewrite E.
  - rewrite (get_move_logged now current_color r mem _ _ C Hl).
    cbn [has_len]. now rewrite checked_move_well_formed.
Qed.

(** *** Tool invocations *)


Lemma tool_call_step_decodes (tc : tool_call) (reasoning_text : json)
  (final_move : option str) :
  decodes tc ->
  exists reasoning_text',
    tool_call_step (reasoning_text, final_move) tc
    = Ret (reasoning_text',
           if is_decide_move tc
           then match arguments tc with
                | Object members =>
                    Some (wrap match lookup members (lit "move") with
                               | Some v => v
                               | None => JStr []
                               end)
                | _ => final_move
                end
           else final_move).
Proof.
  intros [Hn Ho]. unfold tool_call_step, is_decide_move.
  destruct (arguments tc) as [| |members] eqn:E.
  - congruence.
  - destruct (str_eqb (function_name tc) (lit "think")) eqn:T.
    { apply str_eqb_eq in T. destruct (Ho (or_introl T)) as (ms & Hms).
      discriminate Hms. }
    destruct (str_eqb (function_name tc) (lit "decide_move")) eqn:D.
    { apply str_eqb_eq in D. destruct (Ho (or_intror D)) as (ms & Hms).
      discriminate Hms. }
    simpl. eauto.
  - simpl.
    destruct (str_eqb (function_name tc) (lit "think")),
             (str_eqb (function_name tc) (lit "decide_move")); simpl; eauto.
Qed.




Lemma unwrap_well_formed (m : str) : well_formed_move m -> unwrap U m = m.
Proof.
  intros Hm. apply well_formed_in_all in Hm. apply str_eqb_eq. revert m Hm.
  apply forallb_forall. vm_compute. reflexivity.
Qed.

Lemma repair_well_formed (m : str) : well_formed_move m -> repair_spacing m = m.
Proof.
  intros (f & t & _ & _ & ->). apply repair_spacing_spaced.
  apply in_or_app. right. now left.
Qed.

Lemma validated_well_formed (current_color : pyval) (m : str) :
  well_formed_move m -> validated_or_fallback current_color m = m.
Proof.
  intros Hm. unfold validated_or_fallback. rewrite validate_well_formed by assumption.
  destruct Hm as (f & t & Hf & _ & ->).
  destruct (position_solid f Hf) as [Hne _]. destruct f; [congruence | reflexivity].
Qed.

Lemma get_llm_move_cases (now : clock) (phase : request_phase)
  (current_color : pyval) (mem : agent_memory) :
  fst (get_llm_move U now phase current_color mem)
  = match phase with
    | Failed _ => fixed_fallback current_color
    | Replied r =>
        match candidate U current_color r with
        | Ret found =>
            if loggable (reply_usage r)
            then validated_or_fallback current_color (fst found)
            else fixed_fallback current_color
        | Raise _ => fixed_fallback current_color
        end
    end.
Proof.
  unfold get_llm_move, cascade. destruct phase as [e|r]; [reflexivity|].
  destruct (candidate U current_color r) as [found|e]; [|reflexivity].
  cbn [bind fst snd].
  destruct (loggable (reply_usage r)) eqn:L.
  - destruct (remember_loggable now current_color r
                (validated_or_fallback current_color (fst found)) (snd found)
                (mark_start now mem) L) as (counted & ->).
    reflexivity.
  - destruct (remember_not_loggable now current_color r
                (validated_or_fallback current_color (fst found)) (snd found)
                (mark_start now mem) L) as (e & ->).
    reflexivity.
Qed.

Lemma candidate_of_move (current_color : pyval) (r : reply)
  (reasoning_text : json) (final_move : str) :
  extract U r = Ret (reasoning_text, Some final_move) -> final_move <> [] ->
  candidate U current_color r
  = Ret (repair_spacing (unwrap U final_move), reasoning_text).
Proof.
  intros He Hn. unfold candidate. rewrite He. cbn [bind].
  destruct final_move; [congruence | reflexivity].
Qed.


(** *** Every request gets a move *)

Lemma fixed_fallback_cases (current_color : pyval) :
  fixed_fallback current_color = lit "BA2 BA3"
  \/ fixed_fallback current_color = lit "RA2 RA3"
  \/ fixed_fallback current_color = lit "GA2 GA3".
Proof.
  destruct current_color as [|z|c]; simpl; auto.
  destruct (str_eqb c (lit "BLUE")); auto.
  destruct (str_eqb c (lit "RED")); auto.
Qed.

Lemma fixed_fallback_well_formed (current_color : pyval) :
  well_formed_move (fixed_fallback current_color).
Proof.
  destruct (fixed_fallback_cases current_color) as [-> | [-> | ->]].
  - apply (sample_move_well_formed "BA2" "BA3"); vm_compute; tauto.
  - apply (sample_move_well_formed "RA2" "RA3"); vm_compute; tauto.
  - apply (sample_move_well_formed "GA2" "GA3"); vm_compute; tauto.
Qed.

Lemma fixed_fallback_green (current_color : pyval) :
  current_color <> PyStr (lit "BLUE") -> current_color <> PyStr (lit "RED") ->
  fixed_fallback current_color = lit "GA2 GA3".
Proof.
  intros Hb Hr. destruct current_color as [|z|c]; try reflexivity. simpl.
  destruct (str_eqb c (lit "BLUE")) eqn:Eb.
  { apply str_eqb_eq in Eb. congruence. }
  destruct (str_eqb c (lit "RED")) eqn:Er.
  { apply str_eqb_eq in Er. congruence. }
  reflexivity.
Qed.

Lemma well_formed_nonempty (m : str) : well_formed_move m -> m <> [].
Proof.
  intros (f & t & Hf & _ & ->). destruct (position_solid f Hf) as [Hne _].
  destruct f; [congruence | discriminate].
Qed.

Lemma validated_or_fallback_cases (current_color : pyval) (found : str) :
  (validate_and_process_move (PyStr found) None = None
   /\ validated_or_fallback current_color found = fixed_fallback current_color)
  \/ (exists v, validate_and_process_move (PyStr found) None = Some v
                /\ validated_or_fallback current_color found = v
                /\ validate_and_process_move (PyStr v) None = Some v).
Proof.
  unfold validated_or_fallback.
  destruct (validate_and_process_move (PyStr found) None) as [v|] eqn:E; [right | now left].
  exists v. apply validate_some_inv in E
    as (Ev & f & gap & t & Hf & Ht & Hg & Hgn & E).
  rewrite E in Ev. subst v.
  destruct (position_solid f Hf) as [Hne _].
  split; [reflexivity | split].
  - destruct f; [congruence | reflexivity].
  - pose proof (validate_two_tokens [] f gap t []) as H.
    rewrite app_nil_r in H. apply H; auto; constructor.
Qed.

Lemma exhausted_reasoning (current_color : pyval) (reasoning_text : str) :
  no_move_yet (move_from_reasoning U reasoning_text) = true ->
  no_move_yet (move_from_list U pair_of piece_patterns reasoning_text) = true ->
  no_move_yet (move_from_list U quad_of color_position_patterns reasoning_text) = true ->
  no_move_yet (move_from_proximity U reasoning_text) = true ->
  reasoning_stage U current_color (JStr reasoning_text) = Ret (fixed_fallback current_color).
Proof.
  intros H1 H2 H3 H4. unfold reasoning_stage. cbv zeta. rewrite H1, H2, H3.
  destruct (move_from_proximity U reasoning_text) as [[|c m]|]; try reflexivity.
  discriminate.
Qed.

Lemma candidate_of_fallback (current_color : pyval) (r : reply)
  (reasoning_text : json) (nothing : option str) :
  extract U r = Ret (reasoning_text, nothing) -> no_move_yet nothing = true ->
  reasoning_stage U current_color reasoning_text = Ret (fixed_fallback current_color) ->
  candidate U current_color r = Ret (fixed_fallback current_color, reasoning_text).
Proof.
  intros He Hn Hr. unfold candidate. rewrite He. cbn [bind].
  assert (E : match nothing with
              | None | Some [] => reasoning_stage U current_color reasoning_text
              | Some m => Ret m
              end = Ret (fixed_fallback current_color)).
  { destruct nothing as [[|c m]|]; try assumption. discriminate. }
  rewrite E. cbn [bind].
  rewrite unwrap_well_formed, repair_well_formed
    by apply fixed_fallback_well_formed.
  reflexivity.
Qed.

(** C1.  Whatever the request phase and the mover colour, [get_llm_move]
    returns a non-empty move string that the parser accepts.  It is the
    fixed opening move of the colour when the request phase or the cascade
    raises, when the text handed to the parser is rejected by it, and when
    no stage finds a move.  Otherwise the cascade gives what the parser made
    of the extracted text, and [get_llm_move] returns that when the usage of
    the reply can be logged (and the fixed move when logging raises).  The
    fixed move is "BA2 BA3" for BLUE, "RA2 RA3" for RED and "GA2 GA3" for
    GREEN. *)
Theorem get_llm_move_always_answers (now : clock) (phase : request_phase)
  (current_color : pyval) (mem : agent_memory) :
  let answer := fst (get_llm_move U now phase current_color mem) in
  answer <> []
  /\ validate_and_process_move (PyStr answer) None = Some answer
  /\ (forall e, phase = Failed e -> answer = fixed_fallback current_color)
  /\ (forall r e, phase = Replied r -> cascade U current_color r = Raise e ->
                  answer = fixed_fallback current_color)
  /\ (forall r found reasoning_text,
        phase = Replied r ->
        candidate U current_color r = Ret (found, reasoning_text) ->
        validate_and_process_move (PyStr found) None = None ->
        answer = fixed_fallback current_color)
  /\ (forall r found reasoning_text v,
        phase = Replied r ->
        candidate U current_color r = Ret (found, reasoning_text) ->
        validate_and_process_move (PyStr found) None = Some v ->
        cascade U current_color r = Ret (v, reasoning_text)
        /\ (loggable (reply_usage r) = true -> answer = v)
        /\ (loggable (reply_usage r) = false ->
            answer = fixed_fallback current_color))
  /\ (forall r reasoning_text nothing,
        phase = Replied r ->
        extract U r = Ret (JStr reasoning_text, nothing) ->
        no_move_yet nothing = true ->
        no_move_yet (move_from_reasoning U reasoning_text) = true ->
        no_move_yet (move_from_list U pair_of piece_patterns reasoning_text) = true ->
        no_move_yet (move_from_list U quad_of color_position_patterns reasoning_text) = true ->
        no_move_yet (move_from_proximity U reasoning_text) = true ->
        answer = fixed_fallback current_color)
  /\ fixed_fallback (PyStr (lit "BLUE")) = lit "BA2 BA3"
  /\ fixed_fallback (PyStr (lit "RED")) = lit "RA2 RA3"
  /\ fixed_fallback (PyStr (lit "GREEN")) = lit "GA2 GA3".
Proof.
  intros answer. subst answer. rewrite get_llm_move_cases.
  pose proof (fixed_fallback_well_formed current_color) as W.
  assert (Accepted : forall found,
             validated_or_fallback current_color found <> []
             /\ validate_and_process_move
                  (PyStr (validated_or_fallback current_color found)) None
                = Some (validated_or_fallback current_color found)).
  { intros found.
    destruct (validated_or_fallback_cases current_color found)
      as [(_ & ->) | (v & _ & -> & Hv)].
    - split; [now apply well_formed_nonempty | now apply validate_well_formed].
    - split; [|assumption]. intros ->. discriminate Hv. }
  split; [|split; [|split; [|split; [|split; [|split; [|split]]]]]].
  - destruct phase as [e|r]; [now apply well_formed_nonempty|].
    destruct (candidate U current_color r) as [found|e];
      [|now apply well_formed_nonempty].
    destruct (loggable (reply_usage r));
      [apply Accepted | now apply well_formed_nonempty].
  - destruct phase as [e|r]; [now apply validate_well_formed|].
    destruct (candidate U current_color r) as [found|e];
      [|now apply validate_well_formed].
    destruct (loggable (reply_usage r));
      [apply Accepted | now apply validate_well_formed].
  - now intros e ->.
  - intros r e -> H. unfold cascade in H.
    destruct (candidate U current_color r); [discriminate | reflexivity].
  - intros r found rt -> Hc Hv. rewrite Hc. cbn [fst].
    unfold validated_or_fallback. rewrite Hv.
    now destruct (loggable (reply_usage r)).
  - intros r found rt v -> Hc Hv. rewrite Hc. cbn [fst].
    assert (E : validated_or_fallback current_color found = v).
    { destruct (validated_or_fallback_cases current_color found)
        as [(E & _) | (v' & E & <- & _)]; congruence. }
    rewrite E. split.
    + unfold cascade. rewrite Hc. cbn [bind fst snd]. now rewrite E.
    + split; intros ->; reflexivity.
  - intros r rt nothing -> He Hn H1 H2 H3 H4.
    rewrite (candidate_of_fallback current_color r (JStr rt) nothing He Hn)
      by now apply exhausted_reasoning.
    cbn [fst]. rewrite validated_well_formed by exact W.
    now destruct (loggable (reply_usage r)).
  - repeat split.
Qed.

End CascadeFacts.

(** ** The fixed move of a colour that is neither BLUE nor RED *)

Section FallbackFacts.
Variable U : unicode_db.

Lemma default_reasoning_exhausted (current_color : pyval) :
  reasoning_stage U current_color (JStr DEFAULT_REASONING)
  = Ret (fixed_fallback current_color).
Proof. vm_compute. reflexivity. Qed.

Lemma empty_reply_candidate (current_color : pyval) (r : reply) :
  tool_calls r = None -> content r = None ->
  candidate U current_color r
  = Ret (fixed_fallback current_color, JStr DEFAULT_REASONING).
Proof.
  intros Ht Hc.
  apply (candidate_of_fallback U current_color r (JStr DEFAULT_REASONING) None).
  - unfold extract. rewrite Ht, Hc. reflexivity.
  - reflexivity.
  - apply default_reasoning_exhausted.
Qed.

Lemma checked_move_of_fallback (current_color : pyval) (returned : option str) :
  no_move_yet returned = true ->
  checked_move U current_color returned = fixed_fallback current_color.
Proof.
  intros H.
  assert (E : checked_move U current_color returned
              = checked_move U current_color (Some (fixed_fallback current_color))).
  { destruct returned as [[|c m]|]; try discriminate; unfold checked_move;
      pose proof (well_formed_nonempty _ (fixed_fallback_well_formed current_color));
      destruct (fixed_fallback current_color); congruence. }
  rewrite E. apply checked_move_well_formed, fixed_fallback_well_formed.
Qed.

(** C10.  With a colour that is neither "BLUE" nor "RED" (the empty string,
    an unknown name, a value that is not a string), each fixed-fallback
    branch yields "GA2 GA3": when the cascade finds nothing, when the parser
    rejects the extracted text, when something raises, and in the two checks
    of the [/get-move] handler. *)
Theorem other_colors_get_green (now : clock) (current_color : pyval)
  (mem : agent_memory) :
  current_color <> PyStr (lit "BLUE") ->
  current_color <> PyStr (lit "RED") ->
  fixed_fallback current_color = lit "GA2 GA3"
  /\ (forall r, tool_calls r = None -> content r = None ->
        fst (get_llm_move U now (Replied r) current_color mem) = lit "GA2 GA3")
  /\ (forall r found reasoning_text,
        candidate U current_color r = Ret (found, reasoning_text) ->
        validate_and_process_move (PyStr found) None = None ->
        fst (get_llm_move U now (Replied r) current_color mem) = lit "GA2 GA3")
  /\ (forall e, fst (get_llm_move U now (Failed e) current_color mem) = lit "GA2 GA3")
  /\ (forall r e, cascade U current_color r = Raise e ->
        fst (get_llm_move U now (Replied r) current_color mem) = lit "GA2 GA3")
  /\ checked_move U current_color None = lit "GA2 GA3"
  /\ checked_move U current_color (Some []) = lit "GA2 GA3"
  /\ (forall returned,
        validate_and_process_move
          (PyStr match sentinel_move U returned with
                 | Some inner => inner
                 | None => returned
                 end) None = None ->
        checked_move U current_color (Some returned) = lit "GA2 GA3").
Proof.
  intros Hb Hr. pose proof (fixed_fallback_green current_color Hb Hr) as G.
  split; [exact G|]. rewrite <- G.
  split; [|split; [|split; [|split; [|split; [|split]]]]].
  - intros r Ht Hc. rewrite get_llm_move_cases, empty_reply_candidate by assumption.
    cbn [fst]. rewrite validated_well_formed by apply fixed_fallback_well_formed.
    now destruct (loggable (reply_usage r)).
  - intros r found rt Hc Hv. rewrite get_llm_move_cases, Hc. cbn [fst].
    unfold validated_or_fallback. rewrite Hv.
    now destruct (loggable (reply_usage r)).
  - intros e. now rewrite get_llm_move_cases.
  - intros r e H. rewrite get_llm_move_cases. unfold cascade in H.
    destruct (candidate U current_color r); [discriminate | reflexivity].
  - now apply checked_move_of_fallback.
  - now apply checked_move_of_fallback.
  - intros [|c m] H; [now apply checked_move_of_fallback|].
    unfold checked_move. now rewrite H.
Qed.

(** ** The memory log *)

Lemma get_llm_move_appends (now : clock) (phase : request_phase)
  (current_color : pyval) (mem : agent_memory) :
  exists new,
    moves (snd (get_llm_move U now phase current_color mem)) = moves mem ++ new
    /\ all_marked_valid new /\ (List.length new <= 1)%nat.
Proof.
  assert (M : moves (mark_start now mem) = moves mem).
  { unfold mark_start. now destruct (start_time mem). }
  unfold get_llm_move. destruct phase as [e|r].
  - exists []. simpl. rewrite M, app_nil_r.
    split; [reflexivity | split; [constructor | simpl; lia]].
  - destruct (cascade U current_color r) as [[m rt]|e]; cbn [bind fst snd].
    + destruct (loggable (reply_usage r)) eqn:L.
      * destruct (remember_loggable now current_color r m rt (mark_start now mem) L)
          as (counted & ->).
        cbn [bind snd]. unfold log_request. cbn [moves].
        eexists. rewrite M. split; [reflexivity|].
        split; [repeat constructor | simpl; lia].
      * destruct (remember_not_loggable now current_color r m rt
                    (mark_start now mem) L) as (e & ->).
        cbn [bind snd]. exists []. rewrite M, app_nil_r.
        split; [reflexivity | split; [constructor | simpl; lia]].
    + exists []. rewrite M, app_nil_r.
      split; [reflexivity | split; [constructor | simpl; lia]].
Qed.

Lemma serve_appends (mem : agent_memory) (q : request) :
  exists new,
    moves (serve U mem q) = moves mem ++ new
    /\ all_marked_valid new /\ (List.length new <= 1)%nat.
Proof.
  destruct q as [now phase current_color | |]; simpl.
  - unfold get_move.
    destruct (get_llm_move_appends now phase current_color mem) as (new & E & H).
    destruct (get_llm_move U now phase current_color mem) as [returned mem'].
    simpl in *. eauto.
  - exists []. rewrite app_nil_r.
    split; [reflexivity | split; [constructor | simpl; lia]].
  - exists []. rewrite app_nil_r.
    split; [reflexivity | split; [constructor | simpl; lia]].
Qed.

Lemma memory_after_valid (requests : list request) : forall mem,
  all_marked_valid (moves mem) ->
  all_marked_valid (moves (fold_left (serve U) requests mem)).
Proof.
  induction requests as [|q requests IH]; intros mem H; simpl; [assumption|].
  apply IH. destruct (serve_appends mem q) as (new & -> & Hn & _).
  apply Forall_app. now split.
Qed.

Lemma filter_all_valid (l : list move_data) : all_marked_valid l -> filter valid l = l.
Proof.
  induction 1 as [|m l Hm _ IH]; simpl; [reflexivity|]. now rewrite Hm, IH.
Qed.

Lemma full_percentage (n : Z) : (1 <= n)%Z ->
  (inject_Z n / inject_Z (Z.max 1 n) * 100 == 100)%Q.
Proof.
  intros H. rewrite Z.max_r by assumption.
  assert (N : ~ (inject_Z n == 0)%Q).
  { unfold Qeq, inject_Z. simpl. lia. }
  field. exact N.
Qed.

(** C9.  After any run of requests every logged move carries [valid = True]:
    a request appends at most one record, marked valid, and changes no
    earlier one; so the statistics of [/agent-memory] count every move as
    valid, report no invalid move, and give 100 percent as soon as one move
    is logged. *)
Theorem logged_moves_all_valid (requests : list request) :
  let mem := memory_after U requests in
  all_marked_valid (moves mem)
  /\ (forall q, exists new,
        moves (serve U mem q) = moves mem ++ new
        /\ all_marked_valid new /\ (List.length new <= 1)%nat)
  /\ valid_moves (validity (agent_memory_stats mem)) = total_moves (agent_memory_stats mem)
  /\ invalid_moves (validity (agent_memory_stats mem)) = 0%Z
  /\ (moves mem <> [] ->
      (validity_percentage (validity (agent_memory_stats mem)) == 100)%Q).
Proof.
  intros mem.
  assert (V : all_marked_valid (moves mem)).
  { apply memory_after_valid. constructor. }
  split; [exact V|]. split; [intros q; apply serve_appends|].
  unfold agent_memory_stats, validity_stats. simpl.
  rewrite (filter_all_valid _ V). split; [reflexivity|]. split; [lia|].
  intros Hne. apply full_percentage. unfold Zlen.
  destruct (moves mem); [congruence | simpl; lia].
Qed.
End FallbackFacts.

(** ** The provider call *)

Section ProviderFacts.
Variable U : unicode_db.
Variable value : Type.
Variable repr : str -> str.
Variable repeated_keyword : str -> str.
Variable environ : str -> option str.
Variable provider_api :
  Provider.network_call value -> Provider.outcome (option str).

Lemma strip_blank (s : str) : blank s -> strip s = [].
Proof.
  intros H. unfold strip, rstrip. rewrite (lstrip_blank s H). reflexivity.
Qed.

Lemma attempt_without_key (messages : list Provider.message) (provider : str)
  (model system_message : option str) (max_tokens : option Z)
  (additional_params : option (list (str * value))) :
  environ (upper U provider ++ lit "_API_KEY") = None
  \/ (exists v, environ (upper U provider ++ lit "_API_KEY") = Some v /\ blank v) ->
  Provider.attempt U value repr repeated_keyword environ provider_api messages provider model
    system_message max_tokens additional_params
  = (Provider.Raised (lit "No API key found for " ++ provider), []).
Proof.
  intros H. unfold Provider.attempt, Provider.get_api_key.
  destruct H as [-> | (v & -> & Hv)]; [reflexivity|].
  rewrite (strip_blank v Hv). change (str_eqb [] []) with true.
  rewrite orb_true_r. reflexivity.
Qed.

Lemma attempt_calls (messages : list Provider.message) (provider : str)
  (model system_message : option str) (max_tokens : option Z)
  (additional_params : option (list (str * value))) :
  snd (Provider.attempt U value repr repeated_keyword environ provider_api messages provider model
         system_message max_tokens additional_params) = []
  \/ exists call,
       Provider.attempt U value repr repeated_keyword environ provider_api messages provider model
         system_message max_tokens additional_params
       = (provider_api call, [call]).
Proof.
  unfold Provider.attempt.
  repeat match goal with
         | |- context [if ?b then _ else _] => destruct b
         | |- context [match ?x with _ => _ end] => destruct x
         end; simpl; eauto.
Qed.

(** C8.  When the API-key variable of the provider is unset, or holds an
    empty or whitespace-only value, the call raises an error whose message
    names the provider, and no call to a provider has been made.  Whatever
    raises inside the function, a failing provider call included, comes out
    as an error whose message starts with "Error calling <provider> LLM: ",
    followed by the text of the original error. *)
Theorem provider_errors_are_wrapped (messages : list Provider.message)
  (provider : str) (model system_message : option str) (max_tokens : option Z)
  (additional_params : option (list (str * value))) :
  let run :=
    Provider.one_function_to_call_them_all U value repr repeated_keyword environ provider_api
      messages provider model system_message max_tokens additional_params in
  let key := environ (upper U provider ++ lit "_API_KEY") in
  let context := lit "Error calling " ++ provider ++ lit " LLM: " in
  ((key = None \/ exists v, key = Some v /\ blank v) ->
   run = (Provider.Raised (context ++ lit "No API key found for " ++ provider), []))
  /\ (forall call e,
        snd run = [call] -> provider_api call = Provider.Raised e ->
        fst run = Provider.Raised (context ++ e))
  /\ (forall message,
        fst run = Provider.Raised message -> exists e, message = context ++ e)
  /\ (snd run = [] \/ exists call, snd run = [call]).
Proof.
  intros run key context. subst run key context.
  unfold Provider.one_function_to_call_them_all.
  split; [|split; [|split]].
  - intros H. rewrite attempt_without_key by assumption.
    now rewrite <- !app_assoc.
  - intros call e Hc He.
    destruct (attempt_calls messages provider model system_message max_tokens
                additional_params) as [E | (call' & E)].
    + destruct (Provider.attempt _ _ _ _ _ _ _ _ _ _ _) as [[t|m] calls];
        simpl in *; congruence.
    + rewrite E in *.
      destruct (provider_api call') as [t|m] eqn:P; cbn [fst snd] in *;
        injection Hc as ->; rewrite P in He;
        [discriminate | injection He as ->; now rewrite <- !app_assoc].
  - intros message H.
    destruct (Provider.attempt _ _ _ _ _ _ _ _ _ _ _) as [[t|m] calls];
      simpl in H; [discriminate|]. injection H as <-. exists m.
    now rewrite <- !app_assoc.
  - destruct (attempt_calls messages provider model system_message max_tokens
                additional_params) as [E | (call' & E)].
    + left. destruct (Provider.attempt _ _ _ _ _ _ _ _ _ _ _) as [[t|m] calls];
        simpl in *; assumption.
    + right. exists call'. rewrite E. now destruct (provider_api call').
Qed.
End ProviderFacts.

(** ** The theorems at concrete inputs *)

Lemma is_valid_position_fails_closed_witness :
  is_valid_position (PyStr (lit "GC4")) = true.
Proof.
  apply (proj1 (is_valid_position_fails_closed (PyStr (lit "GC4")))).
  exists (lit "GC4"). split; [reflexivity|].
  exists 71%N, 67%N, 52%N. cbn. tauto.
Defined.

Lemma move_parser_accepts_exactly_witness :
  validate_and_process_move (PyStr (lit "  RA2 RA3 ")) None = Some (lit "RA2 RA3").
Proof.
  apply (proj1 (proj2 (move_parser_accepts_exactly (lit "  RA2 RA3 ")))).
  apply (sample_move_well_formed "RA2" "RA3"); vm_compute; tauto.
Defined.

Lemma get_llm_move_always_answers_witness :
  fst (get_llm_move ascii_only sample_clock
         (Replied (sample_reply None (Some (lit "I resign."))))
         (PyStr (lit "RED")) AGENT_MEMORY)
  = lit "RA2 RA3".
Proof.
  destruct (get_llm_move_always_answers ascii_only sample_clock
              (Replied (sample_reply None (Some (lit "I resign."))))
              (PyStr (lit "RED")) AGENT_MEMORY)
    as (_ & _ & _ & _ & H & _).
  apply (H (sample_reply None (Some (lit "I resign."))) (lit "I resign.")
           (JStr DEFAULT_REASONING)); reflexivity.
Defined.

(** The examples of the specification for the cascade. *)
Example cascade_examples :
  fst (get_llm_move ascii_only sample_clock
         (Replied (sample_reply None
                     (Some (lit "I will play RA2 RA3 to develop my pawn"))))
         (PyStr (lit "RED")) AGENT_MEMORY) = lit "RA2 RA3"
  /\ fst (get_llm_move ascii_only sample_clock
            (Replied (sample_reply None (Some (lit "Let me think about it."))))
            (PyStr (lit "BLUE")) AGENT_MEMORY) = lit "BA2 BA3"
  /\ fst (get_llm_move ascii_only sample_clock
            (Replied (sample_reply None None))
            (PyStr (lit "GREEN")) AGENT_MEMORY) = lit "GA2 GA3"
  /\ fst (get_llm_move ascii_only sample_clock
            (Replied (sample_reply (Some [decide_move (lit "GB1 GC3")]) None))
            (PyStr (lit "GREEN")) AGENT_MEMORY) = lit "GB1 GC3"
  /\ fst (get_llm_move ascii_only sample_clock (Failed OtherError)
            (PyStr (lit "RED")) AGENT_MEMORY) = lit "RA2 RA3".
Proof. repeat split. Qed.


(** What lines 830 and 916 do to a good move.  The first reply gives no
    count of reasoning tokens: the cascade accepts its move, line 830 raises,
    BLUE gets its fixed move and nothing is logged.  The analysis of the
    second reply is a number: its move is returned and logged, and the
    handler raises on the length of the reasoning. *)
Example logging_examples :
  cascade ascii_only (PyStr (lit "BLUE")) uncounted_reply
  = Ret (lit "BC2 BC4", JStr DEFAULT_REASONING)
  /\ get_llm_move ascii_only sample_clock (Replied uncounted_reply)
       (PyStr (lit "BLUE")) AGENT_MEMORY
     = (lit "BA2 BA3", mark_start sample_clock AGENT_MEMORY)
  /\ fst (get_move ascii_only sample_clock (Replied uncounted_reply)
            (PyStr (lit "BLUE")) AGENT_MEMORY)
     = Body (lit "BA2 BA3") (JStr (lit "No reasoning available"))
  /\ fst (get_llm_move ascii_only sample_clock (Replied numbered_think_reply)
            (PyStr (lit "GREEN")) AGENT_MEMORY)
     = lit "GB1 GC3"
  /\ map move (moves (snd (get_move ascii_only sample_clock
                             (Replied numbered_think_reply)
                             (PyStr (lit "GREEN")) AGENT_MEMORY)))
     = [lit "GB1 GC3"]
  /\ fst (get_move ascii_only sample_clock (Replied numbered_think_reply)
            (PyStr (lit "GREEN")) AGENT_MEMORY)
     = InternalServerError.
Proof. repeat split. Qed.


Lemma well_formed_content_unchanged_witness :
  cascade ascii_only (PyStr (lit "BLUE")) (sample_reply None (Some (lit "BC2 BC4")))
  = Ret (lit "BC2 BC4", JStr DEFAULT_REASONING)
  /\ fst (get_llm_move ascii_only sample_clock
            (Replied (sample_reply None (Some (lit "BC2 BC4"))))
            (PyStr (lit "BLUE")) AGENT_MEMORY)
     = lit "BC2 BC4"
  /\ fst (get_move ascii_only sample_clock
            (Replied (sample_reply None (Some (lit "BC2 BC4"))))
            (PyStr (lit "BLUE")) AGENT_MEMORY)
     = Body (lit "BC2 BC4") (JStr DEFAULT_REASONING).
Proof.
  assert (W : well_formed_move (lit "BC2 BC4")).
  { apply (sample_move_well_formed "BC2" "BC4"); vm_compute; tauto. }
  destruct (well_formed_content_unchanged ascii_only sample_clock (PyStr (lit "BLUE"))
              AGENT_MEMORY (sample_reply None (Some (lit "BC2 BC4"))) (lit "BC2 BC4")
              W eq_refl (or_introl eq_refl))
    as (C & _ & G).
  split; [exact C | exact (G eq_refl)].
Defined.

Lemma other_colors_get_green_witness :
  fixed_fallback (PyStr []) = lit "GA2 GA3"
  /\ fst (get_llm_move ascii_only sample_clock (Failed OtherError) (PyStr [])
            AGENT_MEMORY) = lit "GA2 GA3"
  /\ checked_move ascii_only (PyStr []) None = lit "GA2 GA3".
Proof.
  assert (B : PyStr [] <> PyStr (lit "BLUE")) by discriminate.
  assert (R : PyStr [] <> PyStr (lit "RED")) by discriminate.
  destruct (other_colors_get_green ascii_only sample_clock (PyStr []) AGENT_MEMORY B R)
    as (H1 & _ & _ & H2 & _ & H3 & _).
  split; [exact H1 | split; [exact (H2 OtherError) | exact H3]].
Defined.

Example other_colors_examples :
  fixed_fallback (PyStr (lit "YELLOW")) = lit "GA2 GA3"
  /\ fixed_fallback (PyStr (lit "blue")) = lit "GA2 GA3"
  /\ fixed_fallback PyNone = lit "GA2 GA3"
  /\ fst (get_llm_move ascii_only sample_clock
            (Replied (sample_reply None (Some (lit "no move here"))))
            (PyStr (lit "YELLOW")) AGENT_MEMORY) = lit "GA2 GA3".
Proof. repeat split. Qed.

(** A reply whose text the parser rejected is logged as a valid move all the
    same. *)
Definition rejected_then_logged : list request :=
  [ PostGetMove sample_clock (Replied (sample_reply None (Some (lit "I resign."))))
      (PyStr (lit "RED"));
    GetAgentMemory;
    PostGetMove sample_clock (Failed OtherError) (PyStr (lit "BLUE")) ].

Lemma logged_moves_all_valid_witness :
  (validity_percentage
     (validity (agent_memory_stats (memory_after ascii_only rejected_then_logged)))
   == 100)%Q
  /\ map valid (moves (memory_after ascii_only rejected_then_logged)) = [true]
  /\ map move (moves (memory_after ascii_only rejected_then_logged)) = [lit "RA2 RA3"].
Proof.
  split; [|split; reflexivity].
  apply (logged_moves_all_valid ascii_only rejected_then_logged). discriminate.
Defined.

Lemma provider_errors_are_wrapped_witness :
  Provider.one_function_to_call_them_all ascii_only unit plain_repr plain_repeated no_keys
    refusing_api hello (lit "openai") (Some (lit "gpt-4o")) None None None
  = (Provider.Raised (lit "Error calling openai LLM: No API key found for openai"), []).
Proof.
  apply (provider_errors_are_wrapped ascii_only unit plain_repr plain_repeated no_keys refusing_api
           hello (lit "openai") (Some (lit "gpt-4o")) None None None).
  now left.
Defined.

Example provider_examples :
  Provider.one_function_to_call_them_all ascii_only unit plain_repr plain_repeated blank_openai_key
    refusing_api hello (lit "openai") (Some (lit "gpt-4o")) None None None
  = (Provider.Raised (lit "Error calling openai LLM: No API key found for openai"), [])
  /\ Provider.one_function_to_call_them_all ascii_only unit plain_repr plain_repeated openai_key_only
       refusing_api hello (lit "openai") (Some (lit "gpt-4o")) None None None
     = (Provider.Raised (lit "Error calling openai LLM: Connection error."),
        [ Provider.OpenAICreate unit (lit "sk-test") (Some (lit "https://api.openai.com/v1"))
            [ (lit "model", Provider.PStr unit (lit "gpt-4o"));
              (lit "messages", Provider.PMessages unit hello) ] ])
  /\ Provider.one_function_to_call_them_all ascii_only unit plain_repr plain_repeated openai_key_only
       refusing_api hello (lit "mistral") (Some (lit "gpt-4o")) None None None
     = (Provider.Raised (lit "Error calling mistral LLM: No API key found for mistral"), []).
Proof. repeat split. Qed.

(* ================================================================== *)
(** * Further properties of the code *)

(** ** The parser *)

(** X1.  What the parser returns is a fixed point of the parser: it is
    non-empty, has no blank margin, and parsing it again returns it as it
    is. *)
Theorem parser_output_is_stable (s r : str) :
  validate_and_process_move (PyStr s) None = Some r ->
  r <> [] /\ strip r = r /\ validate_and_process_move (PyStr r) None = Some r.
Proof.
  intros H. apply validate_some_inv in H as (Er & f & gap & t & Hf & Ht & Hg & Hgn & E).
  rewrite E in Er. subst r.
  destruct (position_solid f Hf) as [Hfn Hfs].
  destruct (position_solid t Ht) as [Htn Hts].
  split; [|split].
  - destruct f; [congruence | discriminate].
  - pose proof (strip_two_tokens [] f gap t []) as S.
    rewrite app_nil_r in S. apply S; auto; constructor.
  - pose proof (validate_two_tokens [] f gap t []) as V.
    rewrite app_nil_r in V. apply V; auto; constructor.
Qed.

Lemma parser_output_is_stable_witness :
  strip (lit "RA2  RA3") = lit "RA2  RA3"
  /\ validate_and_process_move (PyStr (lit "RA2  RA3")) None = Some (lit "RA2  RA3").
Proof.
  assert (H : validate_and_process_move (PyStr (lit " RA2  RA3 ")) None
              = Some (lit "RA2  RA3")) by reflexivity.
  destruct (parser_output_is_stable _ _ H) as (_ & H1 & H2). now split.
Defined.

Lemma validate_outcome_str (s : str) (legal_moves : option (list str)) :
  validate_and_process_move (PyStr s) legal_moves
  = match validate_and_process_move (PyStr s) None, legal_moves with
    | Some r, Some ((_ :: _) as legal) => if str_in r legal then Some r else None
    | parsed_move, _ => parsed_move
    end.
Proof.
  unfold validate_and_process_move, validate_outcome, validate_try. cbn [py_strip bind].
  destruct (split (strip s)) as [|f [|t [|x l]]]; try (now destruct legal_moves as [[|? ?]|]).
  destruct (negb (is_valid_position (PyStr f)) || negb (is_valid_position (PyStr t)));
    [now destruct legal_moves as [[|? ?]|]|].
  destruct legal_moves as [[|l0 legal]|]; try reflexivity.
  cbn [parsed]. now destruct (str_in (strip s) (l0 :: legal)).
Qed.

(** X2.  With a non-empty list of legal moves the parser returns a move
    exactly when it would return it without the list and the move is in the
    list; an empty list switches the check off, like no list at all. *)
Theorem legal_list_only_filters (s : str) (legal : list str) :
  (legal <> [] ->
   forall r, validate_and_process_move (PyStr s) (Some legal) = Some r
             <-> validate_and_process_move (PyStr s) None = Some r /\ In r legal)
  /\ validate_and_process_move (PyStr s) (Some [])
     = validate_and_process_move (PyStr s) None.
Proof.
  split.
  - intros Hl r. rewrite validate_outcome_str.
    destruct (validate_and_process_move (PyStr s) None) as [r'|];
      [|split; [discriminate | intros [H _]; discriminate]].
    destruct legal as [|l0 legal]; [congruence|].
    destruct (str_in r' (l0 :: legal)) eqn:E.
    + apply str_in_In in E. split.
      * intros H. injection H as <-. now split.
      * now intros [H _].
    + apply str_in_false in E. split; [discriminate|].
      intros [H Hin]. injection H as ->. contradiction.
  - rewrite validate_outcome_str.
    now destruct (validate_and_process_move (PyStr s) None).
Qed.

Lemma legal_list_only_filters_witness :
  validate_and_process_move (PyStr (lit " RB1 RC3 ")) (Some sample_legal_moves)
  = Some (lit "RB1 RC3").
Proof.
  assert (L : sample_legal_moves <> []) by discriminate.
  apply (proj1 (legal_list_only_filters (lit " RB1 RC3 ") sample_legal_moves) L).
  split; [reflexivity|]. right. now left.
Defined.

(** X3.  The closest move is always one of the legal moves: it is computed
    whenever the move text and the list are both non-empty, and is [None]
    otherwise. *)
Theorem closest_move_is_a_legal_move (m : str) (legal : list str) :
  (m = [] \/ legal = [] -> find_closest_legal_move m legal = None)
  /\ (m <> [] -> legal <> [] ->
      exists l, find_closest_legal_move m legal = Some l /\ In l legal).
Proof.
  unfold find_closest_legal_move. split.
  - intros [-> | ->]; [reflexivity | now destruct m].
  - intros Hm Hl. destruct m as [|c m]; [congruence|].
    destruct legal as [|first legal]; [congruence|].
    destruct (split (c :: m)) as [|from_pos toks].
    + exists first. split; [reflexivity | now left].
    + destruct (filter (fun move => startswith move from_pos) (first :: legal))
        as [|l ls] eqn:E.
      * exists first. split; [reflexivity | now left].
      * exists l. split; [reflexivity|].
        assert (In l (l :: ls)) as Hin by now left.
        rewrite <- E in Hin. now apply filter_In in Hin.
Qed.

Lemma closest_move_is_a_legal_move_witness :
  exists l, find_closest_legal_move (lit "GA1 GA2") sample_legal_moves = Some l
            /\ In l sample_legal_moves.
Proof.
  apply (proj2 (closest_move_is_a_legal_move (lit "GA1 GA2") sample_legal_moves));
    discriminate.
Defined.

(** ** The spacing repair, again *)

(** X4.  The repair is idempotent, and it either leaves the text alone or
    turns six characters into seven by one space in the middle; it never
    removes or reorders a character. *)
Theorem repair_spacing_idempotent (s : str) :
  repair_spacing (repair_spacing s) = repair_spacing s
  /\ (repair_spacing s = s
      \/ (List.length s = 6%nat
          /\ repair_spacing s = firstn 3 s ++ SPACE ++ skipn 3 s
          /\ remove_char 32 (repair_spacing s) = s)).
Proof.
  assert (Cases : repair_spacing s = s
                  \/ (List.length s = 6%nat /\ ~ In 32%N s
                      /\ repair_spacing s = firstn 3 s ++ SPACE ++ skipn 3 s)).
  { unfold repair_spacing. destruct s as [|c s]; [now left|].
    destruct (contains (c :: s) SPACE) eqn:E; simpl negb; cbv iota; [now left|].
    destruct (Nat.eqb (List.length (c :: s)) 6) eqn:L; [right | now left].
    apply Nat.eqb_eq in L. repeat split; auto.
    intros H. apply (contains_char 32%N) in H.
    change [32%N] with SPACE in H. congruence. }
  assert (F : forall l, ~ In 32%N l -> remove_char 32 l = l).
  { induction l as [|x l IH]; intros Hl; [reflexivity|]. simpl.
    destruct (char_eqb x 32) eqn:Ex.
    - apply N.eqb_eq in Ex. subst x. elim Hl. now left.
    - simpl. f_equal. apply IH. intros H. apply Hl. now right. }
  destruct Cases as [E | (L & N & E)].
  - split; [now rewrite E | now left].
  - split.
    + rewrite E. apply repair_spacing_spaced. apply in_or_app. right. now left.
    + right. split; [exact L | split; [exact E|]]. rewrite E.
      unfold remove_char. rewrite !filter_app.
      fold (remove_char 32 (firstn 3 s)). fold (remove_char 32 (skipn 3 s)).
      rewrite !F.
      * change (filter (fun x : char => negb (char_eqb x 32)) SPACE) with (@nil char).
        apply firstn_skipn.
      * intros H. apply N. rewrite <- (firstn_skipn 3 s). apply in_or_app. now right.
      * intros H. apply N. rewrite <- (firstn_skipn 3 s). apply in_or_app. now left.
Qed.

(** ** The matcher *)

Lemma first_some_inv {A B : Type} (f : A -> option B) (l : list A) (b : B) :
  first_some f l = Some b -> exists a, In a l /\ f a = Some b.
Proof.
  induction l as [|a l IH]; simpl; [discriminate|].
  destruct (f a) as [b'|] eqn:E.
  - intros H. injection H as <-. exists a. split; [now left | assumption].
  - intros H. destruct (IH H) as (a' & Hin & Ha). exists a'. split; [now right | assumption].
Qed.

Lemma many_inv {A : Type} (p : char -> bool) (s : str) : forall least (k : str -> option A) a,
  many _ p least s k = Some a ->
  exists body rest, s = body ++ rest /\ Forall (fun c => p c = true) body
                    /\ (least <= List.length body)%nat /\ k rest = Some a.
Proof.
  induction s as [|x s IH]; intros least k a H.
  - simpl in H. destruct least; [|discriminate].
    exists [], []. repeat split; auto.
  - simpl in H.
    assert (Stop : match least with O => k (x :: s) | S _ => None end = Some a ->
                   exists body rest, x :: s = body ++ rest
                     /\ Forall (fun c => p c = true) body
                     /\ (least <= List.length body)%nat /\ k rest = Some a).
    { destruct least; [|discriminate]. intros Hk.
      exists [], (x :: s). repeat split; auto. }
    destruct (p x) eqn:Px; [|now apply Stop].
    destruct (many _ p (Nat.pred least) s k) as [a'|] eqn:M; [|now apply Stop].
    injection H as ->. apply IH in M as (body & rest & -> & Hb & Hl & Hk).
    exists (x :: body), rest. repeat split; auto. simpl. lia.
Qed.

(** The longest run is tried first. *)
Lemma many_longest {A : Type} (p : char -> bool) (body rest : str) :
  rest = [] \/ (exists y r, rest = y :: r /\ p y = false) ->
  forall least (k : str -> option A) a,
  Forall (fun c => p c = true) body ->
  (least <= List.length body)%nat ->
  k rest = Some a ->
  many _ p least (body ++ rest) k = Some a.
Proof.
  intros Hr. induction body as [|x body IH]; intros least k a Hb Hl Hk.
  - simpl in Hl. assert (least = 0%nat) as -> by lia. simpl app.
    destruct Hr as [-> | (y & r & -> & Py)]; simpl; [assumption|].
    now rewrite Py.
  - inversion Hb as [|? ? Px Hb']; subst. simpl. rewrite Px.
    rewrite (IH (Nat.pred least) k a); auto. simpl in Hl. lia.
Qed.

Section MatcherFacts.
Variable U : unicode_db.

Lemma literal_matches (x y : char) :
  class_matches U false false [Chr x] y = char_eqb x y.
Proof. unfold class_matches. simpl. now rewrite orb_false_r. Qed.

Lemma run_text {A : Type} (t : str) : forall s c (k : str -> caps -> option A),
  run U false _ (text t) (t ++ s) c k = k s c.
Proof.
  induction t as [|x t IH]; intros s c k; [reflexivity|].
  change (text (x :: t)) with (Seq (One false [Chr x]) (text t)).
  simpl app. cbn [run]. rewrite literal_matches.
  unfold char_eqb. rewrite N.eqb_refl. apply IH.
Qed.

Lemma run_text_inv {A : Type} (t : str) : forall s c (k : str -> caps -> option A) a,
  run U false _ (text t) s c k = Some a ->
  exists s', s = t ++ s' /\ k s' c = Some a.
Proof.
  induction t as [|x t IH]; intros s c k a H.
  - exists s. now split.
  - change (text (x :: t)) with (Seq (One false [Chr x]) (text t)) in H.
    cbn [run] in H. destruct s as [|y s]; [discriminate|].
    rewrite literal_matches in H. destruct (char_eqb x y) eqn:E; [|discriminate].
    apply N.eqb_eq in E. subst y.
    apply IH in H as (s' & -> & Hk). now exists s'.
Qed.

(** A pattern without parentheses leaves the groups as they are. *)
Lemma run_without_groups {A : Type} (ic : bool) (r : regex) :
  ngroups r = 0%nat ->
  forall s c (k : str -> caps -> option A) a,
  run U ic _ r s c k = Some a -> exists s', k s' c = Some a.
Proof.
  induction r as [| neg items | least neg items | r1 IH1 r2 IH2 | r1 IH1 r2 IH2
                  | least extra r1 IH1 | n r1 IH1];
    intros G s c k a H; cbn [run] in H.
  - eauto.
  - destruct s as [|x s]; [discriminate|].
    destruct (class_matches U ic neg items x); [eauto | discriminate].
  - apply many_inv in H as (body & rest & _ & _ & _ & H). eauto.
  - simpl in G. apply IH1 in H as (s' & H); [|lia]. apply IH2 in H; [assumption | lia].
  - simpl in G. destruct (run U ic _ r1 s c k) as [a'|] eqn:E.
    + injection H as ->. apply IH1 in E; [assumption | lia].
    + apply IH2 in H; [assumption | lia].
  - simpl in G.
    assert (May : forall n s c a,
               (fix may (n : nat) (s : str) (c : caps) : option A :=
                  match n with
                  | O => k s c
                  | S n' =>
                      match run U ic _ r1 s c (fun s' c' => may n' s' c') with
                      | Some a => Some a
                      | None => k s c
                      end
                  end) n s c = Some a -> exists s', k s' c = Some a).
    { induction n as [|n IHn]; intros s0 c0 a0 H0; [eauto|].
      destruct (run U ic _ r1 s0 c0 _) as [a'|] eqn:E; [|eauto].
      injection H0 as ->. apply IH1 in E as (s' & E); [|assumption]. eauto. }
    revert s c H. induction least as [|least IHl]; intros s c H.
    + now apply May in H.
    + apply IH1 in H as (s' & H); [|assumption]. now apply IHl in H.
  - discriminate.
Qed.

Lemma run_seq_without_groups {A : Type} (ic : bool) (mids : list regex) (tail : list regex) :
  Forall (fun r => ngroups r = 0%nat) mids ->
  forall s c (k : str -> caps -> option A) a,
  run U ic _ (seq (mids ++ tail)) s c k = Some a ->
  exists s', run U ic _ (seq tail) s' c k = Some a.
Proof.
  induction 1 as [|r mids Hr _ IH]; intros s c k a H; [eauto|].
  change (seq ((r :: mids) ++ tail)) with (Seq r (seq (mids ++ tail))) in H.
  cbn [run] in H. apply (run_without_groups ic r Hr) in H as (s' & H).
  now apply IH in H.
Qed.

Lemma consumed_prefix (l rest : str) :
  firstn (List.length (l ++ rest) - List.length rest) (l ++ rest) = l.
Proof.
  rewrite length_app.
  replace (List.length l + List.length rest - List.length rest)%nat
    with (List.length l + 0)%nat by lia.
  rewrite firstn_app_2. simpl. apply app_nil_r.
Qed.

Lemma class_in (items : str) (x : char) :
  class_matches U false false (map Chr items) x = true <-> In x items.
Proof.
  unfold class_matches. simpl xorb. rewrite existsb_exists. split.
  - intros (i & Hi & Hm). apply in_map_iff in Hi as (c & <- & Hc).
    simpl in Hm. apply N.eqb_eq in Hm. now subst.
  - intros H. exists (Chr x). split; [now apply in_map | apply N.eqb_refl].
Qed.

Lemma range_in (lo hi x : char) (items : str) :
  (forall y, between lo hi y = true <-> In y items) ->
  class_matches U false false [Range lo hi] x = true <-> In x items.
Proof.
  intros H. unfold class_matches. simpl. rewrite orb_false_r. apply H.
Qed.

Lemma file_range (y : char) : between 65 67 y = true <-> In y (lit "ABC").
Proof.
  unfold between. rewrite andb_true_iff, !N.leb_le. cbn. split.
  - intros [H1 H2].
    assert (y = 65 \/ y = 66 \/ y = 67)%N as [-> | [-> | ->]] by lia; tauto.
  - intros [<- | [<- | [<- | []]]]; lia.
Qed.

Lemma rank_range (y : char) : between 49 52 y = true <-> In y (lit "1234").
Proof.
  unfold between. rewrite andb_true_iff, !N.leb_le. cbn. split.
  - intros [H1 H2].
    assert (y = 49 \/ y = 50 \/ y = 51 \/ y = 52)%N as [-> | [-> | [-> | ->]]] by lia;
      tauto.
  - intros [<- | [<- | [<- | [<- | []]]]]; lia.
Qed.

(** A coordinate group captures a position. *)
Lemma run_coord {A : Type} (n : nat) (s : str) (c : caps)
  (k : str -> caps -> option A) (a : A) :
  run U false _ (COORD n) s c k = Some a ->
  exists p s', s = p ++ s' /\ position p /\ k s' ((n, p) :: c) = Some a.
Proof.
  unfold COORD, RGB, FILE, RANK, seq. cbn [fold_right run]. intros H.
  destruct s as [|x [|y [|z s']]]; try discriminate;
    try (destruct (class_matches U false false _ x); discriminate);
    try (destruct (class_matches U false false _ x); [|discriminate];
         destruct (class_matches U false false _ y); discriminate).
  destruct (class_matches U false false [Chr 82; Chr 71; Chr 66] x) eqn:Hx; [|discriminate].
  destruct (class_matches U false false [Range 65 67] y) eqn:Hy; [|discriminate].
  destruct (class_matches U false false [Range 49 52] z) eqn:Hz; [|discriminate].
  exists [x; y; z], s'. split; [reflexivity|]. split.
  - exists x, y, z. split; [reflexivity|].
    apply (class_in (lit "RGB")) in Hx.
    apply (range_in 65 67 y (lit "ABC") file_range) in Hy.
    apply (range_in 49 52 z (lit "1234") rank_range) in Hz.
    repeat split; auto. cbn in Hx |- *. tauto.
  - pose proof (consumed_prefix [x; y; z] s') as P. simpl app in P.
    rewrite P in H. exact H.
Qed.

Lemma search_inv (ic : bool) (r : regex) (s : str) (c : caps) :
  search U ic r s = Some c ->
  exists before here rest, s = before ++ here /\ match_here U ic r here = Some (c, rest).
Proof.
  induction s as [|x s IH]; simpl.
  - destruct (match_here U ic r []) as [[c' rest]|] eqn:E; [|discriminate].
    intros H. injection H as <-. now exists [], [], rest.
  - destruct (match_here U ic r (x :: s)) as [[c' rest]|] eqn:E.
    + intros H. injection H as <-. now exists [], (x :: s), rest.
    + intros H. destruct (IH H) as (before & here & rest & -> & M).
      now exists (x :: before), here, rest.
Qed.

(** A pattern of the shape coordinate, separators, coordinate captures two
    positions. *)
Lemma pair_pattern_captures (mids : list regex) (here : str) (c : caps) (rest : str) :
  Forall (fun r => ngroups r = 0%nat) mids ->
  match_here U false (seq (COORD 1 :: mids ++ [COORD 2])) here = Some (c, rest) ->
  exists f t, position f /\ position t /\ c = [(2%nat, t); (1%nat, f)].
Proof.
  intros Hm H. unfold match_here in H.
  change (seq (COORD 1 :: mids ++ [COORD 2]))
    with (Seq (COORD 1) (seq (mids ++ [COORD 2]))) in H.
  cbn [run] in H. apply run_coord in H as (f & s1 & _ & Hf & H).
  apply (run_seq_without_groups false mids [COORD 2] Hm) in H as (s2 & H).
  change (seq [COORD 2]) with (Seq (COORD 2) Eps) in H. cbn [run] in H.
  apply run_coord in H as (t & s3 & _ & Ht & H). cbn [run] in H.
  injection H as <- _. now exists f, t.
Qed.

Lemma content_patterns_shape (p : regex) :
  In p content_patterns ->
  exists mids, Forall (fun r => ngroups r = 0%nat) mids
               /\ p = seq (COORD 1 :: mids ++ [COORD 2]).
Proof.
  intros [<- | [<- | [<- | [<- | []]]]].
  - exists [spaces1; TO; spaces1]. split; [repeat constructor | reflexivity].
  - exists [spaces0; text (lit "-"); spaces0]. split; [repeat constructor | reflexivity].
  - exists [spaces0; text ARROW; spaces0]. split; [repeat constructor | reflexivity].
  - exists [spaces1]. split; [repeat constructor | reflexivity].
Qed.

Lemma move_from_patterns_well_formed (content m : str) :
  move_from_patterns U content = Some m -> well_formed_move m.
Proof.
  unfold move_from_patterns. intros H.
  apply first_some_inv in H as (p & Hp & H).
  destruct (search U false p content) as [c|] eqn:S; [|discriminate].
  injection H as <-.
  apply search_inv in S as (before & here & rest & _ & M).
  destruct (content_patterns_shape p Hp) as (mids & Hm & ->).
  apply (pair_pattern_captures mids here c rest Hm) in M as (f & t & Hf & Ht & ->).
  exists f, t. repeat split; auto.
Qed.
End MatcherFacts.

(** ** The stages of the cascade *)

Lemma startswith_prefix (p : str) : forall s,
  startswith s p = true -> exists rest, s = p ++ rest.
Proof.
  induction p as [|x p IH]; intros s H; [now exists s|].
  destruct s as [|y s]; [discriminate|]. simpl in H.
  apply andb_true_iff in H as [E H]. apply N.eqb_eq in E. subst y.
  destruct (IH s H) as (rest & ->). now exists rest.
Qed.

Lemma contains_inside (sub : str) : forall s,
  contains s sub = true -> exists before rest, s = before ++ sub ++ rest.
Proof.
  induction s as [|x s IH]; intros H.
  - change (startswith [] sub || false = true) in H.
    rewrite orb_false_r in H. apply startswith_prefix in H as (rest & E).
    now exists [], rest.
  - change (startswith (x :: s) sub || contains s sub = true) in H.
    apply orb_true_iff in H as [H | H].
    + apply startswith_prefix in H as (rest & E). now exists [], rest.
    + destruct (IH H) as (before & rest & ->). now exists (x :: before), rest.
Qed.

Lemma split_once_parts (sep : str) : forall s a b,
  split_once s sep = Some (a, b) -> exists mid, s = a ++ mid ++ b.
Proof.
  induction s as [|x s IH]; intros a b H; cbn [split_once] in H.
  - destruct (startswith [] sep); [|discriminate]. injection H as <- <-.
    exists []. now destruct sep.
  - destruct (startswith (x :: s) sep).
    + injection H as <- <-. exists (firstn (List.length sep) (x :: s)).
      simpl app. now rewrite firstn_skipn.
    + destruct (split_once s sep) as [[a' b']|] eqn:E; [|discriminate].
      injection H as <- <-. destruct (IH a' b' eq_refl) as (mid & ->).
      now exists mid.
Qed.

Lemma before_first_prefix (s sep : str) : exists rest, s = before_first s sep ++ rest.
Proof.
  unfold before_first. destruct (split_once s sep) as [[a b]|] eqn:E.
  - apply split_once_parts in E as (mid & ->). now exists (mid ++ b).
  - exists []. now rewrite app_nil_r.
Qed.

Section Kept.
Variable P : char -> Prop.

Lemma kept_by_strip (s : str) : Forall P s -> Forall P (strip s).
Proof.
  intros H. destruct (strip_decomp s) as (lead & trail & E & _).
  rewrite E in H. apply Forall_app in H as [_ H]. now apply Forall_app in H as [H _].
Qed.

Lemma kept_after_marker (s sep a b : str) :
  split_once s sep = Some (a, b) -> Forall P s -> Forall P b.
Proof.
  intros E H. apply split_once_parts in E as (mid & ->).
  apply Forall_app in H as [_ H]. now apply Forall_app in H as [_ H].
Qed.

Lemma kept_before_first (s sep : str) : Forall P s -> Forall P (before_first s sep).
Proof.
  intros H. destruct (before_first_prefix s sep) as (rest & E).
  rewrite E in H. now apply Forall_app in H as [H _].
Qed.

Lemma kept_by_remove_char (c : char) (s : str) : Forall P s -> Forall P (remove_char c s).
Proof.
  intros H. apply Forall_forall. intros x Hx. apply filter_In in Hx as [Hx _].
  rewrite Forall_forall in H. now apply H.
Qed.
End Kept.

Lemma position_in_letters (p : str) :
  position p ->
  exists c rest, p = c :: rest /\ between 65 90 c = true /\ ~ In 60%N p.
Proof.
  intros H. apply position_in_all in H.
  assert (G : forallb (fun p => match p with
                                | c :: _ => between 65 90 c
                                            && forallb (fun x => negb (N.eqb x 60)) p
                                | [] => false
                                end) all_positions = true) by (vm_compute; reflexivity).
  rewrite forallb_forall in G. specialize (G p H).
  destruct p as [|c rest]; [discriminate|].
  apply andb_true_iff in G as [G1 G2]. exists c, rest. repeat split; auto.
  intros Hin. rewrite forallb_forall in G2. specialize (G2 60%N Hin). discriminate.
Qed.

Lemma accepted_has_no_angle (s r : str) :
  validate_and_process_move (PyStr s) None = Some r -> ~ In 60%N r.
Proof.
  intros H. apply validate_some_inv in H as (-> & f & gap & t & Hf & Ht & Hg & _ & ->).
  destruct (position_in_letters f Hf) as (_ & _ & _ & _ & Nf).
  destruct (position_in_letters t Ht) as (_ & _ & _ & _ & Nt).
  intros Hin. apply in_app_or in Hin as [Hin | Hin]; [contradiction|].
  apply in_app_or in Hin as [Hin | Hin]; [|contradiction].
  unfold blank in Hg. rewrite Forall_forall in Hg. specialize (Hg _ Hin). discriminate.
Qed.

Lemma wrap_nonempty (v : json) : wrap v <> [].
Proof. unfold wrap. discriminate. Qed.

Lemma wrap_parts (v : json) :
  wrap v = lit "<<MOVE>>" ++ rendered v ++ lit "<<END_MOVE>>".
Proof. reflexivity. Qed.

Section StageFacts.
Variable U : unicode_db.

(** *** The sentinel *)

Lemma sentinel_needs_angle (x : char) (s : str) :
  x <> 60%N -> match_here U false SENTINEL (x :: s) = None.
Proof.
  intros H. unfold match_here, SENTINEL.
  change (seq [text (lit "<<MOVE>>"); Group 1 (Many 1 true [Chr 60]);
               text (lit "<<END_MOVE>>")])
    with (Seq (Seq (One false [Chr 60]) (text (lit "<MOVE>>")))
              (seq [Group 1 (Many 1 true [Chr 60]); text (lit "<<END_MOVE>>")])).
  cbn [run]. rewrite literal_matches.
  destruct (char_eqb 60 x) eqn:E; [|reflexivity].
  apply N.eqb_eq in E. congruence.
Qed.

Lemma sentinel_skips (before : str) : forall s,
  ~ In 60%N before ->
  search U false SENTINEL (before ++ s) = search U false SENTINEL s.
Proof.
  induction before as [|x before IH]; intros s H; [reflexivity|].
  simpl app. cbn [search]. rewrite sentinel_needs_angle.
  - apply IH. intros Hin. apply H. now right.
  - intros ->. apply H. now left.
Qed.

Lemma sentinel_absent (s : str) : ~ In 60%N s -> sentinel_move U s = None.
Proof.
  intros H. unfold sentinel_move.
  rewrite <- (app_nil_r s), sentinel_skips by assumption. reflexivity.
Qed.

Lemma sentinel_here (inner rest : str) :
  inner <> [] -> ~ In 60%N inner ->
  match_here U false SENTINEL (wrap (JStr inner) ++ rest) = Some ([(1%nat, inner)], rest).
Proof.
  intros Hne Hin. unfold match_here, SENTINEL. rewrite wrap_parts. cbn [rendered].
  change (seq [text (lit "<<MOVE>>"); Group 1 (Many 1 true [Chr 60]);
               text (lit "<<END_MOVE>>")])
    with (Seq (text (lit "<<MOVE>>"))
              (Seq (Group 1 (Many 1 true [Chr 60]))
                   (Seq (text (lit "<<END_MOVE>>")) Eps))).
  rewrite <- !app_assoc. cbn [run]. rewrite run_text. cbn [run].
  apply many_longest.
  - right. eexists _, _. split; [reflexivity|]. reflexivity.
  - apply Forall_forall. intros c Hc. unfold class_matches.
    cbn [existsb item_matches]. rewrite orb_false_r. unfold char_eqb.
    destruct (N.eqb_spec 60 c) as [E | E]; [|reflexivity].
    subst c. contradiction.
  - destruct inner; [congruence | simpl; lia].
  - rewrite consumed_prefix. cbn [run]. rewrite run_text. reflexivity.
Qed.

Lemma sentinel_found (before inner rest : str) :
  ~ In 60%N before -> inner <> [] -> ~ In 60%N inner ->
  sentinel_move U (before ++ wrap (JStr inner) ++ rest) = Some (strip inner).
Proof.
  intros Hb Hne Hin. unfold sentinel_move. rewrite sentinel_skips by assumption.
  assert (S : search U false SENTINEL (wrap (JStr inner) ++ rest)
              = Some [(1%nat, inner)]).
  { pose proof (sentinel_here inner rest Hne Hin) as M.
    rewrite wrap_parts in M |- *. cbn [rendered] in M |- *.
    rewrite <- !app_assoc in M |- *. simpl app in M |- *.
    cbn [search]. now rewrite M. }
  rewrite S. reflexivity.
Qed.

Lemma candidate_accepted (current_color : pyval) (r : reply)
  (reasoning_text : json) (m : str) :
  extract U r = Ret (reasoning_text, Some m) -> well_formed_move m ->
  cascade U current_color r = Ret (m, reasoning_text).
Proof.
  intros He Hm. unfold cascade.
  rewrite (candidate_of_move U current_color r reasoning_text m He)
    by now apply well_formed_nonempty.
  cbn [bind fst snd].
  now rewrite unwrap_well_formed, repair_well_formed, validated_well_formed.
Qed.

Lemma extract_content (r : reply) (raw : str) :
  tool_calls r = None \/ tool_calls r = Some [] ->
  content r = Some raw -> raw <> [] ->
  extract U r = Ret (content_stage U (JStr DEFAULT_REASONING) raw).
Proof.
  intros Ht Hc Hr. unfold extract. rewrite Hc.
  destruct Ht as [-> | ->]; cbn [bind]; destruct raw; congruence.
Qed.

Lemma get_llm_move_of_cascade (now : clock) (current_color : pyval)
  (mem : agent_memory) (r : reply) (m : str) (reasoning_text : json) :
  cascade U current_color r = Ret (m, reasoning_text) ->
  loggable (reply_usage r) = true ->
  fst (get_llm_move U now (Replied r) current_color mem) = m.
Proof.
  intros H L.
  destruct (get_llm_move_logged U now current_color r mem m reasoning_text H L)
    as (counted & E).
  now rewrite E.
Qed.

(** X5.  A sentinel in the free text is honoured: without tool
    invocations, when the trimmed content holds [<<MOVE>>...<<END_MOVE>>] with
    no [<] before it and a well-formed move (blanks around it allowed) inside,
    the cascade gives that move, and [get_llm_move] returns it when the usage
    of the reply can be logged. *)
Theorem sentinel_in_content (now : clock) (current_color : pyval)
  (mem : agent_memory) (r : reply) (raw before inner rest m : str) :
  tool_calls r = None \/ tool_calls r = Some [] ->
  content r = Some raw ->
  strip raw = before ++ wrap (JStr inner) ++ rest ->
  ~ In 60%N before -> ~ In 60%N inner ->
  strip inner = m -> well_formed_move m ->
  cascade U current_color r = Ret (m, JStr DEFAULT_REASONING)
  /\ (loggable (reply_usage r) = true ->
      fst (get_llm_move U now (Replied r) current_color mem) = m).
Proof.
  intros Ht Hc Hs Hb Hi Hm Hw.
  assert (Hraw : raw <> []).
  { intros ->. destruct before; discriminate Hs. }
  assert (Hin : inner <> []).
  { intros ->. subst m. now apply well_formed_nonempty in Hw. }
  assert (E : extract U r = Ret (JStr DEFAULT_REASONING, Some m)).
  { rewrite (extract_content r raw Ht Hc Hraw). unfold content_stage.
    rewrite Hs, sentinel_found by assumption. now rewrite Hm. }
  assert (C : cascade U current_color r = Ret (m, JStr DEFAULT_REASONING))
    by now apply candidate_accepted.
  split; [exact C|].
  now apply (get_llm_move_of_cascade now current_color mem r m (JStr DEFAULT_REASONING)).
Qed.
End StageFacts.

Lemma sentinel_in_content_witness :
  cascade ascii_only (PyStr (lit "BLUE"))
    (sample_reply None
       (Some (lit "  Plan: push. <<MOVE>> BA2 BA4 <<END_MOVE>> done <x> ")))
  = Ret (lit "BA2 BA4", JStr DEFAULT_REASONING)
  /\ (loggable (reply_usage
                  (sample_reply None
                     (Some (lit "  Plan: push. <<MOVE>> BA2 BA4 <<END_MOVE>> done <x> "))))
      = true ->
      fst (get_llm_move ascii_only sample_clock
             (Replied (sample_reply None
                         (Some (lit "  Plan: push. <<MOVE>> BA2 BA4 <<END_MOVE>> done <x> "))))
             (PyStr (lit "BLUE")) AGENT_MEMORY)
      = lit "BA2 BA4").
Proof.
  apply (sentinel_in_content ascii_only sample_clock (PyStr (lit "BLUE")) AGENT_MEMORY
           (sample_reply None
              (Some (lit "  Plan: push. <<MOVE>> BA2 BA4 <<END_MOVE>> done <x> ")))
           (lit "  Plan: push. <<MOVE>> BA2 BA4 <<END_MOVE>> done <x> ")
           (lit "Plan: push. ") (lit " BA2 BA4 ") (lit " done <x>") (lit "BA2 BA4")).
  - now left.
  - reflexivity.
  - reflexivity.
  - cbn. intros H. repeat (destruct H as [H | H]; [discriminate H|]). exact H.
  - cbn. intros H. repeat (destruct H as [H | H]; [discriminate H|]). exact H.
  - reflexivity.
  - apply (sample_move_well_formed "BA2" "BA4"); vm_compute; tauto.
Defined.

Lemma ascii_lower_not_upper (c : char) : between 65 90 (ascii_lower c) = false.
Proof.
  unfold ascii_lower, between.
  destruct ((65 <=? c) && (c <=? 90))%N eqn:E; [|exact E].
  apply andb_true_iff in E as [E1 E2]. apply N.leb_le in E1, E2.
  apply andb_false_iff. right. apply N.leb_gt. lia.
Qed.

Section MarkerFacts.
Variable U : unicode_db.

Lemma lower_ascii_no_upper (s : str) :
  forallb is_ascii s = true ->
  Forall (fun c => between 65 90 c = false) (lower U s).
Proof.
  intros H. unfold lower. rewrite H. apply Forall_forall. intros c Hc.
  apply in_map_iff in Hc as (x & <- & _). apply ascii_lower_not_upper.
Qed.

Lemma strip_keeps_ascii (s : str) :
  forallb is_ascii s = true -> forallb is_ascii (strip s) = true.
Proof.
  intros H. apply forallb_forall. intros c Hc.
  assert (F : Forall (fun c => is_ascii c = true) s).
  { apply Forall_forall. now apply forallb_forall. }
  apply (kept_by_strip (fun c => is_ascii c = true)) in F.
  rewrite Forall_forall in F. now apply F.
Qed.

(** What the marker stage returns is cut out of the lower-cased content, has
    a space in it and at least five characters. *)
Lemma move_after_marker_inv (P : char -> Prop) (lower_content m : str) :
  Forall P lower_content ->
  move_after_marker lower_content = Some m ->
  Forall P m /\ In 32%N m /\ (5 <= List.length m)%nat.
Proof.
  intros HP H. unfold move_after_marker in H.
  apply first_some_inv in H as (marker & _ & H).
  destruct (contains lower_content marker); [|discriminate].
  destruct (split_once lower_content marker) as [[a after]|] eqn:E; [|discriminate].
  cbv zeta in H.
  match type of H with
  | (if ?c then _ else _) = _ => destruct c eqn:C; [|discriminate]
  end.
  injection H as <-. apply andb_true_iff in C as [C1 C2].
  split; [|split].
  - apply kept_by_strip. do 3 apply kept_by_remove_char.
    apply kept_by_strip, kept_before_first, kept_by_strip.
    now apply (kept_after_marker P lower_content marker a after).
  - now apply (contains_char 32%N).
  - now apply Nat.leb_le in C2.
Qed.

Lemma no_upper_rejected (m : str) :
  Forall (fun c => between 65 90 c = false) m ->
  validate_and_process_move (PyStr m) None = None.
Proof.
  intros H. destruct (validate_and_process_move (PyStr m) None) as [r|] eqn:E;
    [exfalso | reflexivity].
  apply validate_some_inv in E as (_ & f & gap & t & Hf & _ & _ & _ & E).
  apply (kept_by_strip (fun c => between 65 90 c = false)) in H. rewrite E in H.
  apply Forall_app in H as [H _].
  destruct (position_in_letters f Hf) as (c & rest & -> & Hc & _).
  inversion H; subst. congruence.
Qed.

Lemma no_upper_no_sentinel (m : str) :
  Forall (fun c => between 65 90 c = false) m -> unwrap U m = m.
Proof.
  intros H. unfold unwrap.
  destruct (contains m (lit "<<MOVE>>")) eqn:C; [|reflexivity].
  exfalso. apply contains_inside in C as (before & rest & ->).
  apply Forall_app in H as [_ H]. apply Forall_app in H as [H _].
  cbn in H. inversion H as [|? ? _ H1]; subst. inversion H1 as [|? ? _ H2]; subst.
  inversion H2 as [|? ? M _]; subst. discriminate M.
Qed.

(** X6.  A move announced by a marker phrase is taken from the lower-cased
    content, so the parser never accepts it: for ASCII content without tool
    invocations and without a sentinel, whenever the marker stage yields a
    move, [get_llm_move] answers with the fixed move of the colour. *)
Theorem marker_move_is_lost (now : clock) (current_color : pyval)
  (mem : agent_memory) (r : reply) (raw m : str) :
  tool_calls r = None \/ tool_calls r = Some [] ->
  content r = Some raw ->
  forallb is_ascii raw = true ->
  sentinel_move U (strip raw) = None ->
  move_after_marker (lower U (strip raw)) = Some m ->
  validate_and_process_move (PyStr m) None = None
  /\ fst (get_llm_move U now (Replied r) current_color mem)
     = fixed_fallback current_color.
Proof.
  intros Ht Hc Ha Hs Hm.
  assert (Hraw : raw <> []).
  { intros ->. discriminate Hm. }
  pose proof (lower_ascii_no_upper (strip raw) (strip_keeps_ascii raw Ha)) as L.
  destruct (move_after_marker_inv _ _ m L Hm) as (Low & Sp & Len).
  pose proof (no_upper_rejected m Low) as V. split; [exact V|].
  assert (Hne : m <> []) by (intros ->; simpl in Len; lia).
  assert (E : exists rt, extract U r = Ret (rt, Some m)).
  { rewrite (extract_content U r raw Ht Hc Hraw). unfold content_stage.
    rewrite Hs. cbv zeta. rewrite Hm.
    destruct m as [|c m]; [congruence|]. cbn [no_move_yet]. eauto. }
  destruct E as (rt & E).
  rewrite get_llm_move_cases.
  rewrite (candidate_of_move U current_color r rt m E Hne). cbn [fst].
  rewrite no_upper_no_sentinel, repair_spacing_spaced by assumption.
  unfold validated_or_fallback. rewrite V.
  now destruct (loggable (reply_usage r)).
Qed.

(** X7.  When the coordinate patterns are the first stage to find something
    in the content, what they find is a well-formed move and the cascade
    gives it unchanged; [get_llm_move] returns it when the usage of the reply
    can be logged. *)
Theorem pattern_move_is_returned (now : clock) (current_color : pyval)
  (mem : agent_memory) (r : reply) (raw m : str) :
  tool_calls r = None \/ tool_calls r = Some [] ->
  content r = Some raw -> raw <> [] ->
  sentinel_move U (strip raw) = None ->
  no_move_yet (move_after_marker (lower U (strip raw))) = true ->
  move_from_patterns U (strip raw) = Some m ->
  well_formed_move m
  /\ (exists reasoning_text, cascade U current_color r = Ret (m, reasoning_text))
  /\ (loggable (reply_usage r) = true ->
      fst (get_llm_move U now (Replied r) current_color mem) = m).
Proof.
  intros Ht Hc Hraw Hs Hk Hp.
  pose proof (move_from_patterns_well_formed U (strip raw) m Hp) as W.
  split; [exact W|].
  assert (E : exists rt, extract U r = Ret (rt, Some m)).
  { rewrite (extract_content U r raw Ht Hc Hraw). unfold content_stage.
    rewrite Hs. cbv zeta. rewrite Hk, Hp.
    pose proof (well_formed_nonempty m W).
    destruct m as [|c m]; [congruence|]. cbn [no_move_yet]. eauto. }
  destruct E as (rt & E).
  assert (C : cascade U current_color r = Ret (m, rt)) by now apply candidate_accepted.
  split; [now exists rt|].
  now apply (get_llm_move_of_cascade U now current_color mem r m rt).
Qed.
End MarkerFacts.

Lemma marker_move_is_lost_witness :
  fst (get_llm_move ascii_only sample_clock
         (Replied (sample_reply None (Some (lit "Move: GB1 GC3"))))
         (PyStr (lit "RED")) AGENT_MEMORY)
  = lit "RA2 RA3".
Proof.
  apply (marker_move_is_lost ascii_only sample_clock (PyStr (lit "RED")) AGENT_MEMORY
           (sample_reply None (Some (lit "Move: GB1 GC3"))) (lit "Move: GB1 GC3")
           (lit "gb1 gc3")); try reflexivity.
  now left.
Defined.

Lemma pattern_move_is_returned_witness :
  fst (get_llm_move ascii_only sample_clock
         (Replied (sample_reply None
                     (Some (lit "I will play RA2 RA3 to develop my pawn"))))
         (PyStr (lit "RED")) AGENT_MEMORY)
  = lit "RA2 RA3".
Proof.
  apply (pattern_move_is_returned ascii_only sample_clock (PyStr (lit "RED"))
           AGENT_MEMORY
           (sample_reply None (Some (lit "I will play RA2 RA3 to develop my pawn")))
           (lit "I will play RA2 RA3 to develop my pawn") (lit "RA2 RA3"));
    try reflexivity.
  - now left.
  - discriminate.
Defined.

(** ** Tool invocations and the content *)

Section ToolFacts.
Variable U : unicode_db.

Lemma tool_call_loop_keeps_wrapped (calls : list tool_call) :
  Forall decodes calls ->
  forall reasoning_text v, exists reasoning_text' v',
    tool_call_loop (reasoning_text, Some (wrap v)) calls
    = Ret (reasoning_text', Some (wrap v')).
Proof.
  induction 1 as [|tc calls Htc _ IH]; intros rt v; cbn [tool_call_loop]; [eauto|].
  destruct (tool_call_step_decodes tc rt (Some (wrap v)) Htc) as (rt' & ->).
  cbn [bind]. destruct (is_decide_move tc); [|apply IH].
  destruct (arguments tc); apply IH.
Qed.

Lemma tool_call_loop_decides (calls : list tool_call) :
  Forall decodes calls -> Exists (fun tc => is_decide_move tc = true) calls ->
  forall state, exists reasoning_text v,
    tool_call_loop state calls = Ret (reasoning_text, Some (wrap v)).
Proof.
  induction 1 as [|tc calls Htc Hall IH]; intros Hex [rt fm].
  - inversion Hex.
  - cbn [tool_call_loop].
    destruct (tool_call_step_decodes tc rt fm Htc) as (rt' & ->). cbn [bind].
    destruct (is_decide_move tc) eqn:D.
    + apply str_eqb_eq in D.
      destruct (proj2 Htc (or_intror D)) as (members & Ea). rewrite Ea.
      now apply tool_call_loop_keeps_wrapped.
    + apply IH. inversion Hex as [? ? Hd | ? ? Hd]; subst; [congruence | assumption].
Qed.

(** X8.  A [decide_move] invocation shadows the content: when the loop
    over the invocations gets past every one of them and one is a
    [decide_move], the free text of the reply plays no part in what the
    cascade gives, whatever the argument of the invocation was; two such
    replies whose usage is equally loggable get the same move from
    [get_llm_move]. *)
Theorem decide_move_shadows_content (now : clock) (current_color : pyval)
  (mem : agent_memory) (r r' : reply) (calls : list tool_call) :
  tool_calls r = Some calls -> tool_calls r' = Some calls ->
  Forall decodes calls ->
  Exists (fun tc => is_decide_move tc = true) calls ->
  cascade U current_color r = cascade U current_color r'
  /\ (loggable (reply_usage r) = loggable (reply_usage r') ->
      fst (get_llm_move U now (Replied r) current_color mem)
      = fst (get_llm_move U now (Replied r') current_color mem)).
Proof.
  intros Hr Hr' Hd He.
  destruct (tool_call_loop_decides calls Hd He (JStr DEFAULT_REASONING, None))
    as (rt & v & L).
  assert (E : forall q, tool_calls q = Some calls ->
                        extract U q = Ret (rt, Some (wrap v))).
  { intros q Hq. unfold extract. rewrite Hq.
    destruct calls as [|tc calls]; [inversion He|]. rewrite L. cbn [bind].
    pose proof (wrap_nonempty v). destruct (wrap v); [congruence|].
    now destruct (content q) as [[|? ?]|]. }
  split.
  - unfold cascade.
    rewrite (candidate_of_move U current_color r rt (wrap v) (E r Hr) (wrap_nonempty v)).
    rewrite (candidate_of_move U current_color r' rt (wrap v) (E r' Hr') (wrap_nonempty v)).
    reflexivity.
  - intros Hu. rewrite !get_llm_move_cases.
    rewrite (candidate_of_move U current_color r rt (wrap v) (E r Hr) (wrap_nonempty v)).
    rewrite (candidate_of_move U current_color r' rt (wrap v) (E r' Hr') (wrap_nonempty v)).
    now rewrite Hu.
Qed.

(** *** The proximity scan *)

Lemma findall_positions (s : str) : forall skip,
  Forall position (findall_skip U false (COORD 1) skip s).
Proof.
  induction s as [|x s IH]; intros skip; [constructor|].
  cbn [findall_skip]. destruct skip as [|n]; [|apply IH].
  destruct (match_here U false (COORD 1) (x :: s)) as [[c rest]|] eqn:M; [|apply IH].
  unfold match_here in M. apply run_coord in M as (p & s' & _ & Hp & M).
  injection M as <- _. cbn [group Nat.eqb]. constructor; [assumption | apply IH].
Qed.

Lemma proximity_pair_inv (l : list str) (m : str) :
  Forall position l -> proximity_pair l = Some m ->
  exists a b, position a /\ position b /\ firstn 1 a = firstn 1 b
              /\ m = a ++ SPACE ++ b.
Proof.
  induction l as [|a l IH]; intros Hl H; [discriminate|].
  destruct l as [|b l]; [discriminate|]. cbn [proximity_pair] in H.
  inversion Hl as [|? ? Ha Hl']; subst. inversion Hl' as [|? ? Hb _]; subst.
  destruct (str_eqb (firstn 1 a) (firstn 1 b)) eqn:E.
  - injection H as <-. apply str_eqb_eq in E. now exists a, b.
  - now apply IH.
Qed.

(** X9.  What the proximity scan finds in the reasoning is a well-formed
    move whose two positions carry the same colour letter, hence a move the
    parser accepts. *)
Theorem proximity_move_is_well_formed (reasoning_text m : str) :
  move_from_proximity U reasoning_text = Some m ->
  well_formed_move m
  /\ (exists c from_square to_square,
        m = c :: from_square ++ SPACE ++ c :: to_square)
  /\ validate_and_process_move (PyStr m) None = Some m.
Proof.
  unfold move_from_proximity, findall. cbv zeta.
  destruct (2 <=? List.length _)%nat; [|discriminate]. intros H.
  apply proximity_pair_inv in H as (a & b & Ha & Hb & E & ->);
    [|apply findall_positions].
  assert (W : well_formed_move (a ++ SPACE ++ b)) by now exists a, b.
  split; [exact W | split; [|now apply validate_well_formed]].
  destruct Ha as (c & f & r & -> & _). destruct Hb as (c' & f' & r' & -> & _).
  injection E as <-. now exists c, [f; r], [f'; r'].
Qed.
End ToolFacts.

Lemma decide_move_shadows_content_witness :
  cascade ascii_only (PyStr (lit "RED"))
    (sample_reply (Some [decide_move (lit "castle")]) (Some (lit "RA2 RA3")))
  = cascade ascii_only (PyStr (lit "RED"))
      (sample_reply (Some [decide_move (lit "castle")]) None)
  /\ fst (get_llm_move ascii_only sample_clock
            (Replied (sample_reply (Some [decide_move (lit "castle")])
                        (Some (lit "RA2 RA3"))))
            (PyStr (lit "RED")) AGENT_MEMORY)
     = fst (get_llm_move ascii_only sample_clock
              (Replied (sample_reply (Some [decide_move (lit "castle")]) None))
              (PyStr (lit "RED")) AGENT_MEMORY).
Proof.
  assert (D : Forall decodes [decide_move (lit "castle")]).
  { constructor; [|constructor]. split; [discriminate|].
    intros _. eexists. reflexivity. }
  destruct (decide_move_shadows_content ascii_only sample_clock (PyStr (lit "RED"))
              AGENT_MEMORY
              (sample_reply (Some [decide_move (lit "castle")]) (Some (lit "RA2 RA3")))
              (sample_reply (Some [decide_move (lit "castle")]) None)
              [decide_move (lit "castle")] eq_refl eq_refl D
              (Exists_cons_hd (fun tc => is_decide_move tc = true)
                 (decide_move (lit "castle")) [] eq_refl))
    as (C & G).
  split; [exact C | exact (G eq_refl)].
Defined.

Lemma proximity_move_is_well_formed_witness :
  well_formed_move (lit "GB1 GC3").
Proof.
  apply (proximity_move_is_well_formed ascii_only
           (lit "The knight GB1 could reach RA4, or GB1 goes via GC3.")
           (lit "GB1 GC3")).
  reflexivity.
Defined.

(** ** The [/get-move] handler and the memory *)

Section HandlerFacts.
Variable U : unicode_db.

Lemma get_llm_move_accepted (now : clock) (phase : request_phase)
  (current_color : pyval) (mem : agent_memory) :
  let answer := fst (get_llm_move U now phase current_color mem) in
  answer <> [] /\ validate_and_process_move (PyStr answer) None = Some answer.
Proof.
  cbv zeta. rewrite get_llm_move_cases.
  pose proof (fixed_fallback_well_formed current_color) as W.
  assert (F : fixed_fallback current_color <> []
              /\ validate_and_process_move (PyStr (fixed_fallback current_color)) None
                 = Some (fixed_fallback current_color)).
  { split; [now apply well_formed_nonempty | now apply validate_well_formed]. }
  destruct phase as [e|r]; [exact F|].
  destruct (candidate U current_color r) as [[found rt]|e]; [|exact F]. cbn [fst].
  destruct (loggable (reply_usage r)); [|exact F].
  destruct (validated_or_fallback_cases current_color found)
    as [(_ & ->) | (v & _ & -> & Hv)]; [exact F|].
  split; [|assumption]. intros ->. discriminate Hv.
Qed.

Lemma checked_llm_move (now : clock) (phase : request_phase)
  (current_color : pyval) (mem : agent_memory) :
  checked_move U current_color
    (Some (fst (get_llm_move U now phase current_color mem)))
  = fst (get_llm_move U now phase current_color mem).
Proof.
  destruct (get_llm_move_accepted now phase current_color mem) as [Hne Hv].
  unfold checked_move.
  destruct (fst (get_llm_move U now phase current_color mem)) as [|c a] eqn:E;
    [congruence|].
  rewrite (sentinel_absent U (c :: a)) by (eapply accepted_has_no_angle; exact Hv).
  now rewrite Hv.
Qed.

Lemma get_move_unfolded (now : clock) (phase : request_phase)
  (current_color : pyval) (mem : agent_memory) :
  get_move U now phase current_color mem
  = (if has_len (last_reasoning (snd (get_llm_move U now phase current_color mem)))
     then Body (fst (get_llm_move U now phase current_color mem))
            (last_reasoning (snd (get_llm_move U now phase current_color mem)))
     else InternalServerError,
     snd (get_llm_move U now phase current_color mem)).
Proof.
  pose proof (checked_llm_move now phase current_color mem) as C.
  unfold get_move, last_reasoning.
  destruct (get_llm_move U now phase current_color mem) as [returned mem'].
  cbn [fst snd] in *. now rewrite C.
Qed.

(** X10.  When the handler answers, it hands on the move of [get_llm_move]
    as it is, a move the parser accepts: its own empty-move check, sentinel
    search and final validation never change it.  It answers with status 500
    instead exactly when the reasoning of the last logged move has no length
    (line 916).  Either way it leaves the memory as [get_llm_move] left
    it. *)
Theorem handler_keeps_the_move (now : clock) (phase : request_phase)
  (current_color : pyval) (mem : agent_memory) :
  let served := get_move U now phase current_color mem in
  let returned := get_llm_move U now phase current_color mem in
  snd served = snd returned
  /\ validate_and_process_move (PyStr (fst returned)) None = Some (fst returned)
  /\ (has_len (last_reasoning (snd returned)) = true ->
      fst served = Body (fst returned) (last_reasoning (snd returned)))
  /\ (has_len (last_reasoning (snd returned)) = false ->
      fst served = InternalServerError)
  /\ (forall move reasoning,
        fst served = Body move reasoning ->
        move = fst returned /\ reasoning = last_reasoning (snd returned)).
Proof.
  cbv zeta. rewrite get_move_unfolded. cbn [fst snd].
  split; [reflexivity|].
  split; [apply (get_llm_move_accepted now phase current_color mem)|].
  destruct (has_len (last_reasoning (snd (get_llm_move U now phase current_color mem)))).
  - split; [reflexivity|]. split; [discriminate|].
    intros move reasoning H. injection H as <- <-. now split.
  - split; [discriminate|]. split; [reflexivity|].
    intros move reasoning H. discriminate H.
Qed.

Lemma mark_start_logs (now : clock) (mem : agent_memory) :
  moves (mark_start now mem) = moves mem
  /\ token_usage (mark_start now mem) = token_usage mem
  /\ thinking_stats (mark_start now mem) = thinking_stats mem.
Proof. unfold mark_start. now destruct (start_time mem). Qed.

(** What the handler sends when the request did not get as far as the
    log. *)
Lemma get_move_not_logged (now : clock) (phase : request_phase)
  (current_color : pyval) (mem : agent_memory) :
  get_llm_move U now phase current_color mem
  = (fixed_fallback current_color, mark_start now mem) ->
  fst (get_move U now phase current_color mem)
  = if has_len (last_reasoning mem)
    then Body (fixed_fallback current_color) (last_reasoning mem)
    else InternalServerError.
Proof.
  intros E. rewrite get_move_unfolded, E. cbn [fst snd].
  assert (L : last_reasoning (mark_start now mem) = last_reasoning mem).
  { unfold last_reasoning. now destruct (mark_start_logs now mem) as (-> & _). }
  now rewrite L.
Qed.

(** X11.  The reasoning in the answer of the handler belongs to this request
    only when the request got as far as the log: the cascade ran to its end
    and the usage could be logged.  When the request phase, the cascade or
    the logging raised, the handler sends the fixed move of the colour with
    the reasoning of the last move logged before (or "No reasoning
    available" on an empty log).  In each case the answer is status 500
    instead when that reasoning has no length. *)
Theorem handler_reasoning_can_be_stale (now : clock) (phase : request_phase)
  (current_color : pyval) (mem : agent_memory) :
  let stale :=
    if has_len (last_reasoning mem)
    then Body (fixed_fallback current_color) (last_reasoning mem)
    else InternalServerError in
  (forall r m reasoning_text,
     phase = Replied r -> cascade U current_color r = Ret (m, reasoning_text) ->
     loggable (reply_usage r) = true ->
     fst (get_move U now phase current_color mem)
     = if has_len reasoning_text then Body m reasoning_text else InternalServerError)
  /\ (forall r m reasoning_text,
        phase = Replied r -> cascade U current_color r = Ret (m, reasoning_text) ->
        loggable (reply_usage r) = false ->
        fst (get_move U now phase current_color mem) = stale)
  /\ (forall e, phase = Failed e ->
        fst (get_move U now phase current_color mem) = stale)
  /\ (forall r e,
        phase = Replied r -> cascade U current_color r = Raise e ->
        fst (get_move U now phase current_color mem) = stale).
Proof.
  intros stale. subst stale.
  split; [|split; [|split]].
  - intros r m rt -> Hc Hl.
    pose proof (checked_llm_move now (Replied r) current_color mem) as C.
    rewrite (get_move_logged U now current_color r mem m rt Hc Hl).
    rewrite (get_llm_move_of_cascade U now current_color mem r m rt Hc Hl) in C.
    now rewrite C.
  - intros r m rt -> Hc Hl. apply get_move_not_logged.
    now apply (get_llm_move_not_logged U now current_color r mem m rt).
  - intros e ->. now apply get_move_not_logged.
  - intros r e -> Hc. apply get_move_not_logged.
    unfold get_llm_move. now rewrite Hc.
Qed.
End HandlerFacts.

Lemma handler_reasoning_can_be_stale_witness :
  fst (get_move ascii_only sample_clock (Failed OtherError) (PyStr (lit "RED"))
         (memory_after ascii_only
            [PostGetMove sample_clock (Replied think_then_decide_reply)
               (PyStr (lit "GREEN"))]))
  = Body (lit "RA2 RA3") (JStr (lit "Develop the knight.")).
Proof.
  exact (proj1 (proj2 (proj2 (handler_reasoning_can_be_stale ascii_only sample_clock
                         (Failed OtherError) (PyStr (lit "RED"))
                         (memory_after ascii_only
                            [PostGetMove sample_clock (Replied think_then_decide_reply)
                               (PyStr (lit "GREEN"))]))))
           OtherError eq_refl).
Defined.

Section MemoryFacts.
Variable U : unicode_db.

Lemma serve_post (now : clock) (phase : request_phase) (current_color : pyval)
  (mem : agent_memory) :
  serve U mem (PostGetMove now phase current_color) = mark_start now mem
  \/ exists r m reasoning_text counted,
       serve U mem (PostGetMove now phase current_color)
       = log_request now current_color r m reasoning_text counted (mark_start now mem).
Proof.
  unfold serve. rewrite get_move_unfolded. cbn [snd].
  destruct phase as [e|r]; [now left|].
  destruct (cascade U current_color r) as [[m rt]|e] eqn:C.
  - destruct (loggable (reply_usage r)) eqn:L.
    + destruct (get_llm_move_logged U now current_color r mem m rt C L)
        as (counted & ->).
      right. now exists r, m, rt, counted.
    + rewrite (get_llm_move_not_logged U now current_color r mem m rt C L). now left.
  - unfold get_llm_move. rewrite C. now left.
Qed.

Lemma serve_memory (mem : agent_memory) (q : request) :
  serve U mem q = mem
  \/ (exists now phase current_color,
        q = PostGetMove now phase current_color
        /\ (serve U mem q = mark_start now mem
            \/ exists r m reasoning_text counted,
                 serve U mem q
                 = log_request now current_color r m reasoning_text counted
                     (mark_start now mem))).
Proof.
  destruct q as [now phase current_color | |]; [right | now left | now left].
  exists now, phase, current_color. split; [reflexivity|]. apply serve_post.
Qed.

(** The logs after a run, as extensions of the logs before it. *)
Lemma run_extends (requests : list request) : forall mem,
  exists new_moves new_tokens new_stats,
    moves (fold_left (serve U) requests mem) = moves mem ++ new_moves
    /\ token_usage (fold_left (serve U) requests mem) = token_usage mem ++ new_tokens
    /\ thinking_stats (fold_left (serve U) requests mem) = thinking_stats mem ++ new_stats
    /\ map move_timestamp new_moves = map token_timestamp new_tokens
    /\ map move_timestamp new_moves = map stat_timestamp new_stats
    /\ map thinking_time new_moves = map stat_elapsed_time new_stats
    /\ (List.length new_moves <= posts requests)%nat.
Proof.
  induction requests as [|q requests IH]; intros mem.
  - exists [], [], []. cbn. rewrite !app_nil_r. repeat split; auto.
  - cbn [fold_left].
    destruct (IH (serve U mem q)) as (nm & nt & ns & Em & Et & Es & T1 & T2 & T3 & Hn).
    rewrite Em, Et, Es.
    destruct (serve_memory mem q)
      as [-> | (now & phase & color & -> & [-> | (r & m & rt & counted & ->)])].
    + exists nm, nt, ns. repeat split; auto. destruct q; simpl; lia.
    + destruct (mark_start_logs now mem) as (-> & -> & ->).
      exists nm, nt, ns. repeat split; auto. simpl. lia.
    + unfold log_request. cbn [moves token_usage thinking_stats].
      destruct (mark_start_logs now mem) as (-> & -> & ->).
      rewrite <- !app_assoc.
      eexists _, _, _. split; [reflexivity|]. split; [reflexivity|].
      split; [reflexivity|]. cbn [app map move_timestamp token_timestamp
                                   stat_timestamp thinking_time stat_elapsed_time length posts].
      repeat split; try (f_equal; assumption). lia.
Qed.

(** X12.  The three logs grow in lock step: after any run of requests the
    i-th move, the i-th token record and the i-th timing record carry the
    same timestamp and the same elapsed time, and there are at most as many
    of them as there were [/get-move] requests. *)
Theorem logs_grow_in_lock_step (requests : list request) :
  let mem := memory_after U requests in
  map move_timestamp (moves mem) = map token_timestamp (token_usage mem)
  /\ map move_timestamp (moves mem) = map stat_timestamp (thinking_stats mem)
  /\ map thinking_time (moves mem) = map stat_elapsed_time (thinking_stats mem)
  /\ List.length (moves mem) = List.length (token_usage mem)
  /\ List.length (moves mem) = List.length (thinking_stats mem)
  /\ (List.length (moves mem) <= posts requests)%nat.
Proof.
  cbv zeta. unfold memory_after.
  destruct (run_extends requests AGENT_MEMORY)
    as (nm & nt & ns & -> & -> & -> & T1 & T2 & T3 & Hn).
  cbn [AGENT_MEMORY moves token_usage thinking_stats app].
  repeat split; auto.
  - rewrite <- (length_map move_timestamp), T1. apply length_map.
  - rewrite <- (length_map move_timestamp), T2. apply length_map.
Qed.

(** X13.  Later requests never change or drop what is logged: the three
    logs after a longer run start with the logs after the shorter run. *)
Theorem logs_are_append_only (earlier later : list request) :
  exists new_moves new_tokens new_stats,
    moves (memory_after U (earlier ++ later))
    = moves (memory_after U earlier) ++ new_moves
    /\ token_usage (memory_after U (earlier ++ later))
       = token_usage (memory_after U earlier) ++ new_tokens
    /\ thinking_stats (memory_after U (earlier ++ later))
       = thinking_stats (memory_after U earlier) ++ new_stats.
Proof.
  unfold memory_after. rewrite fold_left_app.
  destruct (run_extends later (fold_left (serve U) earlier AGENT_MEMORY))
    as (nm & nt & ns & Em & Et & Es & _).
  now exists nm, nt, ns.
Qed.



End MemoryFacts.

(** ** The provider call, again *)

Lemma item_of_set_item_same {V : Type} (d : list (str * V)) (key : str) (v : V) :
  Provider.item_of (Provider.set_item d key v) key = Some v.
Proof.
  induction d as [|[k w] d IH]; simpl.
  - now rewrite str_eqb_refl.
  - destruct (str_eqb k key) eqn:E; simpl; rewrite E; [reflexivity | exact IH].
Qed.

Lemma item_of_set_item_other {V : Type} (d : list (str * V)) (key other : str) (v : V) :
  other <> key ->
  Provider.item_of (Provider.set_item d key v) other = Provider.item_of d other.
Proof.
  intros H. induction d as [|[k w] d IH]; simpl.
  - destruct (str_eqb key other) eqn:E; [|reflexivity].
    apply str_eqb_eq in E. congruence.
  - destruct (str_eqb k key) eqn:E; simpl.
    + apply str_eqb_eq in E. subst k.
      destruct (str_eqb key other) eqn:E'; [|reflexivity].
      apply str_eqb_eq in E'. congruence.
    + destruct (str_eqb k other); [reflexivity | exact IH].
Qed.

Lemma item_of_app {V : Type} (a b : list (str * V)) (key : str) :
  Provider.item_of (a ++ b) key
  = match Provider.item_of a key with
    | Some v => Some v
    | None => Provider.item_of b key
    end.
Proof.
  induction a as [|[k w] a IH]; simpl; [reflexivity|].
  now destruct (str_eqb k key).
Qed.

(** Insert and look up: after [d.update(other)] a key has the value of its
    last binding in [other], or else the value it had in [d]. *)
Lemma item_of_update {V : Type} (other : list (str * V)) : forall d key,
  Provider.item_of (Provider.update d other) key
  = match Provider.item_of (rev other) key with
    | Some v => Some v
    | None => Provider.item_of d key
    end.
Proof.
  unfold Provider.update.
  induction other as [|[k v] other IH]; intros d key; [reflexivity|].
  cbn [fold_left fst snd rev]. rewrite IH, item_of_app.
  destruct (Provider.item_of (rev other) key); [reflexivity|].
  simpl. destruct (str_eqb k key) eqn:E.
  - apply str_eqb_eq in E. subst k. apply item_of_set_item_same.
  - apply item_of_set_item_other. intros ->. now rewrite str_eqb_refl in E.
Qed.

Lemma item_of_rev_none {V : Type} (d : list (str * V)) (key : str) :
  Provider.item_of d key = None <-> Provider.item_of (rev d) key = None.
Proof.
  induction d as [|[k v] d IH]; [tauto|].
  cbn [rev]. rewrite item_of_app. simpl.
  destruct (str_eqb k key).
  - split; [discriminate|]. now destruct (Provider.item_of (rev d) key).
  - rewrite IH. now destruct (Provider.item_of (rev d) key).
Qed.

Section ProviderMore.
Variable U : unicode_db.
Variable value : Type.
Variable repr : str -> str.
Variable repeated_keyword : str -> str.
Variable environ : str -> option str.
Variable provider_api :
  Provider.network_call value -> Provider.outcome (option str).

Lemma run_of_attempt (messages : list Provider.message) (provider : str)
  (model system_message : option str) (max_tokens : option Z)
  (additional_params : option (list (str * value))) :
  snd (Provider.one_function_to_call_them_all U value repr repeated_keyword environ provider_api
         messages provider model system_message max_tokens additional_params)
  = snd (Provider.attempt U value repr repeated_keyword environ provider_api messages provider model
           system_message max_tokens additional_params)
  /\ forall t,
       fst (Provider.one_function_to_call_them_all U value repr repeated_keyword environ provider_api
              messages provider model system_message max_tokens additional_params)
       = Provider.Returned t
       <-> fst (Provider.attempt U value repr repeated_keyword environ provider_api messages provider
                  model system_message max_tokens additional_params)
           = Provider.Returned t.
Proof.
  unfold Provider.one_function_to_call_them_all.
  destruct (Provider.attempt _ _ _ _ _ _ _ _ _ _ _) as [[t'|m] calls]; cbn [fst snd].
  - split; [reflexivity | tauto].
  - split; [reflexivity|]. intros t. split; discriminate.
Qed.

Lemma item_of_map_value {A B : Type} (f : A -> B) (d : list (str * A)) (key : str) :
  Provider.item_of (map (fun kv => (fst kv, f (snd kv))) d) key
  = option_map f (Provider.item_of d key).
Proof.
  induction d as [|[k v] d IH]; simpl; [reflexivity|].
  now destruct (str_eqb k key).
Qed.

(** The providers of [DEFAULT_MODELS] are those of [BASE_URLS]. *)
Lemma unknown_provider (provider : str) :
  Provider.item_of Provider.DEFAULT_MODELS provider = None ->
  Provider.item_of Provider.BASE_URLS provider = None
  /\ str_eqb provider (lit "anthropic") = false.
Proof.
  cbn [Provider.item_of Provider.DEFAULT_MODELS Provider.BASE_URLS].
  intros H. split.
  - repeat match type of H with
           | (if ?b then _ else _) = None => destruct b; [discriminate|]
           end.
    reflexivity.
  - destruct (str_eqb provider (lit "anthropic")) eqn:E; [|reflexivity].
    apply str_eqb_eq in E. subst provider.
    destruct (str_eqb (lit "openai") (lit "anthropic")); [discriminate|].
    rewrite str_eqb_refl in H. discriminate.
Qed.

(** What a call that was made looks like. *)
Lemma attempt_call (messages : list Provider.message) (provider : str)
  (model system_message : option str) (max_tokens : option Z)
  (additional_params : option (list (str * value)))
  (call : Provider.network_call value) :
  In call (snd (Provider.attempt U value repr repeated_keyword environ provider_api messages provider
                  model system_message max_tokens additional_params)) ->
  Provider.attempt U value repr repeated_keyword environ provider_api messages provider model
    system_message max_tokens additional_params = (provider_api call, [call])
  /\ environ (upper U provider ++ lit "_API_KEY") = Some (call_key call)
  /\ strip (call_key call) <> []
  /\ exists chosen,
       (if asks_for_default model
        then Provider.item_of Provider.DEFAULT_MODELS provider else model) = Some chosen
       /\ ((provider = lit "anthropic" /\ call_model call = Some chosen)
           \/ (provider <> lit "anthropic"
               /\ exists base_url,
                    call = Provider.OpenAICreate value (call_key call) base_url
                             (openai_params chosen messages system_message
                                max_tokens additional_params))).
Proof.
  unfold Provider.attempt, Provider.get_api_key.
  destruct (environ _) as [key|] eqn:Ek; [|simpl; tauto].
  destruct key as [|c key]; [simpl; tauto|].
  cbn [orb]. destruct (str_eqb (strip (c :: key)) []) eqn:Es; [simpl; tauto|].
  assert (Hkey : strip (c :: key) <> []).
  { intros E. rewrite E in Es. discriminate. }
  replace (match Provider.nonempty model with
           | Some m =>
               if str_eqb m (lit "gpt-4o")
               then Provider.item_of Provider.DEFAULT_MODELS provider else Some m
           | None => Provider.item_of Provider.DEFAULT_MODELS provider
           end)
    with (if asks_for_default model
          then Provider.item_of Provider.DEFAULT_MODELS provider else model)
    by (destruct model as [[|c' m]|]; reflexivity).
  destruct (if asks_for_default model then _ else _) as [chosen|]; [|simpl; tauto].
  destruct (str_eqb provider (lit "anthropic")) eqn:Ea.
  - apply str_eqb_eq in Ea.
    destruct (Provider.render_messages _ _) as [lines|e]; [|simpl; tauto].
    destruct (find _ _) as [[repeated v]|]; [simpl; tauto|].
    cbn [snd In]. intros [<- | []].
    split; [reflexivity|]. split; [reflexivity|]. split; [exact Hkey|].
    exists chosen. split; [reflexivity|]. left. split; [exact Ea | reflexivity].
  - assert (Hp : provider <> lit "anthropic").
    { intros ->. rewrite str_eqb_refl in Ea. discriminate. }
    destruct (Provider.item_of Provider.BASE_URLS provider) as [base_url|];
      [|simpl; tauto].
    cbn [snd In]. intros [<- | []].
    split; [reflexivity|]. split; [reflexivity|]. split; [exact Hkey|].
    exists chosen. split; [reflexivity|]. right. split; [exact Hp|].
    exists base_url. cbn [call_key]. unfold openai_params.
    destruct additional_params as [[|kv d]|]; reflexivity.
Qed.

Lemma attempt_outcome (messages : list Provider.message) (provider : str)
  (model system_message : option str) (max_tokens : option Z)
  (additional_params : option (list (str * value))) :
  (exists e,
     Provider.attempt U value repr repeated_keyword environ provider_api messages provider model
       system_message max_tokens additional_params = (Provider.Raised e, []))
  \/ exists call,
       Provider.attempt U value repr repeated_keyword environ provider_api messages provider model
         system_message max_tokens additional_params
       = (provider_api call, [call]).
Proof.
  unfold Provider.attempt.
  repeat match goal with
         | |- context [if ?b then _ else _] => destruct b
         | |- context [match ?x with _ => _ end] => destruct x
         end; eauto.
Qed.

(** X15.  The function returns a text only after exactly one call to a
    provider client, and the text is what that call gave, unchanged; the
    function never answers by itself. *)
Theorem provider_text_comes_from_one_call (messages : list Provider.message)
  (provider : str) (model system_message : option str) (max_tokens : option Z)
  (additional_params : option (list (str * value))) (text : option str) :
  let run :=
    Provider.one_function_to_call_them_all U value repr repeated_keyword environ provider_api
      messages provider model system_message max_tokens additional_params in
  fst run = Provider.Returned text ->
  exists call, snd run = [call] /\ provider_api call = Provider.Returned text.
Proof.
  intros run H. subst run.
  destruct (run_of_attempt messages provider model system_message max_tokens
              additional_params) as [Hs Hf].
  rewrite Hs. apply Hf in H. clear Hs Hf.
  destruct (attempt_outcome messages provider model system_message max_tokens
              additional_params) as [(e & E) | (call & E)];
    rewrite E in *; cbn [fst snd] in *.
  - discriminate H.
  - exists call. split; [reflexivity | exact H].
Qed.

(** X16.  Every call made carries, as its API key, the value of the
    environment variable <PROVIDER>_API_KEY exactly as it is set (not
    stripped), and that value has a character that is not white space. *)
Theorem provider_call_carries_the_key (messages : list Provider.message)
  (provider : str) (model system_message : option str) (max_tokens : option Z)
  (additional_params : option (list (str * value)))
  (call : Provider.network_call value) :
  let run :=
    Provider.one_function_to_call_them_all U value repr repeated_keyword environ provider_api
      messages provider model system_message max_tokens additional_params in
  In call (snd run) ->
  environ (upper U provider ++ lit "_API_KEY") = Some (call_key call)
  /\ ~ blank (call_key call).
Proof.
  intros run H. subst run.
  rewrite (proj1 (run_of_attempt messages provider model system_message max_tokens
                    additional_params)) in H.
  apply attempt_call in H. destruct H as (_ & Hk & Hs & _).
  split; [exact Hk|]. intros Hb. apply Hs. now apply strip_blank.
Qed.

(** X17.  For a provider that is not one of the four of [DEFAULT_MODELS]
    no call is made, whatever model is asked for: the function raises
    either the missing-key error or the [KeyError] of the table lookup,
    wrapped. *)
Theorem unknown_provider_is_never_called (messages : list Provider.message)
  (provider : str) (model system_message : option str) (max_tokens : option Z)
  (additional_params : option (list (str * value))) :
  let run :=
    Provider.one_function_to_call_them_all U value repr repeated_keyword environ provider_api
      messages provider model system_message max_tokens additional_params in
  let context := lit "Error calling " ++ provider ++ lit " LLM: " in
  Provider.item_of Provider.DEFAULT_MODELS provider = None ->
  snd run = []
  /\ (fst run = Provider.Raised (context ++ lit "No API key found for " ++ provider)
      \/ fst run = Provider.Raised (context ++ repr provider)).
Proof.
  intros run context H. subst run context.
  destruct (unknown_provider provider H) as [Hb Ha].
  unfold Provider.one_function_to_call_them_all, Provider.attempt.
  rewrite H, Hb, Ha. rewrite <- !app_assoc.
  destruct (_ || _); [cbn [fst snd]; now auto|].
  destruct (Provider.nonempty model) as [m|]; [|cbn [fst snd]; now auto].
  destruct (str_eqb m (lit "gpt-4o")); cbn [fst snd]; now auto.
Qed.

(** X18.  Which model a call names.  With no model, the empty string or
    "gpt-4o" it is the provider's default from [DEFAULT_MODELS] (so "gpt-4o"
    cannot be asked of a provider other than openai); any other model goes
    out as given.  This holds when [additional_params] has no "model" of its
    own. *)
Theorem model_of_the_call (messages : list Provider.message)
  (provider : str) (model system_message : option str) (max_tokens : option Z)
  (additional_params : option (list (str * value)))
  (call : Provider.network_call value) :
  let run :=
    Provider.one_function_to_call_them_all U value repr repeated_keyword environ provider_api
      messages provider model system_message max_tokens additional_params in
  In call (snd run) ->
  (forall d, additional_params = Some d -> Provider.item_of d (lit "model") = None) ->
  call_model call
  = (if asks_for_default model
     then Provider.item_of Provider.DEFAULT_MODELS provider else model).
Proof.
  intros run H Hd. subst run.
  rewrite (proj1 (run_of_attempt messages provider model system_message max_tokens
                    additional_params)) in H.
  apply attempt_call in H.
  destruct H as (_ & _ & _ & chosen & -> & [[_ Hm] | [_ (base & Hp)]]); [exact Hm|].
  rewrite Hp. cbn [call_model]. unfold openai_params.
  assert (Hbase : forall n,
      Provider.item_of
        match n with
        | Some n =>
            Provider.set_item
              [ (lit "model", Provider.PStr value chosen);
                (lit "messages",
                 Provider.PMessages value
                   match Provider.nonempty system_message with
                   | Some s =>
                       [(lit "role", lit "system"); (lit "content", s)] :: messages
                   | None => messages
                   end) ] (lit "max_tokens") (Provider.PInt value n)
        | None =>
            [ (lit "model", Provider.PStr value chosen);
              (lit "messages",
               Provider.PMessages value
                 match Provider.nonempty system_message with
                 | Some s =>
                     [(lit "role", lit "system"); (lit "content", s)] :: messages
                 | None => messages
                 end) ]
        end (lit "model") = Some (Provider.PStr value chosen)).
    { intros [n|]; [|reflexivity].
      rewrite item_of_set_item_other by (intros E; discriminate E). reflexivity. }
  destruct additional_params as [d|].
  - rewrite item_of_update, (Hbase _), <- map_rev, item_of_map_value.
    rewrite (proj1 (item_of_rev_none d (lit "model")) (Hd d eq_refl)).
    reflexivity.
  - now rewrite (Hbase _).
Qed.

(** X19.  What [additional_params] does to a call through the OpenAI
    client: a key it has goes out with its value, also "model" and
    "messages", whose computed values it replaces; every other key keeps the
    value computed before. *)
Theorem additional_params_override (messages : list Provider.message)
  (provider : str) (model system_message : option str) (max_tokens : option Z)
  (d : list (str * value)) (call : Provider.network_call value) (key : str) :
  let run :=
    Provider.one_function_to_call_them_all U value repr repeated_keyword environ provider_api
      messages provider model system_message max_tokens (Some d) in
  let bare :=
    Provider.one_function_to_call_them_all U value repr repeated_keyword environ provider_api
      messages provider model system_message max_tokens None in
  In call (snd run) ->
  provider <> lit "anthropic" ->
  exists call',
    snd bare = [call']
    /\ Provider.item_of (call_params call) key
       = match Provider.item_of (rev d) key with
         | Some v => Some (Provider.PValue value v)
         | None => Provider.item_of (call_params call') key
         end.
Proof.
  intros run bare H Hp. subst run bare.
  rewrite (proj1 (run_of_attempt messages provider model system_message max_tokens
                    (Some d))) in H.
  rewrite (proj1 (run_of_attempt messages provider model system_message max_tokens
                    None)).
  destruct (attempt_outcome messages provider model system_message max_tokens None)
    as [(e & E) | (call' & E)].
  - exfalso. revert H E. unfold Provider.attempt.
    destruct (_ || _); [simpl; tauto|].
    destruct (match Provider.nonempty model with Some _ => _ | None => _ end);
      [|simpl; tauto].
    destruct (str_eqb provider (lit "anthropic")) eqn:Ea;
      [apply str_eqb_eq in Ea; contradiction|].
    destruct (Provider.item_of Provider.BASE_URLS provider); [|simpl; tauto].
    intros _ E. discriminate E.
  - exists call'. rewrite E. split; [reflexivity|].
    apply attempt_call in H.
    destruct H as (_ & _ & _ & chosen & Hc & [[Ha _] | [_ (base & Hq)]]);
      [contradiction|].
    assert (H' : In call' (snd (Provider.attempt U value repr repeated_keyword environ provider_api
                                  messages provider model system_message max_tokens
                                  None))) by (rewrite E; now left).
    apply attempt_call in H'.
    destruct H' as (_ & _ & _ & chosen' & Hc' & [[Ha _] | [_ (base' & Hq')]]);
      [contradiction|].
    assert (chosen' = chosen) by congruence. subst chosen'.
    rewrite Hq, Hq'. cbn [call_params]. unfold openai_params.
    rewrite item_of_update, <- map_rev, item_of_map_value.
    now destruct (Provider.item_of (rev d) key).
Qed.

End ProviderMore.

Lemma provider_text_comes_from_one_call_witness :
  exists call,
    snd (Provider.one_function_to_call_them_all ascii_only str plain_repr plain_repeated every_key
           answering_api hello (lit "groq") (Some (lit "gpt-4o")) None None None)
    = [call]
    /\ answering_api call = Provider.Returned (Some (lit "RA2 RA3")).
Proof.
  apply (provider_text_comes_from_one_call ascii_only str plain_repr plain_repeated every_key
           answering_api hello (lit "groq") (Some (lit "gpt-4o")) None None None).
  reflexivity.
Defined.

Lemma provider_call_carries_the_key_witness :
  every_key (upper ascii_only (lit "groq") ++ lit "_API_KEY")
  = Some (call_key groq_call)
  /\ ~ blank (call_key groq_call).
Proof.
  apply (provider_call_carries_the_key ascii_only str plain_repr plain_repeated every_key
           answering_api hello (lit "groq") (Some (lit "gpt-4o")) None None None
           groq_call).
  left. reflexivity.
Defined.

Lemma unknown_provider_is_never_called_witness :
  let run :=
    Provider.one_function_to_call_them_all ascii_only str plain_repr plain_repeated every_key
      answering_api hello (lit "mistral") (Some (lit "mistral-large")) None None None in
  snd run = []
  /\ (fst run
      = Provider.Raised ((lit "Error calling " ++ lit "mistral" ++ lit " LLM: ")
                         ++ lit "No API key found for " ++ lit "mistral")
      \/ fst run
         = Provider.Raised ((lit "Error calling " ++ lit "mistral" ++ lit " LLM: ")
                            ++ plain_repr (lit "mistral"))).
Proof.
  apply (unknown_provider_is_never_called ascii_only str plain_repr plain_repeated every_key
           answering_api hello (lit "mistral") (Some (lit "mistral-large")) None None
           None).
  reflexivity.
Defined.

Lemma model_of_the_call_witness :
  call_model groq_call = Some (lit "llama-3.3-70b-versatile").
Proof.
  apply (model_of_the_call ascii_only str plain_repr plain_repeated every_key answering_api hello
           (lit "groq") (Some (lit "gpt-4o")) None None None groq_call).
  - left. reflexivity.
  - discriminate.
Defined.

Lemma additional_params_override_witness :
  exists call',
    snd (Provider.one_function_to_call_them_all ascii_only str plain_repr plain_repeated every_key
           answering_api hello (lit "groq") (Some (lit "gpt-4o")) None None None)
    = [call']
    /\ Provider.item_of (call_params groq_call_other_model) (lit "model")
       = match Provider.item_of (rev [(lit "model", lit "mixtral-8x7b")]) (lit "model") with
         | Some v => Some (Provider.PValue str v)
         | None => Provider.item_of (call_params call') (lit "model")
         end.
Proof.
  apply (additional_params_override ascii_only str plain_repr plain_repeated every_key answering_api
           hello (lit "groq") (Some (lit "gpt-4o")) None None
           [(lit "model", lit "mixtral-8x7b")] groq_call_other_model (lit "model")).
  - left. reflexivity.
  - discriminate.
Defined.

(** ** Lines, and the removal of a tag *)

Lemma split_on_nonempty (sep : char) (s : str) : split_on sep s <> [].
Proof.
  destruct s as [|c s]; simpl; [discriminate|].
  destruct (char_eqb c sep); [discriminate|].
  destruct (split_on sep s); discriminate.
Qed.

Lemma split_on_line (a rest : str) :
  no_newline a -> split_on 10%N (a ++ 10%N :: rest) = a :: split_on 10%N rest.
Proof.
  unfold no_newline. induction a as [|c a IH]; intros H.
  - reflexivity.
  - cbn [app split_on]. destruct (char_eqb c 10%N) eqn:E.
    + apply N.eqb_eq in E. subst c. exfalso. apply H. now left.
    + rewrite IH by (intros G; apply H; now right). reflexivity.
Qed.

Lemma split_on_last (a : str) : no_newline a -> split_on 10%N a = [a].
Proof.
  unfold no_newline. induction a as [|c a IH]; intros H; [reflexivity|].
  cbn [split_on]. destruct (char_eqb c 10%N) eqn:E.
  - apply N.eqb_eq in E. subst c. exfalso. apply H. now left.
  - rewrite IH by (intros G; apply H; now right). reflexivity.
Qed.

Ltac literal_has_no_newline :=
  let G := fresh "G" in
  intros G; cbn in G;
  repeat (destruct G as [G | G]; [discriminate G|]); exact G.

Lemma three_lines (l1 l2 l3 : str) :
  no_newline l1 -> no_newline l2 -> no_newline l3 ->
  split_on 10%N (l1 ++ NEWLINE ++ l2 ++ NEWLINE ++ l3) = [l1; l2; l3].
Proof.
  intros H1 H2 H3. unfold NEWLINE. cbn [app].
  rewrite (split_on_line l1 _ H1), (split_on_line l2 _ H2), (split_on_last l3 H3).
  reflexivity.
Qed.

(** [sep.join(s.split(sep))] is [s]. *)
Lemma join_split_on (s : str) : Provider.join NEWLINE (split_on 10%N s) = s.
Proof.
  induction s as [|c s IH]; [reflexivity|].
  cbn [split_on]. destruct (char_eqb c 10%N) eqn:E.
  - apply N.eqb_eq in E. subst c.
    pose proof (split_on_nonempty 10%N s) as Hn.
    destruct (split_on 10%N s) as [|l ls] eqn:El; [contradiction|].
    change (Provider.join NEWLINE ([] :: l :: ls))
      with ([] ++ NEWLINE ++ Provider.join NEWLINE (l :: ls)).
    rewrite IH. reflexivity.
  - pose proof (split_on_nonempty 10%N s) as Hn.
    destruct (split_on 10%N s) as [|l ls] eqn:El; [contradiction|].
    rewrite <- IH. destruct ls as [|l' ls]; reflexivity.
Qed.

Lemma lines_have_no_newline (s : str) : Forall no_newline (split_on 10%N s).
Proof.
  induction s as [|c s IH]; [constructor; [intros []|constructor]|].
  cbn [split_on]. destruct (char_eqb c 10%N) eqn:E.
  - constructor; [intros []|exact IH].
  - pose proof (split_on_nonempty 10%N s) as Hn.
    destruct (split_on 10%N s) as [|l ls]; [contradiction|].
    inversion IH as [|? ? Hl Hls]; subst. constructor; [|exact Hls].
    intros [G | G]; [subst c; discriminate E | exact (Hl G)].
Qed.

Lemma remove_skip_passes (old a : str) : forall s,
  remove_skip old (List.length a) (a ++ s) = remove_skip old 0 s.
Proof.
  induction a as [|c a IH]; intros s; [reflexivity|].
  cbn [app List.length remove_skip]. apply IH.
Qed.

Lemma startswith_app (p s : str) : startswith (p ++ s) p = true.
Proof.
  induction p as [|x p IH]; [now destruct s|].
  cbn [app startswith]. unfold char_eqb. now rewrite N.eqb_refl, IH.
Qed.

(** A tag at the start of a line goes. *)
Lemma remove_all_prefix (old s : str) :
  old <> [] -> remove_all old (old ++ s) = remove_all old s.
Proof.
  intros H. destruct old as [|c old]; [contradiction|].
  unfold remove_all.
  change ((c :: old) ++ s) with (c :: old ++ s). cbn [remove_skip].
  change (c :: old ++ s) with ((c :: old) ++ s). rewrite startswith_app.
  cbn [List.length Nat.pred]. apply remove_skip_passes.
Qed.

(** A text without the tag is left as it is. *)
Lemma remove_all_absent (old : str) : forall s,
  contains s old = false -> remove_all old s = s.
Proof.
  unfold remove_all. induction s as [|c s IH]; intros H; [reflexivity|].
  change (startswith (c :: s) old || contains s old = false) in H.
  apply orb_false_iff in H as [H1 H2].
  cbn [remove_skip]. rewrite H1, (IH H2). reflexivity.
Qed.

Lemma strip_lstrip (s : str) : strip (lstrip s) = strip s.
Proof.
  unfold strip. f_equal. induction s as [|c s IH]; [reflexivity|].
  cbn [lstrip]. destruct (isspace c) eqn:E; [exact IH|].
  cbn [lstrip]. now rewrite E.
Qed.

(** ** The tagged-reply server *)

Lemma squares_are_squares (U : unicode_db) (s : str) : forall before,
  Forall is_square (squares_from U before s).
Proof.
  induction s as [|x s IH]; intros before; [constructor|].
  cbn [squares_from].
  destruct s as [|y s'].
  - cbn [squares_from]. constructor.
  - destruct (negb before && between 97 104 x && between 49 56 y
              && match s' with z :: _ => negb (is_word U z) | [] => true end) eqn:E.
    + constructor; [|apply IH].
      apply andb_true_iff in E as [E _]. apply andb_true_iff in E as [E Hy].
      apply andb_true_iff in E as [_ Hx]. now exists x, y.
    + apply IH.
Qed.

Lemma read_lines_keep_start (lines : list str) : forall start_pos end_pos reasoning,
  ~ Exists (fun line => startswith line (lit "START:") = true) lines ->
  fst (fst (fold_left LLMServer.read_line lines (start_pos, end_pos, reasoning)))
  = start_pos.
Proof.
  induction lines as [|line lines IH]; intros start_pos end_pos reasoning H;
    [reflexivity|].
  cbn [fold_left]. unfold LLMServer.read_line at 2.
  destruct (startswith line (lit "START:")) eqn:E1.
  - exfalso. apply H. now left.
  - assert (H' : ~ Exists (fun line => startswith line (lit "START:") = true) lines)
      by (intros G; apply H; now right).
    destruct (startswith line (lit "END:")); [now apply IH|].
    destruct (startswith line (lit "REASONING:")); now apply IH.
Qed.

Lemma read_lines_keep_end (lines : list str) : forall start_pos end_pos reasoning,
  ~ Exists (fun line => startswith line (lit "END:") = true) lines ->
  snd (fst (fold_left LLMServer.read_line lines (start_pos, end_pos, reasoning)))
  = end_pos.
Proof.
  induction lines as [|line lines IH]; intros start_pos end_pos reasoning H;
    [reflexivity|].
  cbn [fold_left]. unfold LLMServer.read_line at 2.
  assert (H' : ~ Exists (fun line => startswith line (lit "END:") = true) lines)
    by (intros G; apply H; now right).
  destruct (startswith line (lit "START:")) eqn:E1; [now apply IH|].
  destruct (startswith line (lit "END:")) eqn:E2.
  - exfalso. apply H. now left.
  - destruct (startswith line (lit "REASONING:")); now apply IH.
Qed.

Section ServerFacts.
Variable U : unicode_db.
Variable value : Type.
Variable repr : str -> str.
Variable repeated_keyword : str -> str.
Variable environ : str -> option str.
Variable provider_api :
  Provider.network_call value -> Provider.outcome (option str).

Lemma parsed_positions (response : str) (body : LLMServer.MoveResponse) :
  LLMServer.parse_response U response = Provider.Returned body ->
  LLMServer.start_position body <> []
  /\ LLMServer.end_position body <> []
  /\ exists r, LLMServer.reasoning body = Some r /\ r <> [].
Proof.
  unfold LLMServer.parse_response.
  destruct (LLMServer.from_text U response (LLMServer.read_lines response))
    as [[start_pos end_pos] reasoning].
  destruct start_pos as [[|a start_pos]|]; try discriminate.
  destruct end_pos as [[|b end_pos]|]; try discriminate.
  intros H. injection H as <-. cbn.
  split; [discriminate|]. split; [discriminate|].
  destruct reasoning as [[|c r]|]; cbn; eexists; split; try reflexivity; discriminate.
Qed.

(** X20.  A response of status 200 of [POST /get_move] never has an empty
    start position, end position or reasoning, and it is sent only after
    exactly one provider call, which gave a text.  (The positions are not
    checked to be squares.) *)
Theorem served_move_is_never_empty (request : LLMServer.MoveRequest)
  (body : LLMServer.MoveResponse) :
  let served := LLMServer.get_move U value repr repeated_keyword environ provider_api request in
  fst served = LLMServer.Ok body ->
  LLMServer.start_position body <> []
  /\ LLMServer.end_position body <> []
  /\ (exists r, LLMServer.reasoning body = Some r /\ r <> [])
  /\ exists call response,
       snd served = [call]
       /\ provider_api call = Provider.Returned (Some response)
       /\ LLMServer.parse_response U response = Provider.Returned body.
Proof.
  intros served H. subst served.
  unfold LLMServer.get_move, LLMServer.get_move_try in *.
  set (messages := [[(lit "role", lit "user");
                     (lit "content", LLMServer.user_prompt request)]]) in *.
  destruct (run_of_attempt U value repr repeated_keyword environ provider_api messages
              (LLMServer.model_provider request) (LLMServer.model_name request)
              (Some LLMServer.SYSTEM_PROMPT) None None) as [Hs Hf].
  destruct (Provider.one_function_to_call_them_all U value repr repeated_keyword environ provider_api
              messages (LLMServer.model_provider request)
              (LLMServer.model_name request) (Some LLMServer.SYSTEM_PROMPT) None None)
    as [out calls] eqn:E.
  cbn [fst snd] in *.
  destruct out as [[response|]|e]; try discriminate H.
  destruct (LLMServer.parse_response U response) as [body'|e] eqn:P;
    [|discriminate H].
  injection H as ->.
  destruct (parsed_positions response body P) as (H1 & H2 & H3).
  split; [exact H1|]. split; [exact H2|]. split; [exact H3|].
  pose proof (proj1 (Hf (Some response)) eq_refl) as Ha.
  destruct (attempt_outcome U value repr repeated_keyword environ provider_api messages
              (LLMServer.model_provider request) (LLMServer.model_name request)
              (Some LLMServer.SYSTEM_PROMPT) None None)
    as [(e & Ee) | (call & Ec)].
  - rewrite Ee in Ha. discriminate Ha.
  - rewrite Ec in Ha, Hs. cbn [fst snd] in Ha, Hs.
    exists call, response. split; [exact Hs|]. split; [exact Ha | exact P].
Qed.

(** X21.  Without an API key for the provider of the request the server
    answers with status 500, the detail is the provider function's wrapped
    message, and no provider is called. *)
Theorem server_reports_missing_key (request : LLMServer.MoveRequest) :
  let provider := LLMServer.model_provider request in
  let key := environ (upper U provider ++ lit "_API_KEY") in
  (key = None \/ exists v, key = Some v /\ blank v) ->
  LLMServer.get_move U value repr repeated_keyword environ provider_api request
  = (LLMServer.HTTPException 500
       (lit "Error calling " ++ provider ++ lit " LLM: No API key found for "
        ++ provider), []).
Proof.
  intros provider key H. subst provider key.
  unfold LLMServer.get_move, LLMServer.get_move_try,
    Provider.one_function_to_call_them_all.
  rewrite (attempt_without_key U value repr repeated_keyword environ provider_api) by exact H.
  reflexivity.
Qed.

(** X22.  A reply in the format of the system prompt is read back: for
    texts [a], [b], [r] on one line each, not blank, and free of their own
    tag, the reply "START:a / END:b / REASONING:r" gives the positions
    [a.strip()], [b.strip()] and the reasoning [r.strip()]. *)
Theorem tagged_reply_is_read_back (a b r : str) :
  no_newline a -> no_newline b -> no_newline r ->
  strip a <> [] -> strip b <> [] -> strip r <> [] ->
  contains a (lit "START:") = false ->
  contains b (lit "END:") = false ->
  contains r (lit "REASONING:") = false ->
  LLMServer.parse_response U
    (lit "START:" ++ a ++ NEWLINE ++ lit "END:" ++ b ++ NEWLINE
     ++ lit "REASONING:" ++ r)
  = Provider.Returned
      {| LLMServer.start_position := strip a;
         LLMServer.end_position := strip b;
         LLMServer.reasoning := Some (strip r) |}.
Proof.
  intros Na Nb Nr Sa Sb Sr Ca Cb Cr.
  assert (Tag : forall (tag text : str),
             no_newline tag -> no_newline text -> no_newline (tag ++ text)).
  { intros tag text Ht Hx G. apply in_app_or in G as [G | G]; auto. }
  assert (Lines :
    split_on 10%N (lit "START:" ++ a ++ NEWLINE ++ lit "END:" ++ b ++ NEWLINE
                   ++ lit "REASONING:" ++ r)
    = [lit "START:" ++ a; lit "END:" ++ b; lit "REASONING:" ++ r]).
  { replace (lit "START:" ++ a ++ NEWLINE ++ lit "END:" ++ b ++ NEWLINE
             ++ lit "REASONING:" ++ r)
      with ((lit "START:" ++ a) ++ NEWLINE ++ (lit "END:" ++ b) ++ NEWLINE
            ++ (lit "REASONING:" ++ r))
      by (now rewrite <- !app_assoc).
    apply three_lines; apply Tag; solve [literal_has_no_newline | assumption]. }
  unfold LLMServer.parse_response, LLMServer.read_lines. rewrite Lines.
  cbn [fold_left]. unfold LLMServer.read_line.
  rewrite !startswith_app.
  change (startswith (lit "END:" ++ b) (lit "START:")) with false.
  change (startswith (lit "REASONING:" ++ r) (lit "START:")) with false.
  change (startswith (lit "REASONING:" ++ r) (lit "END:")) with false.
  cbv iota.
  rewrite !remove_all_prefix by discriminate.
  rewrite (remove_all_absent _ a Ca), (remove_all_absent _ b Cb),
    (remove_all_absent _ r Cr).
  unfold LLMServer.from_text.
  destruct (strip a) as [|a0 a'] eqn:Ea; [contradiction|].
  destruct (strip b) as [|b0 b'] eqn:Eb; [contradiction|].
  destruct (strip r) as [|r0 r'] eqn:Er; [contradiction|].
  reflexivity.
Qed.

(** X23.  A reply in which no line starts with "START:", or none with
    "END:", is read from its running text: with two squares or more in it
    the first two are the move and the reasoning is "Extracted from text",
    whatever a "REASONING:" line said; with fewer the request fails. *)
Theorem untagged_reply_is_read_from_text (response : str) :
  ~ tagged (lit "START:") response \/ ~ tagged (lit "END:") response ->
  match squares U response with
  | first :: second :: _ =>
      LLMServer.parse_response U response
      = Provider.Returned
          {| LLMServer.start_position := first;
             LLMServer.end_position := second;
             LLMServer.reasoning := Some (lit "Extracted from text") |}
      /\ is_square first /\ is_square second
  | _ =>
      LLMServer.parse_response U response
      = Provider.Raised (lit "Could not parse a valid move from LLM response")
  end.
Proof.
  intros H. unfold tagged in H.
  assert (Unset :
    let '(start_pos, end_pos, _) := LLMServer.read_lines response in
    unset start_pos || unset end_pos = true
    /\ (start_pos = None \/ end_pos = None)).
  { unfold LLMServer.read_lines.
    destruct H as [H | H].
    - pose proof (read_lines_keep_start _ None None None H) as K.
      destruct (fold_left _ _ _) as [[s e] x]. cbn [fst] in K. subst s.
      split; [reflexivity | now left].
    - pose proof (read_lines_keep_end _ None None None H) as K.
      destruct (fold_left _ _ _) as [[s e] x]. cbn [fst snd] in K. subst e.
      split; [apply orb_true_r | now right]. }
  pose proof (squares_are_squares U response false) as Sq.
  fold (squares U response) in Sq.
  unfold LLMServer.parse_response, LLMServer.from_text.
  destruct (LLMServer.read_lines response) as [[start_pos end_pos] reasoning].
  destruct Unset as [Un Hn]. rewrite Un.
  destruct (squares U response) as [|first [|second rest]].
  - destruct Hn as [-> | ->]; [reflexivity|].
    now destruct start_pos as [[|? ?]|].
  - destruct Hn as [-> | ->]; [reflexivity|].
    now destruct start_pos as [[|? ?]|].
  - inversion Sq as [|? ? S1 Sq']; subst. inversion Sq' as [|? ? S2 _]; subst.
    split; [|split; assumption].
    destruct S1 as (x1 & y1 & -> & _). destruct S2 as (x2 & y2 & -> & _).
    reflexivity.
Qed.
End ServerFacts.

(** ** The simulated game *)

Lemma split_on_join (lines : list str) :
  lines <> [] -> Forall no_newline lines ->
  split_on 10%N (Provider.join NEWLINE lines) = lines.
Proof.
  induction lines as [|l lines IH]; intros Hn H; [contradiction|].
  inversion H as [|? ? Hl Hls]; subst.
  destruct lines as [|l' lines].
  - cbn [Provider.join]. now apply split_on_last.
  - change (Provider.join NEWLINE (l :: l' :: lines))
      with (l ++ 10%N :: Provider.join NEWLINE (l' :: lines)).
    rewrite split_on_line by exact Hl. f_equal. apply IH; [discriminate | exact Hls].
Qed.

Lemma contains_prefix (p s : str) : contains (p ++ s) p = true.
Proof.
  pose proof (startswith_app p s) as H.
  destruct (p ++ s); cbn [contains]; now rewrite H.
Qed.

Lemma has_turn_written (turn : str) :
  Simulation.has_turn (lit "Current turn: " ++ turn) = true.
Proof.
  unfold Simulation.has_turn.
  change (lit "Current turn: " ++ turn) with (lit "Current turn:" ++ lit " " ++ turn).
  apply contains_prefix.
Qed.

Lemma set_turn_line_found (turn : str) (lines : list str) :
  Exists (fun line => Simulation.has_turn line = true) lines ->
  find Simulation.has_turn (Simulation.set_turn_line turn lines)
  = Some (lit "Current turn: " ++ turn).
Proof.
  induction lines as [|line lines IH]; intros H; [inversion H|].
  cbn [Simulation.set_turn_line].
  destruct (Simulation.has_turn line) eqn:E.
  - cbn [find]. now rewrite has_turn_written.
  - cbn [find]. rewrite E. apply IH.
    inversion H as [? ? H0 | ? ? H0]; subst; [congruence | exact H0].
Qed.

Lemma set_turn_line_absent (turn : str) (lines : list str) :
  ~ Exists (fun line => Simulation.has_turn line = true) lines ->
  Simulation.set_turn_line turn lines = lines.
Proof.
  induction lines as [|line lines IH]; intros H; [reflexivity|].
  cbn [Simulation.set_turn_line].
  destruct (Simulation.has_turn line) eqn:E.
  - exfalso. apply H. now left.
  - f_equal. apply IH. intros G. apply H. now right.
Qed.

Lemma set_turn_line_lines (turn : str) (lines : list str) :
  no_newline turn -> Forall no_newline lines ->
  Forall no_newline (Simulation.set_turn_line turn lines)
  /\ (lines <> [] -> Simulation.set_turn_line turn lines <> []).
Proof.
  intros Ht. induction lines as [|line lines IH]; intros H.
  - split; [constructor | tauto].
  - inversion H as [|? ? Hl Hls]; subst. cbn [Simulation.set_turn_line].
    destruct (Simulation.has_turn line).
    + split; [|discriminate]. constructor; [|exact Hls].
      intros G. apply in_app_or in G as [G | G]; [|exact (Ht G)].
      revert G. literal_has_no_newline.
    + split; [|discriminate]. constructor; [exact Hl | now apply IH].
Qed.

Lemma next_turn_cases (turn : str) :
  Simulation.next_turn turn = lit "GREEN"
  \/ Simulation.next_turn turn = lit "RED"
  \/ Simulation.next_turn turn = lit "BLUE".
Proof.
  unfold Simulation.next_turn.
  destruct (str_eqb turn (lit "BLUE")); [now left|].
  destruct (str_eqb turn (lit "GREEN")); auto.
Qed.

Lemma next_turn_in_rotation (turn : str) : In (Simulation.next_turn turn) rotation.
Proof.
  destruct (next_turn_cases turn) as [-> | [-> | ->]]; cbn; auto.
Qed.

(** What a move does to the text of the board. *)
Lemma make_move_text (self : Simulation.SimpleBoard) (start_pos end_pos : pyval) :
  let after := Simulation.make_move self start_pos end_pos in
  (has_turn_line (Simulation.board_str self) ->
   Simulation._extract_turn (Simulation.board_str after)
   = Simulation.Done (Simulation.turn after)
   /\ has_turn_line (Simulation.board_str after))
  /\ (~ has_turn_line (Simulation.board_str self) ->
      Simulation.board_str after = Simulation.board_str self
      /\ Simulation._extract_turn (Simulation.board_str after)
         = Simulation.Done (lit "BLUE")).
Proof.
  intros after. subst after. unfold has_turn_line.
  cbn [Simulation.make_move Simulation.board_str Simulation.turn].
  set (turn' := Simulation.next_turn (Simulation.turn self)).
  set (lines := split_on 10%N (Simulation.board_str self)).
  assert (Ht : no_newline turn').
  { subst turn'. destruct (next_turn_cases (Simulation.turn self)) as [-> | [-> | ->]];
      literal_has_no_newline. }
  destruct (set_turn_line_lines turn' lines Ht (lines_have_no_newline _)) as [Hl Hn].
  specialize (Hn (split_on_nonempty _ _)).
  split.
  - intros H. unfold Simulation._extract_turn.
    rewrite (split_on_join _ Hn Hl), (set_turn_line_found turn' lines H).
    split.
    + subst turn'.
      destruct (next_turn_cases (Simulation.turn self)) as [-> | [-> | ->]];
        reflexivity.
    + apply Exists_exists. exists (lit "Current turn: " ++ turn'). split.
      * apply find_some with (f := Simulation.has_turn).
        apply (set_turn_line_found turn' lines H).
      * apply has_turn_written.
  - intros H. rewrite (set_turn_line_absent turn' lines H).
    subst lines. rewrite join_split_on. split; [reflexivity|].
    unfold Simulation._extract_turn.
    destruct (find Simulation.has_turn (split_on 10%N (Simulation.board_str self)))
      as [line|] eqn:E; [|reflexivity].
    exfalso. apply H. apply Exists_exists. exists line.
    apply find_some in E. exact E.
Qed.

(** X24.  [make_move] and [_extract_turn] agree on a board text with a
    "Current turn:" line: the text written by a move names the player now to
    move, and still has such a line.  On a text without one the move leaves
    the text as it is, and the text reads as BLUE to move whoever's turn it
    is. *)
Theorem make_move_writes_the_turn (self : Simulation.SimpleBoard)
  (start_pos end_pos : pyval) :
  let after := Simulation.make_move self start_pos end_pos in
  In (Simulation.turn after) rotation
  /\ Simulation.move_count after = S (Simulation.move_count self)
  /\ (has_turn_line (Simulation.board_str self) ->
      Simulation._extract_turn (Simulation.board_str after)
      = Simulation.Done (Simulation.turn after)
      /\ has_turn_line (Simulation.board_str after))
  /\ (~ has_turn_line (Simulation.board_str self) ->
      Simulation.board_str after = Simulation.board_str self
      /\ Simulation._extract_turn (Simulation.board_str after)
         = Simulation.Done (lit "BLUE")).
Proof.
  intros after.
  split; [apply next_turn_in_rotation|]. split; [reflexivity|].
  exact (make_move_text self start_pos end_pos).
Qed.

Section GameFacts.
Variable U : unicode_db.
Variable post : nat -> LLMServer.MoveRequest -> Simulation.answer.

(** One turn of a player of the rotation: the request sent and the board
    left. *)
Lemma play_turn_known (k : nat) (board : Simulation.SimpleBoard) :
  In (Simulation.turn board) rotation ->
  exists data board',
    Simulation.play_turn U post k board = Simulation.Done (board', data)
    /\ LLMServer.board_state data = Simulation.board_str board
    /\ LLMServer.color data = lower U (Simulation.turn board)
    /\ Simulation.turn board' = Simulation.next_turn (Simulation.turn board)
    /\ (usable (post k data) = true ->
        Simulation.move_count board' = S (Simulation.move_count board)
        /\ exists start_pos end_pos,
             board' = Simulation.make_move board start_pos end_pos)
    /\ (usable (post k data) = false ->
        Simulation.move_count board' = Simulation.move_count board
        /\ Simulation.board_str board' = Simulation.board_str board).
Proof.
  intros H. unfold Simulation.play_turn, Simulation.get_move_from_llm.
  assert (P : exists provider model,
             Provider.item_of Simulation.PLAYERS (Simulation.turn board)
             = Some (provider, model)).
  { cbn in H. destruct H as [<- | [<- | [<- | []]]]; eexists; eexists; reflexivity. }
  destruct P as (provider & model & ->).
  set (data := {| LLMServer.board_state := Simulation.board_str board;
                  LLMServer.color := lower U (Simulation.turn board);
                  LLMServer.model_provider := provider;
                  LLMServer.model_name := Some model |}).
  exists data.
  destruct (post k data) as [start_pos end_pos|] eqn:E;
    cbn [Simulation.and_then usable].
  - destruct (truthy start_pos && truthy end_pos) eqn:T.
    + eexists. split; [reflexivity|]. split; [reflexivity|]. split; [reflexivity|].
      split; [reflexivity|]. split; [|discriminate].
      intros _. split; [reflexivity|]. now exists start_pos, end_pos.
    + eexists. split; [reflexivity|]. split; [reflexivity|]. split; [reflexivity|].
      split; [reflexivity|]. split; [discriminate|]. intros _. now split.
  - eexists. split; [reflexivity|]. split; [reflexivity|]. split; [reflexivity|].
    split; [reflexivity|]. split; [discriminate|]. intros _. now split.
Qed.

Lemma count_usable (a : Simulation.answer) (rest : list Simulation.answer) :
  List.length (filter usable (a :: rest))
  = (if usable a then 1 else 0) + List.length (filter usable rest).
Proof. cbn [filter]. now destruct (usable a). Qed.

(** A round from BLUE: three requests, and BLUE is to move again. *)
Lemma play_rounds (rounds : nat) : forall k board,
  Simulation.turn board = lit "BLUE" ->
  exists final sent,
    Simulation.play U post (3 * rounds) k board = Simulation.Done (final, sent)
    /\ map LLMServer.color sent
       = concat (repeat [lit "blue"; lit "green"; lit "red"] rounds)
    /\ Simulation.turn final = lit "BLUE"
    /\ Simulation.move_count final
       = Simulation.move_count board
         + List.length (filter usable (answers_to post k sent)).
Proof.
  induction rounds as [|rounds IH]; intros k board Hb.
  - exists board, []. cbn. repeat split; auto.
  - replace (3 * S rounds) with (S (S (S (3 * rounds)))) by lia.
    destruct (play_turn_known k board) as (d1 & b1 & E1 & _ & C1 & T1 & Y1 & N1).
    { rewrite Hb. cbn. auto. }
    rewrite Hb in C1, T1.
    destruct (play_turn_known (S k) b1) as (d2 & b2 & E2 & _ & C2 & T2 & Y2 & N2).
    { rewrite T1. cbn. auto. }
    rewrite T1 in C2, T2.
    destruct (play_turn_known (S (S k)) b2) as (d3 & b3 & E3 & _ & C3 & T3 & Y3 & N3).
    { rewrite T2. cbn. auto. }
    rewrite T2 in C3, T3.
    destruct (IH (S (S (S k))) b3 T3) as (final & sent & E & Hc & Ht & Hm).
    exists final, (d1 :: d2 :: d3 :: sent).
    split.
    { cbn [Simulation.play]. rewrite E1. cbn [Simulation.and_then].
      rewrite E2. cbn [Simulation.and_then]. rewrite E3. cbn [Simulation.and_then].
      rewrite E. reflexivity. }
    split.
    { cbn [map repeat concat]. rewrite Hc, C1, C2, C3. reflexivity. }
    split; [exact Ht|].
    rewrite Hm. cbn [answers_to]. rewrite !count_usable.
    assert (M1 : Simulation.move_count b1
                 = Simulation.move_count board + (if usable (post k d1) then 1 else 0)).
    { destruct (usable (post k d1)); [destruct (Y1 eq_refl) | destruct (N1 eq_refl)]; lia. }
    assert (M2 : Simulation.move_count b2
                 = Simulation.move_count b1 + (if usable (post (S k) d2) then 1 else 0)).
    { destruct (usable (post (S k) d2));
        [destruct (Y2 eq_refl) | destruct (N2 eq_refl)]; lia. }
    assert (M3 : Simulation.move_count b3
                 = Simulation.move_count b2
                   + (if usable (post (S (S k)) d3) then 1 else 0)).
    { destruct (usable (post (S (S k)) d3));
        [destruct (Y3 eq_refl) | destruct (N3 eq_refl)]; lia. }
    lia.
Qed.

Lemma initial_board :
  Simulation.new_board Simulation.INITIAL_BOARD
  = Simulation.Done {| Simulation.board_str := Simulation.INITIAL_BOARD;
                       Simulation.turn := lit "BLUE";
                       Simulation.move_count := 0 |}.
Proof. reflexivity. Qed.

Lemma initial_board_has_turn_line : has_turn_line Simulation.INITIAL_BOARD.
Proof.
  unfold has_turn_line. apply Exists_exists. exists (lit "Current turn: BLUE").
  split; [|reflexivity]. vm_compute. right. left. reflexivity.
Qed.

(** X25.  The simulation never stops on an error and asks the players in
    the fixed order blue, green, red, three requests a round, whatever the
    answers are; the moves counted are the answers with two non-empty
    positions, and at the end it is BLUE's turn again. *)
Theorem simulation_asks_in_rotation (num_rounds : Z) :
  exists final sent,
    Simulation.simulate_game U post num_rounds = Simulation.Done (final, sent)
    /\ map LLMServer.color sent
       = concat (repeat [lit "blue"; lit "green"; lit "red"] (Z.to_nat num_rounds))
    /\ Simulation.turn final = lit "BLUE"
    /\ Simulation.move_count final
       = List.length (filter usable (answers_to post 0 sent)).
Proof.
  unfold Simulation.simulate_game. rewrite initial_board.
  cbn [Simulation.and_then].
  destruct (play_rounds (Z.to_nat num_rounds) 0
              {| Simulation.board_str := Simulation.INITIAL_BOARD;
                 Simulation.turn := lit "BLUE";
                 Simulation.move_count := 0 |} eq_refl)
    as (final & sent & E & Hc & Ht & Hm).
  exists final, sent. split; [exact E|]. split; [exact Hc|]. split; [exact Ht|].
  exact Hm.
Qed.

Lemma lower_next_turn (turn : str) :
  In turn rotation -> lower U (Simulation.next_turn turn) <> lower U turn.
Proof.
  cbn. intros [<- | [<- | [<- | []]]]; discriminate.
Qed.

(** Two requests in a row of a game. *)
Lemma play_chain (n : nat) : forall k board final sent,
  In (Simulation.turn board) rotation ->
  has_turn_line (Simulation.board_str board) ->
  Simulation.play U post n k board = Simulation.Done (final, sent) ->
  (forall data, nth_error sent 0 = Some data ->
     LLMServer.board_state data = Simulation.board_str board
     /\ LLMServer.color data = lower U (Simulation.turn board))
  /\ forall i data data',
       nth_error sent i = Some data -> nth_error sent (S i) = Some data' ->
       (usable (post (k + i) data) = false ->
        LLMServer.board_state data' = LLMServer.board_state data
        /\ LLMServer.color data' <> LLMServer.color data)
       /\ (usable (post (k + i) data) = true ->
           exists turn,
             Simulation._extract_turn (LLMServer.board_state data')
             = Simulation.Done turn
             /\ LLMServer.color data' = lower U turn).
Proof.
  induction n as [|n IH]; intros k board final sent Ht Hl E.
  - cbn in E. injection E as <- <-. split.
    + intros data H. discriminate H.
    + intros [|i] data data' H; discriminate H.
  - cbn [Simulation.play] in E.
    destruct (play_turn_known k board Ht) as (d & b & E1 & B1 & C1 & T1 & Y1 & N1).
    rewrite E1 in E. cbn [Simulation.and_then] in E.
    destruct (Simulation.play U post n (S k) b) as [[final' sent']|e] eqn:E2;
      cbn [Simulation.and_then] in E; [|discriminate E].
    injection E as <- <-.
    assert (Ht' : In (Simulation.turn b) rotation)
      by (rewrite T1; apply next_turn_in_rotation).
    assert (Hl' : has_turn_line (Simulation.board_str b)).
    { destruct (usable (post k d)) eqn:Us.
      - destruct (Y1 eq_refl) as (_ & s & e & ->).
        now apply (make_move_text board s e).
      - destruct (N1 eq_refl) as (_ & ->). exact Hl. }
    destruct (IH (S k) b final' sent' Ht' Hl' E2) as [Head Chain].
    split.
    + intros data H. injection H as <-. now split.
    + intros [|i] data data' H H'.
      * injection H as <-. cbn [nth_error] in H'.
        destruct (Head data' H') as [Hb Hc]. rewrite Nat.add_0_r.
        split.
        -- intros Us. destruct (N1 Us) as (_ & Eb).
           split; [congruence|]. rewrite Hc, C1, T1. now apply lower_next_turn.
        -- intros Us. destruct (Y1 Us) as (_ & s & e & ->).
           exists (Simulation.turn (Simulation.make_move board s e)).
           rewrite Hb. split; [|exact Hc].
           now apply (make_move_text board s e).
      * cbn [nth_error] in H, H'. rewrite Nat.add_succ_r.
        exact (Chain i data data' H H').
Qed.

(** X26.  After a request that brought no usable answer the next player is
    sent the same board text as the one before: the turn moves on, the text
    does not.  After a usable answer the text sent names the player it is
    sent for. *)
Theorem failed_turn_leaves_stale_board (num_rounds : Z) (i : nat)
  (final : Simulation.SimpleBoard) (sent : list LLMServer.MoveRequest)
  (data data' : LLMServer.MoveRequest) :
  Simulation.simulate_game U post num_rounds = Simulation.Done (final, sent) ->
  nth_error sent i = Some data ->
  nth_error sent (S i) = Some data' ->
  (usable (post i data) = false ->
   LLMServer.board_state data' = LLMServer.board_state data
   /\ LLMServer.color data' <> LLMServer.color data)
  /\ (usable (post i data) = true ->
      exists turn,
        Simulation._extract_turn (LLMServer.board_state data') = Simulation.Done turn
        /\ LLMServer.color data' = lower U turn).
Proof.
  unfold Simulation.simulate_game. rewrite initial_board.
  cbn [Simulation.and_then]. intros E H H'.
  refine (proj2 (play_chain _ 0 _ final sent _ _ E) i data data' H H').
  - cbn. auto.
  - exact initial_board_has_turn_line.
Qed.
End GameFacts.

Section Together.
Variable U : unicode_db.
Variable value : Type.
Variable repr : str -> str.
Variable repeated_keyword : str -> str.
Variable environ : str -> option str.
Variable api : nat -> Provider.network_call value -> Provider.outcome (option str).

Lemma served_answer_usable (k : nat) (data : LLMServer.MoveRequest) :
  usable (served_by U value repr repeated_keyword environ api k data)
  = answered_200 (fst (LLMServer.get_move U value repr repeated_keyword environ (api k) data)).
Proof.
  unfold served_by, LLMServer.get_move, LLMServer.get_move_try.
  destruct (Provider.one_function_to_call_them_all _ _ _ _ _ _ _ _ _ _ _)
    as [[[response|]|e] calls]; cbn [fst]; try reflexivity.
  destruct (LLMServer.parse_response U response) as [body|e] eqn:P; [|reflexivity].
  destruct (parsed_positions U response body P) as (H1 & H2 & _).
  cbn [Simulation.over_http usable answered_200 truthy].
  destruct (LLMServer.start_position body); [contradiction|].
  destruct (LLMServer.end_position body); [contradiction|]. reflexivity.
Qed.

(** X27.  With the server of [llm_server.py] behind the simulation, a turn
    counts as a move exactly when the server answered with status 200: its
    200 answers always pass the simulation's test of the two positions, and
    every other answer skips the turn and leaves the board text alone. *)
Theorem served_move_is_played (k : nat) (board : Simulation.SimpleBoard) :
  In (Simulation.turn board) rotation ->
  exists data board',
    Simulation.play_turn U (served_by U value repr repeated_keyword environ api) k board
    = Simulation.Done (board', data)
    /\ LLMServer.board_state data = Simulation.board_str board
    /\ (answered_200 (fst (LLMServer.get_move U value repr repeated_keyword environ (api k) data)) = true ->
        Simulation.move_count board' = S (Simulation.move_count board))
    /\ (answered_200 (fst (LLMServer.get_move U value repr repeated_keyword environ (api k) data)) = false ->
        Simulation.move_count board' = Simulation.move_count board
        /\ Simulation.board_str board' = Simulation.board_str board).
Proof.
  intros H.
  destruct (play_turn_known U (served_by U value repr repeated_keyword environ api) k board H)
    as (data & board' & E & Hb & _ & _ & Y & N).
  exists data, board'. rewrite served_answer_usable in Y, N.
  split; [exact E|]. split; [exact Hb|]. split.
  - intros A. now destruct (Y A).
  - exact N.
Qed.
End Together.

(** ** Reading the clocks *)


Section ClockFacts.
Variable U : unicode_db.
Variable py_int : str -> option Z.




End ClockFacts.

(** ** The further theorems at concrete inputs *)

Lemma served_move_is_never_empty_witness :
  let body :=
    {| LLMServer.start_position := lit "e2";
       LLMServer.end_position := lit "e4";
       LLMServer.reasoning := Some (lit "No reasoning provided") |} in
  let served :=
    LLMServer.get_move ascii_only str plain_repr plain_repeated every_key tagging_api blue_request in
  LLMServer.start_position body <> []
  /\ LLMServer.end_position body <> []
  /\ (exists r, LLMServer.reasoning body = Some r /\ r <> [])
  /\ exists call response,
       snd served = [call]
       /\ tagging_api call = Provider.Returned (Some response)
       /\ LLMServer.parse_response ascii_only response = Provider.Returned body.
Proof.
  apply (served_move_is_never_empty ascii_only str plain_repr plain_repeated every_key tagging_api
           blue_request).
  reflexivity.
Defined.

Lemma server_reports_missing_key_witness :
  LLMServer.get_move ascii_only str plain_repr plain_repeated no_keys tagging_api blue_request
  = (LLMServer.HTTPException 500
       (lit "Error calling " ++ lit "openai" ++ lit " LLM: No API key found for "
        ++ lit "openai"), []).
Proof.
  apply (server_reports_missing_key ascii_only str plain_repr plain_repeated no_keys tagging_api
           blue_request).
  left. reflexivity.
Defined.

Lemma tagged_reply_is_read_back_witness :
  LLMServer.parse_response ascii_only
    (lit "START:" ++ lit " e2 " ++ NEWLINE ++ lit "END:" ++ lit " e4" ++ NEWLINE
     ++ lit "REASONING:" ++ lit " The centre.")
  = Provider.Returned
      {| LLMServer.start_position := strip (lit " e2 ");
         LLMServer.end_position := strip (lit " e4");
         LLMServer.reasoning := Some (strip (lit " The centre.")) |}.
Proof.
  apply (tagged_reply_is_read_back ascii_only (lit " e2 ") (lit " e4")
           (lit " The centre."));
    solve [literal_has_no_newline | discriminate | reflexivity].
Defined.

Lemma untagged_reply_is_read_from_text_witness :
  match squares ascii_only (lit "REASONING: I play e2 to e4.") with
  | first :: second :: _ =>
      LLMServer.parse_response ascii_only (lit "REASONING: I play e2 to e4.")
      = Provider.Returned
          {| LLMServer.start_position := first;
             LLMServer.end_position := second;
             LLMServer.reasoning := Some (lit "Extracted from text") |}
      /\ is_square first /\ is_square second
  | _ =>
      LLMServer.parse_response ascii_only (lit "REASONING: I play e2 to e4.")
      = Provider.Raised (lit "Could not parse a valid move from LLM response")
  end.
Proof.
  apply (untagged_reply_is_read_from_text ascii_only (lit "REASONING: I play e2 to e4.")).
  left. intros H. apply Exists_exists in H. destruct H as (line & Hl & E).
  vm_compute in Hl. destruct Hl as [<- | []]. discriminate E.
Defined.

Lemma failed_turn_leaves_stale_board_witness :
  (usable (silent 0 blue_request) = false ->
   LLMServer.board_state green_request = LLMServer.board_state blue_request
   /\ LLMServer.color green_request <> LLMServer.color blue_request)
  /\ (usable (silent 0 blue_request) = true ->
      exists turn,
        Simulation._extract_turn (LLMServer.board_state green_request)
        = Simulation.Done turn
        /\ LLMServer.color green_request = lower ascii_only turn).
Proof.
  apply (failed_turn_leaves_stale_board ascii_only silent 1 0 start_of_game
           [blue_request; green_request; red_request]);
    reflexivity.
Defined.

Lemma served_move_is_played_witness :
  exists data board',
    Simulation.play_turn ascii_only
      (served_by ascii_only str plain_repr plain_repeated every_key (fun _ => tagging_api)) 0
      start_of_game
    = Simulation.Done (board', data)
    /\ LLMServer.board_state data = Simulation.board_str start_of_game
    /\ (answered_200
          (fst (LLMServer.get_move ascii_only str plain_repr plain_repeated every_key tagging_api data))
        = true ->
        Simulation.move_count board' = S (Simulation.move_count start_of_game))
    /\ (answered_200
          (fst (LLMServer.get_move ascii_only str plain_repr plain_repeated every_key tagging_api data))
        = false ->
        Simulation.move_count board' = Simulation.move_count start_of_game
        /\ Simulation.board_str board' = Simulation.board_str start_of_game).
Proof.
  apply (served_move_is_played ascii_only str plain_repr plain_repeated every_key
           (fun _ => tagging_api) 0 start_of_game).
  left. reflexivity.
Defined.

Example simulation_examples :
  Simulation.simulate_game ascii_only silent 1
  = Simulation.Done (start_of_game, [blue_request; green_request; red_request])
  /\ (exists final sent,
        Simulation.simulate_game ascii_only
          (served_by ascii_only str plain_repr plain_repeated every_key (fun _ => tagging_api)) 1
        = Simulation.Done (final, sent)
        /\ Simulation.move_count final = 3
        /\ map Simulation._extract_turn (map LLMServer.board_state sent)
           = [Simulation.Done (lit "BLUE"); Simulation.Done (lit "GREEN");
              Simulation.Done (lit "RED")])
  /\ Simulation._extract_turn (lit "Current turn: RED: check")
     = Simulation.Done (lit "RED")
  /\ Simulation._extract_turn (lit "Note: Current turn: RED")
     = Simulation.Done (lit "Current turn").
Proof.
  split; [reflexivity|]. split; [|split; reflexivity].
  eexists. eexists. split; [vm_compute; reflexivity|]. split; reflexivity.
Qed.


Example clocks_read_or_not :
  fst (get_llm_move ascii_only sample_clock
         (phase_of_request no_int (PyStr (lit "RED time: 12000")) (PyStr (lit "RED"))
            (fun _ => Replied (sample_reply None (Some (lit "RA2 RA4")))))
         (PyStr (lit "RED")) AGENT_MEMORY)
  = lit "RA2 RA4"
  /\ fst (get_llm_move ascii_only sample_clock
            (phase_of_request no_int (PyStr (lit "RED time:")) (PyStr (lit "RED"))
               (fun _ => Replied (sample_reply None (Some (lit "RA2 RA4")))))
            (PyStr (lit "RED")) AGENT_MEMORY)
     = lit "RA2 RA3".
Proof. split; reflexivity. Qed.

(* ================================================================== *)
(** ** A reply whose usage cannot be logged *)

Section UsageFacts.
Variable U : unicode_db.

(** X29.  When the usage details of a reply give [None] for the reasoning
    tokens, line 830 raises after the cascade: whatever the reply holds,
    [get_llm_move] answers with the fixed fallback move of the colour and
    logs nothing, and the handler sends that move with the reasoning of the
    last move logged before (status 500 when that reasoning has no
    length). *)
Theorem uncounted_reply_gets_the_fixed_move (now : clock) (current_color : pyval)
  (mem : agent_memory) (r : reply) :
  reasoning_tokens (reply_usage r) = None ->
  get_llm_move U now (Replied r) current_color mem
  = (fixed_fallback current_color, mark_start now mem)
  /\ fst (get_move U now (Replied r) current_color mem)
     = if has_len (last_reasoning mem)
       then Body (fixed_fallback current_color) (last_reasoning mem)
       else InternalServerError.
Proof.
  intros H.
  assert (L : loggable (reply_usage r) = false).
  { unfold loggable, thinking_ratio_of. now rewrite H. }
  assert (E : get_llm_move U now (Replied r) current_color mem
              = (fixed_fallback current_color, mark_start now mem)).
  { destruct (cascade U current_color r) as [[m t]|e] eqn:C.
    - exact (get_llm_move_not_logged U now current_color r mem m t C L).
    - unfold get_llm_move. now rewrite C. }
  split; [exact E|].
  exact (get_move_not_logged U now (Replied r) current_color mem E).
Qed.
End UsageFacts.

Lemma uncounted_reply_gets_the_fixed_move_witness :
  get_llm_move ascii_only sample_clock (Replied uncounted_reply)
    (PyStr (lit "BLUE")) AGENT_MEMORY
  = (lit "BA2 BA3", mark_start sample_clock AGENT_MEMORY)
  /\ fst (get_move ascii_only sample_clock (Replied uncounted_reply)
            (PyStr (lit "BLUE")) AGENT_MEMORY)
     = Body (lit "BA2 BA3") (JStr (lit "No reasoning available")).
Proof.
  exact (uncounted_reply_gets_the_fixed_move ascii_only sample_clock
           (PyStr (lit "BLUE")) AGENT_MEMORY uncounted_reply eq_refl).
Defined.

(* ================================================================== *)
(** ** A keyword given twice to the Anthropic client *)

Section RepeatedKeyword.
Variable U : unicode_db.
Variable value : Type.
Variable repr : str -> str.
Variable repeated_keyword : str -> str.
Variable environ : str -> option str.
Variable provider_api :
  Provider.network_call value -> Provider.outcome (option str).

(** X30.  For the provider "anthropic", when [additional_params] has one of
    the keys "model", "max_tokens", "system" and "messages", no call is made:
    the function raises, and with an API key set and messages that all have
    a role and a content what it raises is the [TypeError] of the first such
    key, wrapped. *)
Theorem anthropic_keyword_given_twice (messages : list Provider.message)
  (model system_message : option str) (max_tokens : option Z)
  (d : list (str * value)) (key : str) (v : value) :
  let run :=
    Provider.one_function_to_call_them_all U value repr repeated_keyword environ provider_api
      messages (lit "anthropic") model system_message max_tokens (Some d) in
  let context := lit "Error calling anthropic LLM: " in
  find (fun kv => str_in (fst kv) Provider.ANTHROPIC_KEYWORDS) d = Some (key, v) ->
  snd run = []
  /\ (exists e, fst run = Provider.Raised (context ++ e))
  /\ forall api_key lines,
       environ (upper U (lit "anthropic") ++ lit "_API_KEY") = Some api_key ->
       strip api_key <> [] ->
       Provider.render_messages repr messages = Provider.Returned lines ->
       fst run = Provider.Raised (context ++ repeated_keyword key).
Proof.
  intros run context H. subst run context.
  unfold Provider.one_function_to_call_them_all, Provider.attempt, Provider.get_api_key.
  rewrite H.
  assert (M : exists chosen,
            match Provider.nonempty model with
            | Some m =>
                if str_eqb m (lit "gpt-4o")
                then Provider.item_of Provider.DEFAULT_MODELS (lit "anthropic")
                else Some m
            | None => Provider.item_of Provider.DEFAULT_MODELS (lit "anthropic")
            end = Some chosen).
  { destruct (Provider.nonempty model) as [m|]; [|now eexists].
    destruct (str_eqb m (lit "gpt-4o")); now eexists. }
  destruct M as (chosen & ->).
  change (str_eqb (lit "anthropic") (lit "anthropic")) with true. cbv iota.
  split; [|split].
  - destruct (_ || _); [reflexivity|].
    now destruct (Provider.render_messages repr messages).
  - destruct (_ || _); [now eexists|].
    destruct (Provider.render_messages repr messages); now eexists.
  - intros api_key lines Hk Hs Hr. rewrite Hk, Hr.
    destruct api_key as [|c api_key]; [now elim Hs|].
    cbn [orb].
    destruct (str_eqb (strip (c :: api_key)) []) eqn:Es.
    + apply str_eqb_eq in Es. contradiction.
    + reflexivity.
Qed.
End RepeatedKeyword.

Lemma anthropic_keyword_given_twice_witness :
  Provider.one_function_to_call_them_all ascii_only str plain_repr plain_repeated
    every_key answering_api hello (lit "anthropic") None None (Some 100%Z)
    (Some [(lit "temperature", lit "0"); (lit "max_tokens", lit "50")])
  = (Provider.Raised
       (lit "Error calling anthropic LLM: " ++ plain_repeated (lit "max_tokens")),
     []).
Proof.
  destruct (anthropic_keyword_given_twice ascii_only str plain_repr plain_repeated
              every_key answering_api hello None None (Some 100%Z)
              [(lit "temperature", lit "0"); (lit "max_tokens", lit "50")]
              (lit "max_tokens") (lit "50") eq_refl)
    as (S & _ & F).
  apply injective_projections; [|exact S].
  exact (F _ _ eq_refl ltac:(discriminate) eq_refl).
Defined.
